(** * A shallow embedding of the ws endpoint and of its hixie receiver

    The development follows the source files:

    - [lib/Receiver.hixie.js], the parser of the hixie-76 framing, embedded
      in [Module ReceiverHixie], with the streams of frames it is fed in
      [Module Hixie76];
    - [lib/WebSocket.js], the endpoint with its ready state, its closing
      handshake, its close timer and its send queue, embedded in
      [Module Endpoint], with the handshake of a client and the first bytes
      of a connection in [Module Client];
    - [lib/WebSocketServer.js], the upgrade of a request and the closing of
      the server, embedded in [Module Server];
    - the [WebSocket.js] of the first releases, embedded in [Module Legacy]
      and [Module LegacyLife].

    Node buffers are lists of byte values ([Z]), JavaScript numbers are
    integers of [Z] (exact below 2^53), and every call that leaves the
    modelled object (a user listener, the Sender, the socket) is recorded in
    the list of effects that each operation returns.

    [lib/Sender.js] and [lib/Receiver.js] are not part of what is embedded:
    a call of the Sender is an effect, and what the Sender and the Receiver
    call back are events of the endpoint. Listeners return normally,
    ['error'] has a listener, and what a listener does with the endpoint is
    an event of its own, after the one that called the listener. *)

From Stdlib Require Import ZArith List String Bool Lia.
From Stdlib Require Import DecimalString Ascii.
Import ListNotations.
Open Scope string_scope.
Open Scope list_scope.
Open Scope Z_scope.

(** ** Node buffers *)

Module Buf.

Definition Buffer := list Z.

Definition length (b : Buffer) : Z := Z.of_nat (List.length b).

(** [b[i]]: [None] stands for [undefined]. *)
Definition get (b : Buffer) (i : Z) : option Z :=
  if i <? 0 then None else nth_error b (Z.to_nat i).

(** [b[i] === v] *)
Definition get_is (b : Buffer) (i : Z) (v : Z) : bool :=
  match get b i with
  | Some x => x =? v
  | None => false
  end.

(** [b.slice(start)]: a negative [start] counts from the end. *)
Definition slice (b : Buffer) (start : Z) : Buffer :=
  let len := length b in
  let s := if start <? 0 then Z.max (len + start) 0 else Z.min start len in
  skipn (Z.to_nat s) b.

(** [b.indexOf(v)], [-1] when absent. *)
Fixpoint indexOf_from (b : Buffer) (v : Z) (i : Z) : Z :=
  match b with
  | [] => -1
  | x :: b' => if x =? v then i else indexOf_from b' v (i + 1)
  end.

Definition indexOf (b : Buffer) (v : Z) : Z := indexOf_from b v 0.

(** [new Buffer(n)]: a [RangeError] ([None]) for a negative size. The
    content of a fresh buffer is unspecified; it is zero here. *)
Definition alloc (n : Z) : option Buffer :=
  if n <? 0 then None else Some (repeat 0 (Z.to_nat n)).

(** [src.copy(target, targetStart, sourceStart, sourceEnd)] with
    non-negative arguments and [sourceStart <= src.length]; returns the
    target after the copy. *)
Definition copy (src target : Buffer) (targetStart sourceStart sourceEnd : Z)
  : Buffer :=
  if (length target <=? targetStart) || (sourceEnd <=? sourceStart) then target
  else
    let n := Z.min (Z.min (sourceEnd - sourceStart)
                          (length target - targetStart))
                   (length src - sourceStart) in
    firstn (Z.to_nat targetStart) target
      ++ firstn (Z.to_nat n) (skipn (Z.to_nat sourceStart) src)
      ++ skipn (Z.to_nat (targetStart + n)) target.

End Buf.

(** ** lib/Receiver.hixie.js *)

Module ReceiverHixie.

Import Buf.

Inductive State := EMPTY | BODY | BINARYLENGTH | BINARYBODY.

Definition State_eqb (a b : State) : bool :=
  match a, b with
  | EMPTY, EMPTY | BODY, BODY
  | BINARYLENGTH, BINARYLENGTH | BINARYBODY, BINARYBODY => true
  | _, _ => false
  end.

Record Receiver := mkReceiver {
  state : State;
  buffers : list Buffer;
  messageEnd : Z;
  spanLength : Z;
  dead : bool
}.

(** The handler slots [onclose], [onerror] and [ontext]: a call is recorded
    as a dispatched event. The text handed to [ontext] is kept as the bytes
    that [toString('utf8')] decodes. *)
Inductive Dispatch :=
| onclose
| onerror (err : string) (terminate : bool)
| ontext (payload : Buffer).

(** What a call hands back to the loop of [add]: [undefined] or [null]
    ([Done]), the tail that [parse] returns ([Again]), or an exception. *)
Inductive Next :=
| Done
| Again (tail : Buffer)
| Raised (e : string).

Definition constructor : Receiver :=
  {| state := EMPTY; buffers := []; messageEnd := -1; spanLength := 0;
     dead := false |}.

Definition set_state (r : Receiver) (s : State) : Receiver :=
  {| state := s; buffers := buffers r; messageEnd := messageEnd r;
     spanLength := spanLength r; dead := dead r |}.

Definition set_messageEnd (r : Receiver) (m : Z) : Receiver :=
  {| state := state r; buffers := buffers r; messageEnd := m;
     spanLength := spanLength r; dead := dead r |}.

Definition set_spanLength (r : Receiver) (n : Z) : Receiver :=
  {| state := state r; buffers := buffers r; messageEnd := messageEnd r;
     spanLength := n; dead := dead r |}.

Definition push (r : Receiver) (b : Buffer) : Receiver :=
  {| state := state r; buffers := buffers r ++ [b];
     messageEnd := messageEnd r; spanLength := spanLength r; dead := dead r |}.

(** [reset (reason)] *)
Definition reset (r : Receiver) : Receiver :=
  if dead r then r
  else {| state := EMPTY; buffers := []; messageEnd := -1; spanLength := 0;
          dead := dead r |}.

(** [cleanup ()] *)
Definition cleanup (r : Receiver) : Receiver :=
  {| state := EMPTY; buffers := []; messageEnd := messageEnd r;
     spanLength := spanLength r; dead := true |}.

(** [error (err, terminate)] *)
Definition error (r : Receiver) (err : string) (terminate : bool)
  : Receiver * list Dispatch :=
  (reset r, [onerror err terminate]).

(** The first loop of [parse]: every buffer but the last is copied whole. *)
Fixpoint copy_all_but_last (bs : list Buffer) (output : Buffer)
  (outputIndex : Z) : Buffer * Z :=
  match bs with
  | [] => (output, outputIndex)
  | [_] => (output, outputIndex)
  | b :: bs' =>
      copy_all_but_last bs' (copy b output outputIndex 0 (length b))
                        (outputIndex + length b)
  end.

(** [parse ()] *)
Definition parse (r : Receiver) : Receiver * list Dispatch * Next :=
  match alloc (spanLength r) with
  | None => (r, [], Raised "RangeError")
  | Some output0 =>
      let '(output1, outputIndex) := copy_all_but_last (buffers r) output0 0 in
      match last (map Some (buffers r)) None with
      | None =>
          (* [lastBuffer] is [undefined] *)
          if 0 <? messageEnd r then (r, [], Raised "TypeError")
          else
            let r1 := if State_eqb (state r) BODY then r
                      else set_messageEnd r (messageEnd r - 1) in
            (r1, [], Raised "TypeError")
      | Some lastBuffer =>
          let output :=
            if 0 <? messageEnd r
            then copy lastBuffer output1 outputIndex 0 (messageEnd r)
            else output1 in
          let r1 := if State_eqb (state r) BODY then r
                    else set_messageEnd r (messageEnd r - 1) in
          let tail :=
            if messageEnd r1 <? length lastBuffer - 1
            then Again (slice lastBuffer (messageEnd r1 + 1))
            else Done in
          (reset r1, [ontext output], tail)
      end
  end.

(** The [while] loop of the [BINARYLENGTH] state, started at index [i]:
    it returns the new [messageEnd] and the index it stops at. *)
Fixpoint scan_length (d : Buffer) (mEnd : Z) (i : Z) : Z * Z :=
  match d with
  | [] => (mEnd, i)
  | b :: d' =>
      if Z.land b 128 =? 0 then (mEnd, i)
      else scan_length d' (128 * mEnd + Z.land b 127) (i + 1)
  end.

(** The part of [doAdd] for the [EMPTY] state. [inr] is an early return. *)
Definition doAdd_empty (r : Receiver) (data : Buffer)
  : (Receiver * Buffer) + (Receiver * list Dispatch) :=
  if (length data =? 2) && get_is data 0 255 && get_is data 1 0
  then inr (reset r, [onclose])
  else if get_is data 0 128
  then inl (set_state (set_messageEnd r 0) BINARYLENGTH, slice data 1)
  else if negb (get_is data 0 0)
  then inr (error r "payload must start with 0x00 byte" true)
  else inl (set_state r BODY, slice data 1).

(** The part of [doAdd] for the [BINARYLENGTH] state. *)
Definition doAdd_length (r : Receiver) (data : Buffer) : Receiver * Buffer :=
  let '(m, i) := scan_length data (messageEnd r) 0 in
  let r1 := set_messageEnd r m in
  let '(r2, i2) :=
    if i <? length data
    then (set_state
            (set_messageEnd r1
               (128 * m + Z.land (nth (Z.to_nat i) data 0) 127))
            BINARYBODY, i + 1)
    else (r1, i) in
  (r2, if 0 <? i2 then slice data i2 else data).

(** The rest of [doAdd]: the [BINARYBODY] state, then the text body. *)
Definition doAdd_body (r : Receiver) (data : Buffer)
  : Receiver * list Dispatch * Next :=
  if State_eqb (state r) BINARYBODY then
    let dataleft := messageEnd r - spanLength r in
    if dataleft <=? length data then
      parse (set_messageEnd
               (set_spanLength (push r data) (spanLength r + dataleft))
               dataleft)
    else
      (set_spanLength (push r data) (spanLength r + length data), [], Done)
  else
    let r1 := set_messageEnd (push r data) (indexOf data 255) in
    if negb (messageEnd r1 =? -1)
    then parse (set_spanLength r1 (spanLength r1 + messageEnd r1))
    else (set_spanLength r1 (spanLength r1 + length data), [], Done).

(** The closure [doAdd] of [add], on the current value of [data]. *)
Definition doAdd (r : Receiver) (data : Buffer)
  : Receiver * list Dispatch * Next :=
  let stage1 :=
    if State_eqb (state r) EMPTY then doAdd_empty r data
    else inl (r, data) in
  match stage1 with
  | inr (r', ev) => (r', ev, Done)
  | inl (r1, data1) =>
      let '(r2, data2) :=
        if State_eqb (state r1) BINARYLENGTH then doAdd_length r1 data1
        else (r1, data1) in
      doAdd_body r2 data2
  end.

(** [while (data) data = doAdd()]: [None] when the fuel runs out. The third
    component is the exception that left [add], if any. *)
Fixpoint add_loop (fuel : nat) (r : Receiver) (data : Buffer)
  : option (Receiver * list Dispatch * option string) :=
  match fuel with
  | O => None
  | S fuel' =>
      let '(r', ev, nx) := doAdd r data in
      match nx with
      | Done => Some (r', ev, None)
      | Raised e => Some (r', ev, Some e)
      | Again tail =>
          match add_loop fuel' r' tail with
          | Some (r'', ev', x) => Some (r'', ev ++ ev', x)
          | None => None
          end
      end
  end.

(** [add (data)], with the fuel that a live receiver needs: one round to
    finish the frame it is in, then at most one per byte. *)
Definition add (r : Receiver) (data : Buffer)
  : option (Receiver * list Dispatch * option string) :=
  add_loop (2 * List.length data + 2) r data.

(** *** Vocabulary of the statements *)

(** The empty chunk in the state BINARYBODY when no byte of the frame is
    outstanding: the chunk ends the frame, and [parse] runs on the receiver
    [ended_by_empty r]. *)
Definition ended_by_empty (r : Receiver) : Receiver :=
  set_messageEnd (set_spanLength (push r []) (messageEnd r))
    (messageEnd r - spanLength r).

End ReceiverHixie.

(** ** lib/WebSocket.js

    The methods [close], [terminate], [pause], [resume], [ping], [pong],
    [send] and [stream], the private functions behind them, the handlers that
    [establishConnection] installs and the listeners of the upgrade request,
    each as a computation in the monad [M]. The W3C interface
    ([addEventListener], [onopen], ...), [bufferedAmount], [binaryType] and
    the building of the upgrade request are left out. *)

Module Endpoint.

(** *** Values *)

(** [WebSocket.CONNECTING] .. [WebSocket.CLOSED], the indices 0 to 3. *)
Inductive ReadyState := CONNECTING | OPEN | CLOSING | CLOSED.

Definition ReadyState_index (r : ReadyState) : Z :=
  match r with CONNECTING => 0 | OPEN => 1 | CLOSING => 2 | CLOSED => 3 end.

Definition rs_eqb (a b : ReadyState) : bool :=
  ReadyState_index a =? ReadyState_index b.

(** Allow 30 seconds to terminate the connection cleanly. *)
Definition closeTimeout : Z := 30 * 1000.

(** A user callback is named by a number. *)
Definition Callback := nat.

(** The [data] argument of [send], [ping] and [pong]; [DUndefined] is
    [undefined] or [null]. *)
Inductive Data :=
| DUndefined
| DString (s : string)
| DBuffer (b : Buf.Buffer)
| DReadable (id : nat).

(** [!data] *)
Definition data_falsy (d : Data) : bool :=
  match d with
  | DUndefined => true
  | DString s => if string_dec s "" then true else false
  | _ => false
  end.

(** [data instanceof ArrayBuffer || data instanceof Buffer
     || ArrayBuffer.isView(data)] *)
Definition data_is_binary (d : Data) : bool :=
  match d with DBuffer _ => true | _ => false end.

(** An options object; [None] is an [undefined] member. *)
Record Options := mkOptions {
  mask : option bool;
  binary : option bool;
  compress : option bool;
  fin : option bool
}.

Definition no_options : Options :=
  {| mask := None; binary := None; compress := None; fin := None |}.

Definition set_fin (o : Options) (b : bool) : Options :=
  {| mask := mask o; binary := binary o; compress := compress o;
     fin := Some b |}.

Definition set_mask (o : Options) (b : bool) : Options :=
  {| mask := Some b; binary := binary o; compress := compress o;
     fin := fin o |}.

Definition set_binary (o : Options) (b : bool) : Options :=
  {| mask := mask o; binary := Some b; compress := compress o;
     fin := fin o |}.

Definition set_compress (o : Options) (b : bool) : Options :=
  {| mask := mask o; binary := binary o; compress := Some b;
     fin := fin o |}.

(** The second argument of [send] and [stream]: nothing, the callback, or an
    options object. *)
Inductive OptArg :=
| OAbsent
| OFunction (cb : Callback)
| OObject (o : Options).

(** [options || {}], once [options] is known not to be a function. *)
Definition options_or_empty (o : OptArg) : Options :=
  match o with OObject x => x | _ => no_options end.

(** A value that the code only tests: [dontFailWhenClosed], [final],
    [flags.binary]. [FOther] is any truthy value that is not [true]. *)
Inductive Flag := FUndefined | FBool (b : bool) | FOther.

(** [f === true] *)
Definition is_true (f : Flag) : bool :=
  match f with FBool true => true | _ => false end.

(** [!f] *)
Definition falsy (f : Flag) : bool :=
  match f with FUndefined | FBool false => true | _ => false end.

(** The closures that [send] and [stream] push on [_queue], with the
    variables they capture. The closure holds the options object of its
    call, not a copy: [options] gives the members of the object, those it
    has when the closure is made in the queue of a state, and those it has
    when the closure is called in the statements on the replay. *)
Inductive Queued :=
| QSend (data : Data) (options : OptArg) (cb : option Callback)
| QStream (options : OptArg) (cb : option Callback).

(** [code || 1000] and [message || ''] *)
Definition code_or (c : option Z) (d : Z) : Z :=
  match c with
  | Some x => if x =? 0 then d else x
  | None => d
  end.

Definition message_or (m : option string) (d : string) : string :=
  match m with
  | Some x => if string_dec x "" then d else x
  | None => d
  end.

(** *** The endpoint *)

(** The members of a [WebSocket], and the listeners of the upgrade request
    that the client constructor keeps in its closure. [_socket], [_ultron],
    [_sender] and [_receiver] say whether the member is set; [_closeTimer] is
    the delay of the pending timeout, if one is pending; [extensions] is
    [None] for [null] and otherwise says whether permessage-deflate is in
    the map. *)
Record WebSocket := mkWebSocket {
  _socket : bool;
  _ultron : bool;
  _closeReceived : bool;
  bytesReceived : Z;
  readyState : ReadyState;
  extensions : option bool;
  _isServer : bool;
  _closeCode : option Z;
  _closeMessage : option string;
  _closeTimer : option Z;
  _sender : bool;
  _receiver : bool;
  _queue : option (list Queued);
  req_on_error : bool;
  req_once_response : bool;
  req_once_upgrade : bool
}.

(** What an operation does to the world outside the endpoint. *)
Inductive Effect :=
| Emit_open
| Emit_close (code : option Z) (message : option string)
| Emit_error (e : string)
| Emit_message (d : Data) (binary_flag : Flag)
| Emit_ping (d : Data) (binary_flag : Flag)
| Emit_pong (d : Data) (binary_flag : Flag)
| Sender_close (code : option Z) (data : option string) (masked : bool)
| Sender_ping (d : Data) (o : Options)
| Sender_pong (d : Data) (o : Options)
| Sender_send (d : Data) (o : Options) (cb : option Callback)
| Socket_end
| Socket_destroy
| Socket_pause
| Socket_resume
| Request_abort
| Receiver_add (length : Z)
| Receiver_cleanup
| PerMessageDeflate_cleanup
| RemoveAllListeners
| Readable_listen (id : nat) (o : Options) (cb : option Callback)
| Call_cb (cb : Callback) (err : option string)
| NextTick_cb (cb : Callback)
| NextTick_executeQueueSends.

Definition is_close (e : Effect) : bool :=
  match e with Emit_close _ _ => true | _ => false end.

Definition count_close (t : list Effect) : nat :=
  List.length (filter is_close t).

(** *** The monad of the operations: state, effects and exceptions *)

Inductive Outcome (A : Type) :=
| Normal (a : A)
| Thrown (e : string).

Arguments Normal {A} a.
Arguments Thrown {A} e.

Definition M (A : Type) : Type :=
  WebSocket -> Outcome A * WebSocket * list Effect.

Definition ret {A} (a : A) : M A := fun s => (Normal a, s, []).

Definition bind {A B} (m : M A) (k : A -> M B) : M B :=
  fun s =>
    match m s with
    | (Normal a, s1, t1) =>
        let '(o, s2, t2) := k a s1 in (o, s2, t1 ++ t2)
    | (Thrown e, s1, t1) => (Thrown e, s1, t1)
    end.

Definition this : M WebSocket := fun s => (Normal s, s, []).

Definition modify (f : WebSocket -> WebSocket) : M unit :=
  fun s => (Normal tt, f s, []).

Definition tell (e : Effect) : M unit := fun s => (Normal tt, s, [e]).

Definition throw {A} (e : string) : M A := fun s => (Thrown e, s, []).

(** [try { m } catch (e) { h e }] *)
Definition try_catch (m : M unit) (h : string -> M unit) : M unit :=
  fun s =>
    match m s with
    | (Normal a, s1, t1) => (Normal a, s1, t1)
    | (Thrown e, s1, t1) =>
        let '(o, s2, t2) := h e s1 in (o, s2, t1 ++ t2)
    end.

Definition when (b : bool) (m : M unit) : M unit :=
  if b then m else ret tt.

Declare Scope ws_scope.
Delimit Scope ws_scope with ws.
Notation "x <- c1 ;; c2" := (bind c1 (fun x => c2))
  (at level 61, c1 at next level, right associativity) : ws_scope.
Notation "c1 ;; c2" := (bind c1 (fun _ => c2))
  (at level 61, right associativity) : ws_scope.
Open Scope ws_scope.

Definition state_of {A} (r : Outcome A * WebSocket * list Effect) : WebSocket :=
  snd (fst r).

Definition effects_of {A} (r : Outcome A * WebSocket * list Effect)
  : list Effect := snd r.

Definition outcome_of {A} (r : Outcome A * WebSocket * list Effect)
  : Outcome A := fst (fst r).

(** *** Assignments to the members *)

Definition set_readyState (r : ReadyState) (s : WebSocket) : WebSocket :=
  {| _socket := _socket s; _ultron := _ultron s;
     _closeReceived := _closeReceived s; bytesReceived := bytesReceived s;
     readyState := r; extensions := extensions s; _isServer := _isServer s;
     _closeCode := _closeCode s; _closeMessage := _closeMessage s;
     _closeTimer := _closeTimer s; _sender := _sender s;
     _receiver := _receiver s; _queue := _queue s;
     req_on_error := req_on_error s;
     req_once_response := req_once_response s;
     req_once_upgrade := req_once_upgrade s |}.

Definition set_socket (b : bool) (s : WebSocket) : WebSocket :=
  {| _socket := b; _ultron := b;
     _closeReceived := _closeReceived s; bytesReceived := bytesReceived s;
     readyState := readyState s; extensions := extensions s;
     _isServer := _isServer s;
     _closeCode := _closeCode s; _closeMessage := _closeMessage s;
     _closeTimer := _closeTimer s; _sender := _sender s;
     _receiver := _receiver s; _queue := _queue s;
     req_on_error := req_on_error s;
     req_once_response := req_once_response s;
     req_once_upgrade := req_once_upgrade s |}.

Definition set_bytesReceived (n : Z) (s : WebSocket) : WebSocket :=
  {| _socket := _socket s; _ultron := _ultron s;
     _closeReceived := _closeReceived s; bytesReceived := n;
     readyState := readyState s; extensions := extensions s;
     _isServer := _isServer s;
     _closeCode := _closeCode s; _closeMessage := _closeMessage s;
     _closeTimer := _closeTimer s; _sender := _sender s;
     _receiver := _receiver s; _queue := _queue s;
     req_on_error := req_on_error s;
     req_once_response := req_once_response s;
     req_once_upgrade := req_once_upgrade s |}.

Definition set_closeReceived (b : bool) (s : WebSocket) : WebSocket :=
  {| _socket := _socket s; _ultron := _ultron s;
     _closeReceived := b; bytesReceived := bytesReceived s;
     readyState := readyState s; extensions := extensions s;
     _isServer := _isServer s;
     _closeCode := _closeCode s; _closeMessage := _closeMessage s;
     _closeTimer := _closeTimer s; _sender := _sender s;
     _receiver := _receiver s; _queue := _queue s;
     req_on_error := req_on_error s;
     req_once_response := req_once_response s;
     req_once_upgrade := req_once_upgrade s |}.

Definition set_extensions (x : option bool) (s : WebSocket) : WebSocket :=
  {| _socket := _socket s; _ultron := _ultron s;
     _closeReceived := _closeReceived s; bytesReceived := bytesReceived s;
     readyState := readyState s; extensions := x; _isServer := _isServer s;
     _closeCode := _closeCode s; _closeMessage := _closeMessage s;
     _closeTimer := _closeTimer s; _sender := _sender s;
     _receiver := _receiver s; _queue := _queue s;
     req_on_error := req_on_error s;
     req_once_response := req_once_response s;
     req_once_upgrade := req_once_upgrade s |}.

Definition set_closeCode (c : option Z) (s : WebSocket) : WebSocket :=
  {| _socket := _socket s; _ultron := _ultron s;
     _closeReceived := _closeReceived s; bytesReceived := bytesReceived s;
     readyState := readyState s; extensions := extensions s;
     _isServer := _isServer s;
     _closeCode := c; _closeMessage := _closeMessage s;
     _closeTimer := _closeTimer s; _sender := _sender s;
     _receiver := _receiver s; _queue := _queue s;
     req_on_error := req_on_error s;
     req_once_response := req_once_response s;
     req_once_upgrade := req_once_upgrade s |}.

Definition set_closeMessage (m : option string) (s : WebSocket) : WebSocket :=
  {| _socket := _socket s; _ultron := _ultron s;
     _closeReceived := _closeReceived s; bytesReceived := bytesReceived s;
     readyState := readyState s; extensions := extensions s;
     _isServer := _isServer s;
     _closeCode := _closeCode s; _closeMessage := m;
     _closeTimer := _closeTimer s; _sender := _sender s;
     _receiver := _receiver s; _queue := _queue s;
     req_on_error := req_on_error s;
     req_once_response := req_once_response s;
     req_once_upgrade := req_once_upgrade s |}.

Definition set_closeTimer (t : option Z) (s : WebSocket) : WebSocket :=
  {| _socket := _socket s; _ultron := _ultron s;
     _closeReceived := _closeReceived s; bytesReceived := bytesReceived s;
     readyState := readyState s; extensions := extensions s;
     _isServer := _isServer s;
     _closeCode := _closeCode s; _closeMessage := _closeMessage s;
     _closeTimer := t; _sender := _sender s;
     _receiver := _receiver s; _queue := _queue s;
     req_on_error := req_on_error s;
     req_once_response := req_once_response s;
     req_once_upgrade := req_once_upgrade s |}.

Definition set_sender (b : bool) (s : WebSocket) : WebSocket :=
  {| _socket := _socket s; _ultron := _ultron s;
     _closeReceived := _closeReceived s; bytesReceived := bytesReceived s;
     readyState := readyState s; extensions := extensions s;
     _isServer := _isServer s;
     _closeCode := _closeCode s; _closeMessage := _closeMessage s;
     _closeTimer := _closeTimer s; _sender := b;
     _receiver := _receiver s; _queue := _queue s;
     req_on_error := req_on_error s;
     req_once_response := req_once_response s;
     req_once_upgrade := req_once_upgrade s |}.

Definition set_receiver (b : bool) (s : WebSocket) : WebSocket :=
  {| _socket := _socket s; _ultron := _ultron s;
     _closeReceived := _closeReceived s; bytesReceived := bytesReceived s;
     readyState := readyState s; extensions := extensions s;
     _isServer := _isServer s;
     _closeCode := _closeCode s; _closeMessage := _closeMessage s;
     _closeTimer := _closeTimer s; _sender := _sender s;
     _receiver := b; _queue := _queue s;
     req_on_error := req_on_error s;
     req_once_response := req_once_response s;
     req_once_upgrade := req_once_upgrade s |}.

Definition set_queue (q : option (list Queued)) (s : WebSocket) : WebSocket :=
  {| _socket := _socket s; _ultron := _ultron s;
     _closeReceived := _closeReceived s; bytesReceived := bytesReceived s;
     readyState := readyState s; extensions := extensions s;
     _isServer := _isServer s;
     _closeCode := _closeCode s; _closeMessage := _closeMessage s;
     _closeTimer := _closeTimer s; _sender := _sender s;
     _receiver := _receiver s; _queue := q;
     req_on_error := req_on_error s;
     req_once_response := req_once_response s;
     req_once_upgrade := req_once_upgrade s |}.

(** The listeners of the upgrade request: [error], [response], [upgrade]. *)
Definition set_req (e r u : bool) (s : WebSocket) : WebSocket :=
  {| _socket := _socket s; _ultron := _ultron s;
     _closeReceived := _closeReceived s; bytesReceived := bytesReceived s;
     readyState := readyState s; extensions := extensions s;
     _isServer := _isServer s;
     _closeCode := _closeCode s; _closeMessage := _closeMessage s;
     _closeTimer := _closeTimer s; _sender := _sender s;
     _receiver := _receiver s; _queue := _queue s;
     req_on_error := e; req_once_response := r; req_once_upgrade := u |}.

(** *** The private functions *)

(** [this.extensions[PerMessageDeflate.extensionName]]: reading a member of
    [null] is a [TypeError]. *)
Definition permessage_deflate : M bool :=
  s <- this ;;
  match extensions s with
  | None => throw "TypeError"
  | Some b => ret b
  end.

(** [cleanupWebsocketResources (error)]. The argument is what the code tests:
    whether [error] is truthy. *)
Definition cleanupWebsocketResources (error : bool) : M unit :=
  s <- this ;;
  if rs_eqb (readyState s) CLOSED then ret tt
  else
    modify (set_readyState CLOSED) ;;
    modify (set_closeTimer None) ;;
    (* the close code must default to 1006 *)
    when (error || negb (_closeReceived s))
         (modify (set_closeCode (Some 1006))) ;;
    s1 <- this ;;
    tell (Emit_close (Some (code_or (_closeCode s1) 1000))
                     (Some (message_or (_closeMessage s1) ""))) ;;
    when (_socket s1)
         (tell (if error then Socket_destroy else Socket_end) ;;
          modify (set_socket false)) ;;
    when (_sender s1) (modify (set_sender false)) ;;
    when (_receiver s1)
         (tell Receiver_cleanup ;; modify (set_receiver false)) ;;
    deflate <- permessage_deflate ;;
    when deflate (tell PerMessageDeflate_cleanup) ;;
    modify (set_extensions None) ;;
    tell RemoveAllListeners ;;
    modify (set_queue None).

(** [startQueue (instance)] *)
Definition startQueue : M unit :=
  s <- this ;;
  match _queue s with
  | Some _ => ret tt
  | None => modify (set_queue (Some []))
  end.

(** [this._queue.push (closure)] *)
Definition queue_push (x : Queued) : M unit :=
  s <- this ;;
  match _queue s with
  | Some q => modify (set_queue (Some (q ++ [x])))
  | None => throw "TypeError"
  end.

(** [establishConnection (ReceiverClass, SenderClass, socket, upgradeHead)] *)
Definition establishConnection : M unit :=
  modify (set_receiver true) ;;
  modify (set_socket true) ;;
  modify (set_sender true) ;;
  modify (set_readyState OPEN) ;;
  tell Emit_open.

(** *** The public methods *)

(** [terminate ()]. [end_throws] says whether [this._socket.end()] throws. *)
Definition terminate (end_throws : bool) : M unit :=
  s <- this ;;
  if rs_eqb (readyState s) CLOSED then ret tt
  else if _socket s then
    modify (set_readyState CLOSING) ;;
    if end_throws then
      (* Socket error during end() call, so just destroy it right now *)
      cleanupWebsocketResources true
    else
      tell Socket_end ;;
      modify (set_closeTimer (Some closeTimeout))
  else if rs_eqb (readyState s) CONNECTING then
    cleanupWebsocketResources true
  else ret tt.

(** The callback that [close] hands to [this._sender.close]. *)
Definition close_callback (err : option string) (end_throws : bool) : M unit :=
  match err with
  | Some e => tell (Emit_error e)
  | None => ret tt
  end ;;
  s <- this ;;
  if _closeReceived s && _isServer s then terminate end_throws
  else
    (* ensure that the connection is cleaned up even when no response of
       closing handshake *)
    modify (set_closeTimer (Some closeTimeout)).

(** [close (code, data)]. [sender_throws] is the exception that
    [this._sender.close] raises, if it raises one; the Sender runs the
    callback later, see [close_callback]. *)
Definition close (code : option Z) (data : option string)
  (sender_throws : option string) (end_throws : bool) : M unit :=
  s <- this ;;
  if rs_eqb (readyState s) CLOSED then ret tt
  else if rs_eqb (readyState s) CONNECTING then
    modify (set_readyState CLOSED)
  else if rs_eqb (readyState s) CLOSING then
    when (_closeReceived s && _isServer s) (terminate end_throws)
  else
    try_catch
      (modify (set_readyState CLOSING) ;;
       modify (set_closeCode code) ;;
       modify (set_closeMessage data) ;;
       match sender_throws with
       | Some e => throw e
       | None => tell (Sender_close code data (negb (_isServer s)))
       end)
      (fun e => tell (Emit_error e)).

(** [pause ()] and [resume ()] *)
Definition pause : M unit :=
  s <- this ;;
  if negb (rs_eqb (readyState s) OPEN) then throw "not opened"
  else tell Socket_pause.

Definition resume : M unit :=
  s <- this ;;
  if negb (rs_eqb (readyState s) OPEN) then throw "not opened"
  else tell Socket_resume.

(** [if (typeof options.mask === 'undefined') options.mask = !this._isServer] *)
Definition default_mask (s : WebSocket) (o : Options) : Options :=
  match mask o with
  | None => set_mask o (negb (_isServer s))
  | Some _ => o
  end.

(** [ping (data, options, dontFailWhenClosed)] *)
Definition ping (data : Data) (options : option Options)
  (dontFailWhenClosed : Flag) : M unit :=
  s <- this ;;
  if negb (rs_eqb (readyState s) OPEN) then
    if is_true dontFailWhenClosed then ret tt
    else throw "not opened"
  else
    let options := match options with Some o => o | None => no_options end in
    tell (Sender_ping data (default_mask s options)).

(** [pong (data, options, dontFailWhenClosed)] *)
Definition pong (data : Data) (options : option Options)
  (dontFailWhenClosed : Flag) : M unit :=
  s <- this ;;
  if negb (rs_eqb (readyState s) OPEN) then
    if is_true dontFailWhenClosed then ret tt
    else throw "not opened"
  else
    let options := match options with Some o => o | None => no_options end in
    tell (Sender_pong data (default_mask s options)).

(** The defaults that [send] and [stream] give to [mask] and [compress]. *)
Definition default_compress (deflate : bool) (o : Options) : Options :=
  let o1 := match compress o with
            | None => set_compress o true
            | Some _ => o
            end in
  if negb deflate then set_compress o1 false else o1.

(** The callback that [send] hands to [sendStream]. *)
Definition send_stream_callback (cb : option Callback) (error : option string)
  : M unit :=
  tell NextTick_executeQueueSends ;;
  match cb with
  | Some f => tell (Call_cb f error)
  | None => ret tt
  end.

(** The options of a [send] call after the defaults, as handed to the
    Sender or to [sendStream]. *)
Definition send_options (s : WebSocket) (deflate : bool) (data : Data)
  (options : OptArg) : Options :=
  let o := set_fin (options_or_empty options) true in
  let o := match binary o with
           | None => set_binary o (data_is_binary data)
           | Some _ => o
           end in
  default_compress deflate (default_mask s o).

(** [send (data, options, cb)] *)
Definition send (data : Data) (options : OptArg) (cb : option Callback)
  : M unit :=
  let '(options, cb) :=
    match options with
    | OFunction f => (OObject no_options, Some f)
    | _ => (options, cb)
    end in
  s <- this ;;
  if negb (rs_eqb (readyState s) OPEN) then
    match cb with
    | Some f => tell (Call_cb f (Some "not opened"))
    | None => throw "not opened"
    end
  else
    let data := if data_falsy data then DString "" else data in
    match _queue s with
    | Some _ => queue_push (QSend data options cb)
    | None =>
        deflate <- permessage_deflate ;;
        let o := send_options s deflate data options in
        match data with
        | DReadable id =>
            startQueue ;;
            (* sendStream (this, data, options, callback) *)
            tell (Readable_listen id o cb)
        | _ => tell (Sender_send data o cb)
        end
    end.

(** The [data] and [end] listeners that [sendStream] puts on the readable;
    [cb] is the user's callback, wrapped by [send_stream_callback]. *)
Definition sendStream_data (chunk : Data) (options : Options)
  (cb : option Callback) : M unit :=
  s <- this ;;
  if negb (rs_eqb (readyState s) OPEN) then
    send_stream_callback cb (Some "not opened")
  else tell (Sender_send chunk (set_fin options false) None).

Definition sendStream_end (options : Options) (cb : option Callback)
  : M unit :=
  s <- this ;;
  if negb (rs_eqb (readyState s) OPEN) then
    send_stream_callback cb (Some "not opened")
  else
    tell (Sender_send DUndefined (set_fin options true) None) ;;
    send_stream_callback cb None.

(** [stream (options, cb)] *)
Definition stream (options : OptArg) (cb : option Callback) : M unit :=
  let '(options, cb) :=
    match options with
    | OFunction f => (OObject no_options, Some f)
    | _ => (options, cb)
    end in
  match cb with
  | None => throw "callback must be provided"
  | Some f =>
      s <- this ;;
      if negb (rs_eqb (readyState s) OPEN) then
        tell (Call_cb f (Some "not opened"))
      else
        match _queue s with
        | Some _ => queue_push (QStream options cb)
        | None =>
            deflate <- permessage_deflate ;;
            startQueue ;;
            (* process.nextTick (cb.bind (null, null, send)) *)
            tell (NextTick_cb f)
        end
  end.

(** The options that the [send] closure of [stream] works on. *)
Definition stream_options (s : WebSocket) (deflate : bool) (options : OptArg)
  : Options :=
  default_compress deflate (default_mask s (options_or_empty options)).

(** A queued closure, called. *)
Definition call_queued (x : Queued) : M unit :=
  match x with
  | QSend data options cb => send data options cb
  | QStream options cb => stream options cb
  end.

(** The loop of [executeQueueSends]: an exception leaves the loop. *)
Fixpoint call_all (q : list Queued) : M unit :=
  match q with
  | [] => ret tt
  | x :: q' => call_queued x ;; call_all q'
  end.

(** [executeQueueSends (instance)] *)
Definition executeQueueSends : M unit :=
  s <- this ;;
  match _queue s with
  | None => ret tt
  | Some queue =>
      modify (set_queue None) ;;
      call_all queue
  end.

(** The function [send (data, final)] that [stream] passes to the user's
    callback [cb]; [options] are the options of the [stream] call after the
    defaults. *)
Definition stream_send (options : Options) (cb : Callback) (data : Data)
  (final : Flag) : M unit :=
  try_catch
    (s <- this ;;
     if negb (rs_eqb (readyState s) OPEN) then throw "not opened"
     else
       tell (Sender_send data (set_fin options (is_true final)) None) ;;
       if falsy final then tell (NextTick_cb cb)
       else executeQueueSends)
    (fun e => tell (Call_cb cb (Some e))).

(** *** The handlers that [establishConnection] installs *)

(** [realHandler (data)], for a chunk of [length] bytes: packets are pushed
    straight to the receiver. *)
Definition realHandler (length : Z) : M unit :=
  s <- this ;;
  modify (set_bytesReceived (bytesReceived s + length)) ;;
  if _receiver s then tell (Receiver_add length) else throw "TypeError".

Definition receiver_ontext (data : Data) (binary_flag : Flag) : M unit :=
  tell (Emit_message data binary_flag).

Definition receiver_onbinary (data : Data) : M unit :=
  tell (Emit_message data (FBool true)).

Definition receiver_onping (data : Data) (binary_flag : Flag) : M unit :=
  s <- this ;;
  pong data
       (Some {| mask := Some (negb (_isServer s));
                binary := Some (is_true binary_flag);
                compress := None; fin := None |})
       (FBool true) ;;
  tell (Emit_ping data binary_flag).

Definition receiver_onpong (data : Data) (binary_flag : Flag) : M unit :=
  tell (Emit_pong data binary_flag).

Definition receiver_onclose (code : option Z) (data : option string)
  (sender_throws : option string) (end_throws : bool) : M unit :=
  modify (set_closeReceived true) ;;
  close code data sender_throws end_throws.

Definition receiver_onerror (error : string) (errorCode : option Z)
  (sender_throws : option string) (end_throws : bool) : M unit :=
  (* close the connection when the receiver reports a HyBi error code *)
  close errorCode (Some "") sender_throws end_throws ;;
  tell (Emit_error error).

Definition sender_onerror (error : string)
  (sender_throws : option string) (end_throws : bool) : M unit :=
  close (Some 1002) (Some "") sender_throws end_throws ;;
  tell (Emit_error error).

(** The close timer fires: the timeout is not pending any more. *)
Definition closeTimer_fires : M unit :=
  s <- this ;;
  match _closeTimer s with
  | None => ret tt
  | Some _ =>
      modify (set_closeTimer None) ;;
      cleanupWebsocketResources true
  end.

(** *** The constructor *)

(** The members as [WebSocket (address, protocols, options)] sets them;
    [readyState] is [null] until [initAsServerClient] or [initAsClient]
    makes it [CONNECTING], which both do before the constructor returns. *)
Definition new_WebSocket (isServer : bool) (deflate : bool) : WebSocket :=
  {| _socket := false; _ultron := false; _closeReceived := false;
     bytesReceived := 0; readyState := CONNECTING;
     extensions := Some deflate; _isServer := isServer;
     _closeCode := None; _closeMessage := None; _closeTimer := None;
     _sender := false; _receiver := false; _queue := None;
     req_on_error := false; req_once_response := false;
     req_once_upgrade := false |}.

(** [initAsServerClient (req, socket, upgradeHead, options)]; [deflate] says
    whether [options.extensions] holds permessage-deflate. *)
Definition initAsServerClient (deflate : bool)
  : Outcome unit * WebSocket * list Effect :=
  establishConnection (new_WebSocket true deflate).

(** [initAsClient (address, protocols, options)], for an address and a
    protocol version that it accepts: the request is sent and its three
    listeners are in place. *)
Definition initAsClient : WebSocket :=
  set_req true true true (new_WebSocket false false).

(** The listeners of the upgrade request. *)
Definition req_onerror (error : string) : M unit :=
  s <- this ;;
  if req_on_error s then
    tell (Emit_error error) ;;
    cleanupWebsocketResources true
  else ret tt.

(** [handled] is the value of [self.emit('unexpected-response', req, res)]. *)
Definition req_onresponse (handled : bool) : M unit :=
  s <- this ;;
  if req_once_response s then
    modify (set_req (req_on_error s) false (req_once_upgrade s)) ;;
    (if negb handled then
       tell Request_abort ;;
       tell (Emit_error "unexpected server response") ;;
       cleanupWebsocketResources true
     else cleanupWebsocketResources false)
  else ret tt.

(** [refused] is the error that the checks of the server's answer (key,
    subprotocol, extension parameters) end in, if one fails; [deflate] says
    whether the server accepted permessage-deflate. *)
Definition req_onupgrade (refused : option string) (deflate : bool) : M unit :=
  s <- this ;;
  if req_once_upgrade s then
    modify (set_req (req_on_error s) (req_once_response s) false) ;;
    if rs_eqb (readyState s) CLOSED then
      (* client closed before server accepted connection *)
      tell (Emit_close None None) ;;
      tell RemoveAllListeners ;;
      tell Socket_end
    else
      match refused with
      | Some e =>
          tell (Emit_error e) ;;
          tell RemoveAllListeners ;;
          tell Socket_end
      | None =>
          when deflate (modify (set_extensions (Some true))) ;;
          establishConnection ;;
          (* perform cleanup on http resources *)
          modify (set_req false false false)
      end
  else ret tt.

(** *** Runs *)

(** What can happen to an endpoint: a call by the user, a callback of the
    Sender, the Receiver, the socket, the upgrade request, a readable that is
    being sent, or the timer. *)
Inductive Event :=
| Call_close (code : option Z) (data : option string)
    (sender_throws : option string) (end_throws : bool)
| Call_terminate (end_throws : bool)
| Call_pause
| Call_resume
| Call_ping (data : Data) (options : option Options) (dontFail : Flag)
| Call_pong (data : Data) (options : option Options) (dontFail : Flag)
| Call_send (data : Data) (options : OptArg) (cb : option Callback)
| Call_stream (options : OptArg) (cb : option Callback)
| Call_stream_send (options : Options) (cb : Callback) (data : Data)
    (final : Flag)
| Readable_data (chunk : Data) (options : Options) (cb : option Callback)
| Readable_end (options : Options) (cb : option Callback)
| Tick_executeQueueSends
| Sender_close_done (err : option string) (end_throws : bool)
| Sender_error (e : string) (sender_throws : option string)
    (end_throws : bool)
| Receiver_text (data : Data) (binary_flag : Flag)
| Receiver_binary (data : Data)
| Receiver_ping (data : Data) (binary_flag : Flag)
| Receiver_pong (data : Data) (binary_flag : Flag)
| Receiver_close (code : option Z) (data : option string)
    (sender_throws : option string) (end_throws : bool)
| Receiver_error (e : string) (errorCode : option Z)
    (sender_throws : option string) (end_throws : bool)
| Socket_on_data (length : Z)
| Socket_on_end
| Socket_on_close (hadError : bool)
| Socket_on_error (e : string)
| Timer_fires
| Request_error (e : string)
| Request_response (handled : bool)
| Request_upgrade (refused : option string) (deflate : bool).

Definition handle (e : Event) : M unit :=
  match e with
  | Call_close code data st et => close code data st et
  | Call_terminate et => terminate et
  | Call_pause => pause
  | Call_resume => resume
  | Call_ping d o f => ping d o f
  | Call_pong d o f => pong d o f
  | Call_send d o cb => send d o cb
  | Call_stream o cb => stream o cb
  | Call_stream_send o cb d f => stream_send o cb d f
  | Readable_data d o cb => sendStream_data d o cb
  | Readable_end o cb => sendStream_end o cb
  | Tick_executeQueueSends => executeQueueSends
  | Sender_close_done err et => close_callback err et
  | Sender_error e st et => sender_onerror e st et
  | Receiver_text d f => receiver_ontext d f
  | Receiver_binary d => receiver_onbinary d
  | Receiver_ping d f => receiver_onping d f
  | Receiver_pong d f => receiver_onpong d f
  | Receiver_close c d st et => receiver_onclose c d st et
  | Receiver_error e c st et => receiver_onerror e c st et
  | Socket_on_data n => realHandler n
  | Socket_on_end => cleanupWebsocketResources false
  | Socket_on_close hadError => cleanupWebsocketResources hadError
  | Socket_on_error _ => cleanupWebsocketResources true
  | Timer_fires => closeTimer_fires
  | Request_error e => req_onerror e
  | Request_response h => req_onresponse h
  | Request_upgrade r d => req_onupgrade r d
  end.

(** A run: the events one after the other, each on the state that the one
    before left, an exception ending the event that raised it. *)
Fixpoint run (es : list Event) (s : WebSocket) : WebSocket * list Effect :=
  match es with
  | [] => (s, [])
  | e :: es' =>
      let '(_, s1, t1) := handle e s in
      let '(s2, t2) := run es' s1 in
      (s2, t1 ++ t2)
  end.

(** *** Vocabulary of the statements *)

(** The ['close'] events of a trace, in order. *)
Definition close_events (t : list Effect) : list Effect := filter is_close t.

(** The socket events that [establishConnection] routes to
    [cleanupWebsocketResources], with the truth value of the argument that
    the socket passes: nothing for ['end'], [hadError] for ['close'], the
    error for ['error']. *)
Definition socket_closure (e : Event) : option bool :=
  match e with
  | Socket_on_end => Some false
  | Socket_on_close hadError => Some hadError
  | Socket_on_error _ => Some true
  | _ => None
  end.

(** The callback that a [send] call supplies: the second argument when it is
    a function, the third otherwise. *)
Definition supplied_callback (options : OptArg) (cb : option Callback)
  : option Callback :=
  match options with
  | OFunction f => Some f
  | _ => cb
  end.

Definition is_upgrade (e : Event) : bool :=
  match e with Request_upgrade _ _ => true | _ => false end.

(** A call of [send] or [stream], written as the closure that would make
    it; the closure that the call pushes when the queue is installed. *)
Definition pushed (x : Queued) : Queued :=
  match x with
  | QSend data options cb =>
      let data := if data_falsy data then DString "" else data in
      match options with
      | OFunction f => QSend data (OObject no_options) (Some f)
      | _ => QSend data options cb
      end
  | QStream options cb =>
      match options with
      | OFunction f => QStream (OObject no_options) (Some f)
      | _ => QStream options cb
      end
  end.

(** A [stream] call has its callback; a [send] call needs none. *)
Definition has_callback (x : Queued) : bool :=
  match x with
  | QSend _ _ _ => true
  | QStream (OFunction _) _ => true
  | QStream _ (Some _) => true
  | QStream _ None => false
  end.

(** A call that starts a streamed message: [stream], or [send] of a
    readable. *)
Definition starts_stream (x : Queued) : bool :=
  match x with
  | QSend (DReadable _) _ _ => true
  | QSend _ _ _ => false
  | QStream _ _ => true
  end.

(** What a call does on an open endpoint without a queue: the frame that a
    plain [send] hands to the Sender, the listeners or the tick that start a
    streamed message. *)
Definition performed (s : WebSocket) (deflate : bool) (x : Queued) : Effect :=
  match pushed x with
  | QSend data options cb =>
      match data with
      | DReadable id =>
          Readable_listen id (send_options s deflate data options) cb
      | _ => Sender_send data (send_options s deflate data options) cb
      end
  | QStream _ cb =>
      NextTick_cb (match cb with Some f => f | None => O end)
  end.

(** An operation that touches nothing but [_queue] and emits no ['close']. *)
Definition queue_only (r : Outcome unit * WebSocket * list Effect)
  (s : WebSocket) : Prop :=
  (exists q, state_of r = set_queue q s) /\ close_events (effects_of r) = [].

(** The events that only work on the queue. *)
Definition queue_event (e : Event) : bool :=
  match e with
  | Call_send _ _ _ | Call_stream _ _ | Call_stream_send _ _ _ _
  | Tick_executeQueueSends => true
  | _ => false
  end.

(** What one event does, seen from the ready state:
    - CLOSED stays CLOSED, and the only ['close'] that a CLOSED endpoint
      emits is the one without a code, of the upgrade listener;
    - an endpoint past CONNECTING stays past it, and emits one ['close']
      in the step that makes it CLOSED and none in any other step;
    - the upgrade listener runs once. *)
Definition step_spec (e : Event) (s : WebSocket) : Prop :=
  let r := handle e s in
  (readyState s = CLOSED ->
   readyState (state_of r) = CLOSED /\
   close_events (effects_of r) =
     if is_upgrade e && req_once_upgrade s then [Emit_close None None]
     else []) /\
  (readyState s = OPEN \/ readyState s = CLOSING ->
   (readyState (state_of r) <> CONNECTING) /\
   (exists c m,
       close_events (effects_of r) =
         if rs_eqb (readyState (state_of r)) CLOSED
         then [Emit_close (Some c) (Some m)] else [])) /\
  req_once_upgrade (state_of r)
  = req_once_upgrade s && negb (is_upgrade e).

(** The replay of the closures [cs], first in, first out, each with the
    members that its options object has when it is called: the calls are
    performed in the order they were made; a call that starts another
    streamed message is the last one performed, and the calls behind it are
    queued again, in their order. The result is what is handed out and the
    queue that is left. *)
Fixpoint replayed (s : WebSocket) (deflate : bool) (cs : list Queued)
  : list Effect * option (list Queued) :=
  match cs with
  | [] => ([], None)
  | x :: cs' =>
      if starts_stream x
      then ([performed s deflate x], Some (map pushed cs'))
      else let '(t, q) := replayed s deflate cs' in
           (performed s deflate x :: t, q)
  end.

(** What holds of every endpoint in a run: once a close frame has been
    received the endpoint is CLOSING or CLOSED; while the upgrade listener
    waits the endpoint is CONNECTING or CLOSED; a CONNECTING endpoint has no
    socket; an OPEN or CLOSING endpoint has its socket, its Sender and its
    Receiver; [extensions] is [null] on a CLOSED endpoint only. *)
Definition consistent (s : WebSocket) : Prop :=
  (_closeReceived s = true ->
   readyState s = CLOSING \/ readyState s = CLOSED) /\
  (req_once_upgrade s = true ->
   readyState s = CONNECTING \/ readyState s = CLOSED) /\
  (readyState s = CONNECTING -> _socket s = false) /\
  (readyState s = OPEN \/ readyState s = CLOSING ->
   _socket s = true /\ _sender s = true /\ _receiver s = true) /\
  (extensions s = None -> readyState s = CLOSED).

(** The options object of a call belongs to the caller, and [send] fills it
    in place: between the moment a call is queued and the moment its closure
    is called, the members of the object may have changed, by the caller or
    by an earlier call that was handed the same object. What a closure keeps
    of its call whatever happens to the object: the data, the callback, and
    whether there is an options object. *)
Definition without_members (o : OptArg) : OptArg :=
  match o with
  | OObject _ => OObject no_options
  | _ => o
  end.

Definition closure_of (x : Queued) : Queued :=
  match pushed x with
  | QSend data options cb => QSend data (without_members options) cb
  | QStream options cb => QStream (without_members options) cb
  end.

(** What is handed out, whatever the members of the options object. *)
Definition frame_of (e : Effect) : Effect :=
  match e with
  | Sender_send d _ cb => Sender_send d no_options cb
  | Readable_listen id _ cb => Readable_listen id no_options cb
  | _ => e
  end.

(** A server endpoint on which [stream] has started a streamed message, and
    the same endpoint after [close (1000)]: the queue is installed on
    both. *)
Definition streaming_endpoint : WebSocket :=
  state_of (stream OAbsent (Some 1%nat) (state_of (initAsServerClient false))).

Definition streaming_endpoint_closing : WebSocket :=
  state_of (close (Some 1000) None None false streaming_endpoint).

(** Two [send] calls that are given one options object, which is empty when
    they are queued, and their closures as the replay finds them: the first
    call has filled the object by the time the second is called. *)
Definition shared_options_calls : list Queued :=
  [QSend (DBuffer [1]) (OObject no_options) None;
   QSend (DString "b") (OObject no_options) (Some 2%nat)].

Definition shared_options_replay : list Queued :=
  [QSend (DBuffer [1]) (OObject no_options) None;
   QSend (DString "b")
     (OObject (send_options streaming_endpoint false (DBuffer [1])
                 (OObject no_options)))
     (Some 2%nat)].

End Endpoint.

(** ** The endpoint of the first releases

    The earlier [WebSocket.js] of the repository: the connection state is a
    string, [pong] has no third argument. Only what its ['ping'] handler
    runs is embedded. *)

Module Legacy.

Import Endpoint.

Inductive State := connecting | connected | closing | disconnected.

Definition State_eqb (a b : State) : bool :=
  match a, b with
  | connecting, connecting | connected, connected
  | closing, closing | disconnected, disconnected => true
  | _, _ => false
  end.

Record WebSocket := mkWebSocket {
  _state : State;
  _isServer : bool
}.

(** [pong (data, options)]: the outcome and the calls made. *)
Definition pong (ws : WebSocket) (data : Data) (options : option Options)
  : Outcome unit * list Effect :=
  if negb (State_eqb (_state ws) connected) then (Thrown "not connected", [])
  else
    let options := match options with Some o => o | None => no_options end in
    let options := match mask options with
                   | None => set_mask options (negb (_isServer ws))
                   | Some _ => options
                   end in
    (Normal tt, [Sender_pong data options]).

(** The ['ping'] listener that [upgrade] puts on the receiver. *)
Definition receiver_on_ping (ws : WebSocket) (data : Data)
  (binary_flag : Flag) : Outcome unit * list Effect :=
  match pong ws data
             (Some {| mask := Some (negb (_isServer ws));
                      binary := Some (is_true binary_flag);
                      compress := None; fin := None |}) with
  | (Normal _, t) => (Normal tt, t ++ [Emit_ping data binary_flag])
  | (Thrown e, t) => (Thrown e, t)
  end.

End Legacy.

(** ** Streams of hixie-76 frames

    What the receiver of [lib/Receiver.hixie.js] is fed: the frames as they
    are on the wire, and a socket that hands them over in chunks. *)

Module Hixie76.

Import Buf ReceiverHixie.

(** A text frame: 00, the payload, ff. *)
Definition text_frame (payload : Buffer) : Buffer := 0 :: payload ++ [255].

Definition text_frames (payloads : list Buffer) : Buffer :=
  List.concat (map text_frame payloads).

(** A payload that a text frame can carry: no byte ff. *)
Definition no_FF (payload : Buffer) : Prop :=
  Forall (fun b => b <> 255) payload.

(** A length-prefixed frame: 80, the length in base 128, most significant
    digit first, every digit but the last with the high bit set, then the
    body. *)
Definition length_prefix (digits : list Z) (last : Z) : Buffer :=
  map (fun d => 128 + d) digits ++ [last].

Definition length_value (digits : list Z) (last : Z) : Z :=
  fold_left (fun a d => 128 * a + d) (digits ++ [last]) 0.

Definition binary_frame (digits : list Z) (last : Z) (body : Buffer)
  : Buffer :=
  128 :: length_prefix digits last ++ body.

Definition digit (d : Z) : Prop := 0 <= d < 128.

(** The calls [add (c1)], [add (c2)], ... that a socket makes for the chunks
    it reads, up to the first that throws. *)
Fixpoint add_chunks (r : Receiver) (chunks : list Buffer)
  : option (Receiver * list Dispatch * option string) :=
  match chunks with
  | [] => Some (r, [], None)
  | c :: chunks' =>
      match add r c with
      | Some (r', ev, None) =>
          match add_chunks r' chunks' with
          | Some (r'', ev', x) => Some (r'', ev ++ ev', x)
          | None => None
          end
      | other => other
      end
  end.

(** A reader of the stream, byte by byte: [pending] is the payload read so
    far of the text frame that is open, if one is; the result is what is
    pending at the end and the payloads of the frames that were closed, or
    [None] when a frame does not start with 00. *)
Fixpoint scan (pending : option Buffer) (bytes : Buffer)
  : option (option Buffer * list Buffer) :=
  match bytes with
  | [] => Some (pending, [])
  | b :: rest =>
      match pending with
      | None => if b =? 0 then scan (Some []) rest else None
      | Some acc =>
          if b =? 255 then
            match scan None rest with
            | Some (p, out) => Some (p, acc :: out)
            | None => None
            end
          else scan (Some (acc ++ [b])) rest
      end
  end.

(** The receiver while it is inside a text frame of which the bytes [acc]
    have arrived. *)
Definition in_text (r : Receiver) (acc : Buffer) : Prop :=
  state r = BODY /\ List.concat (buffers r) = acc /\
  spanLength r = length acc /\ dead r = false.

(** The receiver while it is inside a length-prefixed frame of [total] bytes
    of which the bytes [acc] have arrived. *)
Definition in_binary (r : Receiver) (total : Z) (acc : Buffer) : Prop :=
  state r = BINARYBODY /\ List.concat (buffers r) = acc /\
  spanLength r = length acc /\ messageEnd r = total /\ dead r = false.

(** The receiver between two chunks, for what [scan] has pending. *)
Definition reads (r : Receiver) (pending : option Buffer) : Prop :=
  match pending with
  | None => r = constructor
  | Some acc => in_text r acc
  end.

End Hixie76.

(** ** lib/WebSocket.js, the rest

    [buildHostHeader] and the port that [initAsClient] gives it, the W3C
    close event, the first ['data'] handler of [establishConnection] with
    the bytes that came with the upgrade, and the checks that the upgrade
    listener makes of the answer of the server; then the vocabulary of the
    statements on runs. *)

Module Client.

Import Endpoint.

(** A port as [initAsClient] has it: the string of the URL, or the number
    that it takes when the URL has none. *)
Inductive Port :=
| PortNumber (n : Z)
| PortString (s : string).

(** [port !== n] *)
Definition port_is_not (port : Port) (n : Z) : bool :=
  match port with
  | PortNumber m => negb (m =? n)
  | PortString _ => true
  end.

(** [':' + port]: a number is written in decimal. *)
Definition port_text (port : Port) : string :=
  match port with
  | PortNumber n => NilEmpty.string_of_int (Z.to_int n)
  | PortString s => s
  end.

(** [buildHostHeader (isSecure, hostname, port)]. [hostname] is [None] for
    [null]; a falsy [hostname] is returned as it is. *)
Definition buildHostHeader (isSecure : bool) (hostname : option string)
  (port : Port) : option string :=
  match hostname with
  | None => None
  | Some h =>
      if string_dec h "" then Some h
      else if (isSecure && port_is_not port 443)
              || (negb isSecure && port_is_not port 80)
      then Some (h ++ ":" ++ port_text port)%string
      else Some h
  end.

(** [serverUrl.port || (isSecure ? 443 : 80)]; [url_port] is
    [serverUrl.port], a string or [null]. *)
Definition client_port (isSecure : bool) (url_port : option string) : Port :=
  match url_port with
  | Some p => if string_dec p "" then PortNumber (if isSecure then 443 else 80)
              else PortString p
  | None => PortNumber (if isSecure then 443 else 80)
  end.

(** The [Host] header of the upgrade request, as [initAsClient] builds it
    when [options.host] is not given. *)
Definition host_header (isSecure : bool) (hostname : option string)
  (url_port : option string) : option string :=
  buildHostHeader isSecure hostname (client_port isSecure url_port).

(** The W3C [CloseEvent (code, reason, target)]. *)
Record CloseEvent := mkCloseEvent {
  wasClean : bool;
  code : option Z;
  reason : option string
}.

Definition new_CloseEvent (code : option Z) (reason : option string)
  : CloseEvent :=
  {| wasClean := match code with
                 | None => true
                 | Some c => c =? 1000
                 end;
     code := code; reason := reason |}.

(** What the listeners that [addEventListener ('close', ...)] has put in
    place are called with, for the effects of an operation: [onClose] wraps
    each ['close'] into a [CloseEvent]. *)
Definition onClose (t : list Effect) : list CloseEvent :=
  flat_map (fun e => match e with
                     | Emit_close c m => [new_CloseEvent c m]
                     | _ => []
                     end) t.

(** The variables [called] and [upgradeHead] of [establishConnection], the
    latter by its length, and which of [firstHandler] and [realHandler]
    listens to the ['data'] of the socket. *)
Record DataPath := mkDataPath {
  called : bool;
  upgradeHead : option Z;
  real_listens : bool
}.

Definition new_DataPath (upgradeHead : option Z) : DataPath :=
  {| called := false; upgradeHead := upgradeHead; real_listens := false |}.

(** [firstHandler (data)]; [data] is the length of the chunk, [None] when
    the handler is called by [process.nextTick]. *)
Definition firstHandler (dp : DataPath) (data : option Z) (s : WebSocket)
  : DataPath * (Outcome unit * WebSocket * list Effect) :=
  if called dp || rs_eqb (readyState s) CLOSED then (dp, ret tt s)
  else
    let dp1 := {| called := true; upgradeHead := upgradeHead dp;
                  real_listens := true |} in
    let with_data := match data with
                     | Some n => realHandler n
                     | None => ret tt
                     end in
    match upgradeHead dp with
    | Some n =>
        if 0 <? n then
          match realHandler n s with
          | (Normal _, s1, t1) =>
              let '(o, s2, t2) := with_data s1 in
              ({| called := true; upgradeHead := None;
                  real_listens := true |},
               (o, s2, t1 ++ t2))
          | (Thrown e, s1, t1) => (dp1, (Thrown e, s1, t1))
          end
        else (dp1, with_data s)
    | None => (dp1, with_data s)
    end.

(** What arrives: the tick that [establishConnection] schedules, or a chunk
    of the socket, by its length. *)
Inductive Input :=
| Tick
| Chunk (length : Z).

Definition input (dp : DataPath) (i : Input) (s : WebSocket)
  : DataPath * (Outcome unit * WebSocket * list Effect) :=
  match i with
  | Tick => firstHandler dp None s
  | Chunk n =>
      if real_listens dp then (dp, realHandler n s)
      else firstHandler dp (Some n) s
  end.

Fixpoint inputs (dp : DataPath) (ins : list Input) (s : WebSocket)
  : DataPath * WebSocket * list Effect :=
  match ins with
  | [] => (dp, s, [])
  | i :: ins' =>
      let '(dp1, (_, s1, t1)) := input dp i s in
      let '(dp2, s2, t2) := inputs dp1 ins' s1 in
      (dp2, s2, t1 ++ t2)
  end.

(** The lengths of the chunks among the inputs. *)
Definition chunk_lengths (ins : list Input) : list Z :=
  flat_map (fun i => match i with Chunk n => [n] | Tick => [] end) ins.

(** The length of the bytes that came with the upgrade, when there are
    some. *)
Definition head_length (upgradeHead : option Z) : list Z :=
  match upgradeHead with
  | Some n => if 0 <? n then [n] else []
  | None => []
  end.

(** *** Vocabulary of the statements on runs *)

(** A frame handed to the Sender. *)
Definition is_frame (e : Effect) : bool :=
  match e with
  | Sender_close _ _ _ | Sender_ping _ _ | Sender_pong _ _
  | Sender_send _ _ _ => true
  | _ => false
  end.

Definition frames (t : list Effect) : list Effect := filter is_frame t.

Definition is_open (e : Effect) : bool :=
  match e with Emit_open => true | _ => false end.

Definition open_events (t : list Effect) : list Effect := filter is_open t.

(** An operation that touches nothing but [_queue] and has none of the
    effects that [f] picks. *)
Definition only_queue (f : Effect -> bool)
  (r : Outcome unit * WebSocket * list Effect) (s : WebSocket) : Prop :=
  (exists q, state_of r = set_queue q s) /\ filter f (effects_of r) = [].

(** The close frame, handed to the Sender. *)
Definition is_close_frame (e : Effect) : bool :=
  match e with Sender_close _ _ _ => true | _ => false end.

(** No frame is handed to the Sender after a close frame. *)
Fixpoint close_frame_last (t : list Effect) : bool :=
  match t with
  | [] => true
  | e :: t' =>
      if is_close_frame e then forallb (fun x => negb (is_frame x)) t'
      else close_frame_last t'
  end.

(** What [send], [stream], the [send] of a stream and the replay of the
    queue never hand out: a close frame, an ['open'] event. *)
Definition never_queued (e : Effect) : bool := is_close_frame e || is_open e.

(** An endpoint as its constructor leaves it: a server endpoint, which
    [initAsServerClient] has connected, or a client whose upgrade request is
    on its way. *)
Definition fresh (s : WebSocket) : Prop :=
  (exists deflate, s = state_of (initAsServerClient deflate))
  \/ s = initAsClient.

(** An endpoint without a socket, a Sender and a Receiver. *)
Definition released (s : WebSocket) : Prop :=
  _socket s = false /\ _sender s = false /\ _receiver s = false.

(** *** The subprotocol *)

(** [s.split(/, */)]: the pieces of [s] between the commas, a comma taking
    the spaces that follow it. [skip] says that a comma has just been read,
    [cur] is the piece being read. *)
Fixpoint split_from (skip : bool) (cur : string) (s : string)
  : list string :=
  match s with
  | EmptyString => [cur]
  | String c rest =>
      if skip && Ascii.eqb c " " then split_from true cur rest
      else if Ascii.eqb c "," then cur :: split_from true "" rest
      else split_from false (cur ++ String c "")%string rest
  end.

Definition split (s : string) : list string := split_from false "" s.

(** [protocols.join(',')] *)
Definition join (protocols : list string) : string :=
  String.concat "," protocols.

(** The second argument of the constructor. *)
Inductive Protocols :=
| ProtocolsAbsent
| ProtocolsString (s : string)
| ProtocolsArray (l : list string).

(** The array that the constructor makes of it, and [options.protocol] as
    [initAsClient] sets it when the options give none. *)
Definition protocols_array (p : Protocols) : list string :=
  match p with
  | ProtocolsAbsent => []
  | ProtocolsString s => [s]
  | ProtocolsArray l => l
  end.

Definition options_protocol (p : Protocols) : string :=
  join (protocols_array p).

Definition nonempty (s : string) : bool :=
  match s with EmptyString => false | String _ _ => true end.

(** A header of the response: truthy when present and not empty. *)
Definition truthy (h : option string) : bool :=
  match h with Some s => nonempty s | None => false end.

(** [protError] of the upgrade listener, for [options.protocol] (the empty
    string when it is not set) and the [sec-websocket-protocol] header of
    the server. *)
Definition protError (protocol : string) (serverProt : option string)
  : option string :=
  let protList := split protocol in
  if negb (nonempty protocol) && truthy serverProt then
    Some "server sent a subprotocol even though none requested"
  else if nonempty protocol && negb (truthy serverProt) then
    Some "server sent no subprotocol even though requested"
  else
    match serverProt with
    | Some sp =>
        if nonempty sp && negb (existsb (String.eqb sp) protList)
        then Some "server responded with an invalid protocol"
        else None
    | None => None
    end.

(** The GUID of the protocol, which both ends append to the key. *)
Definition GUID : string := "258EAFA5-E914-47DA-95CA-C5AB0DC85B11".

(** [expectedServerKey] of [initAsClient]: the base64 SHA-1 digest of the
    key and the GUID. [sha1_base64] is
    [crypto.createHash('sha1').update(text, 'binary').digest('base64')], of
    which nothing is known here but that it is a function of the text. *)
Definition expectedServerKey (sha1_base64 : string -> string) (key : string)
  : string :=
  sha1_base64 (key ++ GUID)%string.

(** The checks of the upgrade listener, in their order: the answer to the
    key, the subprotocol, the parameters of permessage-deflate, which are
    looked at when the client offered the extension and the server took it
    ([accept_throws] says whether [perMessageDeflate.accept] throws). The
    result is the error that the listener emits, [None] when it goes on to
    [establishConnection]. *)
Definition upgrade_refusal (serverKey : option string)
  (expectedServerKey : string) (protocol : string)
  (serverProt : option string)
  (perMessageDeflate serverDeflate accept_throws : bool) : option string :=
  match serverKey with
  | None => Some "invalid server key"
  | Some k =>
      if negb (String.eqb k expectedServerKey) then Some "invalid server key"
      else
        match protError protocol serverProt with
        | Some e => Some e
        | None =>
            if perMessageDeflate && serverDeflate && accept_throws
            then Some "invalid extension parameter"
            else None
        end
  end.

(** A subprotocol that can be offered in the list: it is not empty, has no
    comma, and does not start with a space. *)
Fixpoint has_comma (s : string) : bool :=
  match s with
  | EmptyString => false
  | String c rest => Ascii.eqb c "," || has_comma rest
  end.

Definition starts_with_space (s : string) : bool :=
  match s with
  | String c _ => Ascii.eqb c " "
  | EmptyString => false
  end.

Definition offerable (p : string) : Prop :=
  nonempty p = true /\ has_comma p = false /\ starts_with_space p = false.

(** The events that end a streamed message: the [send] that [stream] hands
    to its callback, called with a [final] that is not falsy; the end of a
    readable that is being sent; the tick that replays the queue. *)
Definition ends_stream (e : Event) : bool :=
  match e with
  | Call_stream_send _ _ _ final => negb (falsy final)
  | Readable_end _ _ | Tick_executeQueueSends => true
  | _ => false
  end.

(** A data frame that is not a fragment with more to come: a message of its
    own, or the last fragment of one. *)
Definition is_message (e : Effect) : bool :=
  match e with
  | Sender_send _ o _ =>
      match fin o with
      | Some false => false
      | _ => true
      end
  | _ => false
  end.

(** The sum of the lengths. *)
Definition total (lengths : list Z) : Z := fold_right Z.add 0 lengths.

End Client.

(** ** lib/WebSocketServer.js

    The server: [handleUpgrade] with the hooks
    [verifyClient] and [handleProtocols], and [close]. A hook is given by
    the calls it makes of the callback it is handed, in their order;
    [handleProtocols] by the calls it makes before it returns and by those
    that are made after it has returned, which the server tells apart. The
    socket of a request is followed by its [writable] flag, which [destroy]
    clears. Listeners of ['headers'] leave the headers as they are. *)

Module Server.

Import Client.

(** What the server looks at in a request. [upgrade] is the header in lower
    case, [version] the number that [sec-websocket-version] converts to,
    when it is an integer. *)
Record Request := mkRequest {
  pathname : option string;
  upgrade : option string;
  sec_websocket_key : option string;
  sec_websocket_version : option Z;
  sec_websocket_protocol : option string;
  sec_websocket_origin : option string;
  origin : option string;
  offers_deflate : bool;
  secure : bool
}.

(** The [info] that [verifyClient] is given. *)
Record Info := mkInfo {
  info_secure : bool;
  info_origin : option string;
  info_req : Request
}.

(** [verifyClient]: of one parameter, it returns its answer; of two, it is
    handed a callback, which it calls with [(result, code, message)]. *)
Inductive VerifyClient :=
| VerifySync (answer : Info -> bool)
| VerifyAsync (calls : Info -> list (bool * option Z * option string)).

(** [handleProtocols (protList, callback)]: the calls of the callback, with
    [(result, protocol)]: those made before [handleProtocols] returns, and
    those made after it has returned. *)
Definition HandleProtocols :=
  list string -> list (bool * option string) * list (bool * option string).

Record ServerOptions := mkServerOptions {
  port : option Z;
  server : bool;
  noServer : bool;
  verifyClient : option VerifyClient;
  handleProtocols : option HandleProtocols;
  path : option string;
  clientTracking : bool;
  perMessageDeflate : bool;
  maxPayload : Z
}.

(** What the socket does when the server writes the handshake, what
    permessage-deflate says of the offer: whether [accept] throws, and the
    text of the parameters it has accepted; and the digest of [crypto],
    [createHash('sha1').update(text, 'binary').digest('base64')], a function
    of the text of which nothing else is known here. *)
Record World := mkWorld {
  accept_throws : bool;
  formatted : string;
  write_throws : bool;
  sha1_base64 : string -> string
}.

Inductive Header :=
| Switching_Protocols                 (* HTTP/1.1 101 Switching Protocols *)
| Upgrade_websocket
| Connection_Upgrade
| Sec_WebSocket_Accept (digest : string)
| Sec_WebSocket_Protocol (protocol : string)
| Sec_WebSocket_Extensions (extensions : string).

Inductive Effect :=
| On_error_destroy                    (* socket.on('error', errorHandler) *)
| Write_status (code : Z) (message : option string)
| Destroy
| Emit_headers (headers : list Header)
| SetTimeout_0
| SetNoDelay
| Write_handshake (headers : list Header)
| New_WebSocket (version : Z) (protocol : option string) (deflate : bool)
    (maxPayload : Z)
| Clients_add
| Remove_error_listener
| Cb_client.

(** [code || 401] *)
Definition code_or_401 (code : option Z) : Z :=
  match code with
  | Some c => if c =? 0 then 401 else c
  | None => 401
  end.

(** [abortConnection (socket, code, message)]: the effects, and the
    [writable] flag of the socket afterwards. *)
Definition abortConnection (writable : bool) (code : Z)
  (message : option string) : list Effect * bool :=
  ((if writable then [Write_status code message] else []) ++ [Destroy],
   false).

(** [shouldHandle (req)] *)
Definition shouldHandle (o : ServerOptions) (req : Request) : bool :=
  match path o with
  | Some p =>
      if nonempty p then
        match pathname req with
        | Some q => String.eqb q p
        | None => false
        end
      else true
  | None => true
  end.

(** [completeHybiUpgrade2 (protocol)] *)
Definition completeHybiUpgrade2 (o : ServerOptions) (req : Request)
  (w : World) (version : Z) (protocol : option string) (writable : bool)
  : list Effect * bool :=
  (* calc key *)
  let key :=
    sha1_base64 w
      (match sec_websocket_key req with Some k => k | None => "" end
       ++ GUID)%string in
  let headers :=
    [Switching_Protocols; Upgrade_websocket; Connection_Upgrade;
     Sec_WebSocket_Accept key]
    ++ match protocol with
       | Some p => if nonempty p then [Sec_WebSocket_Protocol p] else []
       | None => []
       end in
  let deflate := perMessageDeflate o && offers_deflate req in
  if deflate && accept_throws w then abortConnection writable 400 None
  else
    let headers :=
      headers
      ++ (if deflate then [Sec_WebSocket_Extensions (formatted w)] else []) in
    if write_throws w then
      ([Emit_headers headers; SetTimeout_0; SetNoDelay; Destroy], false)
    else
      ([Emit_headers headers; SetTimeout_0; SetNoDelay;
        Write_handshake headers;
        New_WebSocket version protocol deflate (maxPayload o)]
       ++ (if clientTracking o then [Clients_add] else [])
       ++ [Remove_error_listener; Cb_client],
       writable).

(** The callback that [handleProtocols] is handed, called with
    [(result, protocol)], for each of the calls in turn. *)
Fixpoint protocol_calls (o : ServerOptions) (req : Request) (w : World)
  (version : Z) (calls : list (bool * option string)) (writable : bool)
  : list Effect * bool :=
  match calls with
  | [] => ([], writable)
  | (result, protocol) :: calls' =>
      let '(t1, w1) :=
        if negb result then abortConnection writable 401 None
        else completeHybiUpgrade2 o req w version protocol writable in
      let '(t2, w2) := protocol_calls o req w version calls' w1 in
      (t1 ++ t2, w2)
  end.

(** [protocols && protocols.split(/, */)[0]] *)
Definition first_protocol (protocols : option string) : option string :=
  match protocols with
  | Some p => if nonempty p then Some (hd "" (split p)) else Some p
  | None => None
  end.

(** [completeHybiUpgrade1 ()]. The calls that [handleProtocols] makes
    before it returns set [callbackCalled]; the test of [callbackCalled]
    follows, and then the calls that are made later. *)
Definition completeHybiUpgrade1 (o : ServerOptions) (req : Request)
  (w : World) (version : Z) (writable : bool) : list Effect * bool :=
  let protocols := sec_websocket_protocol req in
  match handleProtocols o with
  | Some handler =>
      let protList :=
        split match protocols with Some p => p | None => "" end in
      let '(calls, late) := handler protList in
      let '(t, w1) := protocol_calls o req w version calls writable in
      let '(t1, w2) :=
        match calls with
        | [] =>
            (* the handleProtocols handler never called our callback *)
            abortConnection w1 501 (Some "Could not process protocols")
        | _ => ([], w1)
        end in
      let '(t2, w3) := protocol_calls o req w version late w2 in
      (t ++ t1 ++ t2, w3)
  | None =>
      completeHybiUpgrade2 o req w version (first_protocol protocols) writable
  end.

(** The callback that [verifyClient] is handed, called with
    [(result, code, message)], for each of the calls in turn. *)
Fixpoint verify_calls (o : ServerOptions) (req : Request) (w : World)
  (version : Z) (calls : list (bool * option Z * option string))
  (writable : bool) : list Effect * bool :=
  match calls with
  | [] => ([], writable)
  | (result, code, message) :: calls' =>
      let '(t1, w1) :=
        if negb result
        then abortConnection writable (code_or_401 code) message
        else completeHybiUpgrade1 o req w version writable in
      let '(t2, w2) := verify_calls o req w version calls' w1 in
      (t1 ++ t2, w2)
  end.

(** [handleHybiUpgrade (req, socket, upgradeHead, cb)] *)
Definition handleHybiUpgrade (o : ServerOptions) (req : Request) (w : World)
  (writable : bool) : list Effect * bool :=
  let '(t, w1) :=
    if negb (truthy (sec_websocket_key req)) then
      abortConnection writable 400 None
    else
      match sec_websocket_version req with
      | Some version =>
          if negb (version =? 8) && negb (version =? 13) then
            abortConnection writable 400 None
          else
            let info :=
              {| info_secure := secure req;
                 info_origin := if negb (version =? 13)
                                then sec_websocket_origin req
                                else origin req;
                 info_req := req |} in
            match verifyClient o with
            | Some (VerifyAsync calls) =>
                verify_calls o req w version (calls info) writable
            | Some (VerifySync answer) =>
                if negb (answer info) then abortConnection writable 401 None
                else completeHybiUpgrade1 o req w version writable
            | None => completeHybiUpgrade1 o req w version writable
            end
      | None => abortConnection writable 400 None
      end in
  (On_error_destroy :: t, w1).

(** [handleUpgrade (req, socket, head, cb)] *)
Definition handleUpgrade (o : ServerOptions) (req : Request) (w : World)
  (writable : bool) : list Effect * bool :=
  if negb (shouldHandle o req)
     || negb (truthy (upgrade req))
     || negb (match upgrade req with
              | Some u => String.eqb u "websocket"
              | None => false
              end)
  then abortConnection writable 400 None
  else handleHybiUpgrade o req w writable.

(** *** The server and its clients *)

(** The server: whether it has an HTTP server, its options, and the set
    [clients] in the order of insertion, if clients are tracked. *)
Record WebSocketServer := mkWebSocketServer {
  _server : bool;
  options : ServerOptions;
  clients : option (list Endpoint.WebSocket)
}.

(** What [close (cb)] has done when it returns or throws. *)
Record Closing := mkClosing {
  outcome : Endpoint.Outcome unit;
  after : WebSocketServer;
  of_clients :
    list (Endpoint.Outcome unit * Endpoint.WebSocket * list Endpoint.Effect);
  http_closed : bool;          (* this._server.close () *)
  ultron_destroyed : bool;     (* this._ultron.destroy () *)
  cb_called : option (option string)
}.

(** The exception that the last [client.terminate ()] that threw has
    thrown. *)
Definition last_error
  (rs : list (Endpoint.Outcome unit * Endpoint.WebSocket
              * list Endpoint.Effect)) : option string :=
  fold_left (fun error r =>
               match Endpoint.outcome_of r with
               | Endpoint.Thrown e => Some e
               | Endpoint.Normal _ => error
               end) rs None.

(** [close (cb)]. [ends_throw] says of each client, in the order of the set,
    whether [end ()] of its socket throws; [cb] whether a callback is given.
    A client that emits ['close'] is deleted from the set by the listener
    that [completeHybiUpgrade2] has put on it. *)
Definition close (cb : bool) (ends_throw : list bool) (srv : WebSocketServer)
  : Closing :=
  let rs := match clients srv with
            | Some cs =>
                map (fun ce => Endpoint.terminate (snd ce) (fst ce))
                    (combine cs ends_throw)
            | None => []
            end in
  let error := last_error rs in
  {| outcome := if cb then Endpoint.Normal tt
                else match error with
                     | Some e => Endpoint.Thrown e
                     | None => Endpoint.Normal tt
                     end;
     after :=
       {| _server := false; options := options srv;
          clients :=
            match clients srv with
            | Some _ =>
                Some (map Endpoint.state_of
                        (filter (fun r =>
                                   Nat.eqb (Endpoint.count_close
                                              (Endpoint.effects_of r)) 0)
                                rs))
            | None => None
            end |};
     of_clients := rs;
     http_closed := _server srv
                    && match port (options srv) with
                       | Some _ => true
                       | None => false
                       end;
     ultron_destroyed := _server srv;
     cb_called := if cb then Some error else None |}.

(** A client in the set of a server: an endpoint that
    [completeHybiUpgrade2] has made, after any events, that has not emitted
    ['close']: it is not CLOSED. *)
Definition tracked (c : Endpoint.WebSocket) : Prop :=
  Endpoint.readyState c <> Endpoint.CLOSED /\
  exists deflate es,
    c = fst (Endpoint.run es
               (Endpoint.state_of (Endpoint.initAsServerClient deflate))).

(** [client.terminate ()] has ended the socket and armed the timer, or,
    when [end ()] threw, has closed the endpoint with 1006. *)
Definition terminated (ce : Endpoint.WebSocket * bool)
  (r : Endpoint.Outcome unit * Endpoint.WebSocket * list Endpoint.Effect)
  : Prop :=
  Endpoint.outcome_of r = Endpoint.Normal tt /\
  if snd ce then
    Endpoint.readyState (Endpoint.state_of r) = Endpoint.CLOSED /\
    exists message,
      Endpoint.close_events (Endpoint.effects_of r)
      = [Endpoint.Emit_close (Some 1006) message]
  else
    Endpoint.effects_of r = [Endpoint.Socket_end] /\
    Endpoint.state_of r
    = Endpoint.set_closeTimer (Some Endpoint.closeTimeout)
        (Endpoint.set_readyState Endpoint.CLOSING (fst ce)).

(** *** Vocabulary of the statements *)

Definition is_client (e : Effect) : bool :=
  match e with New_WebSocket _ _ _ _ => true | _ => false end.

Definition is_cb (e : Effect) : bool :=
  match e with Cb_client => true | _ => false end.

Definition is_destroy (e : Effect) : bool :=
  match e with Destroy => true | _ => false end.

Definition is_status (e : Effect) : bool :=
  match e with Write_status _ _ => true | _ => false end.

Definition is_add (e : Effect) : bool :=
  match e with Clients_add => true | _ => false end.

(** The hooks call the callback they are handed as they are meant to: a
    [verifyClient] of two parameters once; [handleProtocols] before it
    returns, once or not at all, and never after it has returned. *)
Definition well_behaved (o : ServerOptions) : Prop :=
  (forall calls info,
      verifyClient o = Some (VerifyAsync calls) ->
      List.length (calls info) = 1%nat) /\
  (forall handler protList,
      handleProtocols o = Some handler ->
      (List.length (fst (handler protList)) <= 1)%nat /\
      snd (handler protList) = []).

(** The upgrade is completed: one client is made, for the version of the
    request, and handed to [cb] as the last thing; the socket is not
    destroyed and no status line is written. *)
Definition completed (o : ServerOptions) (req : Request) (writable : bool)
  (r : list Effect * bool) : Prop :=
  (exists version protocol,
      sec_websocket_version req = Some version /\
      (version = 8 \/ version = 13) /\
      filter is_client (fst r) =
        [New_WebSocket version protocol
           (perMessageDeflate o && offers_deflate req) (maxPayload o)]) /\
  filter is_cb (fst r) = [Cb_client] /\
  last (fst r) Destroy = Cb_client /\
  filter is_destroy (fst r) = [] /\
  filter is_status (fst r) = [] /\
  filter is_add (fst r) = (if clientTracking o then [Clients_add] else []) /\
  snd r = writable.

(** The upgrade is refused: no client is made and [cb] is not called; the
    socket is destroyed, once and as the last thing, after one status line
    at most, which is written if the socket is writable only. *)
Definition refused (writable : bool) (r : list Effect * bool) : Prop :=
  filter is_client (fst r) = [] /\
  filter is_cb (fst r) = [] /\
  filter is_destroy (fst r) = [Destroy] /\
  last (fst r) Cb_client = Destroy /\
  (List.length (filter is_status (fst r)) <= 1)%nat /\
  (writable = false -> filter is_status (fst r) = []) /\
  snd r = false.

(** *** The two ends of a handshake *)

(** The upgrade request as [initAsClient] of [lib/WebSocket.js] sends it,
    seen by the server: the key, the version, the subprotocols joined by
    commas when there are some, the offer of permessage-deflate. *)
Definition client_request (pathname : option string) (key : string)
  (version : Z) (protocols : list string) (perMessageDeflate : bool)
  (secure : bool) : Request :=
  {| pathname := pathname;
     upgrade := Some "websocket";
     sec_websocket_key := Some key;
     sec_websocket_version := Some version;
     sec_websocket_protocol :=
       if nonempty (join protocols) then Some (join protocols) else None;
     sec_websocket_origin := None;
     origin := None;
     offers_deflate := perMessageDeflate;
     secure := secure |}.

(** What the client reads in the headers of the answer: the
    [sec-websocket-accept] header, the subprotocol, whether
    permessage-deflate was taken. *)
Definition response_accept (headers : list Header) : option string :=
  match flat_map (fun h => match h with
                           | Sec_WebSocket_Accept k => [k]
                           | _ => []
                           end) headers with
  | k :: _ => Some k
  | [] => None
  end.

Definition response_protocol (headers : list Header) : option string :=
  match flat_map (fun h => match h with
                           | Sec_WebSocket_Protocol p => [p]
                           | _ => []
                           end) headers with
  | p :: _ => Some p
  | [] => None
  end.

Definition response_deflate (headers : list Header) : bool :=
  existsb (fun h => match h with
                    | Sec_WebSocket_Extensions _ => true
                    | _ => false
                    end) headers.

(** The headers of the handshake that was written. *)
Definition handshake (t : list Effect) : option (list Header) :=
  match flat_map (fun e => match e with
                           | Write_handshake headers => [headers]
                           | _ => []
                           end) t with
  | headers :: _ => Some headers
  | [] => None
  end.

(** *** A server, a handshake and a request of an old draft *)

Definition chat_server : ServerOptions :=
  {| port := Some 8080; server := false; noServer := false;
     verifyClient :=
       Some (VerifyAsync
               (fun info =>
                  [(match info_origin info with
                    | Some _ => true
                    | None => false
                    end, Some 403, Some "no origin")]));
     handleProtocols :=
       Some (fun protList =>
               (match protList with
                | p :: _ => [(true, Some p)]
                | [] => []
                end, []));
     path := Some "/chat"; clientTracking := true;
     perMessageDeflate := true; maxPayload := 1024 |}.

Definition chat_request : Request :=
  {| pathname := Some "/chat"; upgrade := Some "websocket";
     sec_websocket_key := Some "dGhlIHNhbXBsZSBub25jZQ==";
     sec_websocket_version := Some 13;
     sec_websocket_protocol := Some "chat, superchat";
     sec_websocket_origin := None;
     origin := Some "http://example.com";
     offers_deflate := false; secure := false |}.

Definition draft_7_request : Request :=
  {| pathname := Some "/chat"; upgrade := Some "websocket";
     sec_websocket_key := Some "dGhlIHNhbXBsZSBub25jZQ==";
     sec_websocket_version := Some 7;
     sec_websocket_protocol := None;
     sec_websocket_origin := Some "http://example.com";
     origin := None;
     offers_deflate := false; secure := false |}.

(** A server without hooks. *)
Definition plain_server : ServerOptions :=
  {| port := None; server := true; noServer := false;
     verifyClient := None; handleProtocols := None;
     path := None; clientTracking := true;
     perMessageDeflate := true; maxPayload := 104857600 |}.

(** A world in which nothing throws. Its digest is a stand-in: no statement
    depends on what the digest is. *)
Definition quiet_world : World :=
  {| accept_throws := false; formatted := ""; write_throws := false;
     sha1_base64 := fun text => ("sha1 " ++ text)%string |}.

(** [chat_server] with a [handleProtocols] that answers late: it takes the
    first subprotocol, in a call of the callback that it makes after it has
    returned. *)
Definition late_chat_server : ServerOptions :=
  {| port := Some 8080; server := false; noServer := false;
     verifyClient := None;
     handleProtocols :=
       Some (fun protList =>
               ([], match protList with
                    | p :: _ => [(true, Some p)]
                    | [] => []
                    end));
     path := Some "/chat"; clientTracking := true;
     perMessageDeflate := true; maxPayload := 1024 |}.

(** Two clients of [chat_server]: one as it was made, one that has sent a
    message and has been asked to close. *)
Definition chat_clients : list Endpoint.WebSocket :=
  [Endpoint.state_of (Endpoint.initAsServerClient false);
   fst (Endpoint.run
          [Endpoint.Call_send (Endpoint.DString "hello") Endpoint.OAbsent
             None;
           Endpoint.Call_close (Some 1000) None None false]
          (Endpoint.state_of (Endpoint.initAsServerClient true)))].

Definition chat_server_running : WebSocketServer :=
  {| _server := true; options := chat_server;
     clients := Some chat_clients |}.

End Server.

(** ** The life cycle of the endpoint of the first releases

    [close], [terminate], [ping], [pong], the listeners that [upgrade] puts
    on the socket and on the receiver, and the two ways to [upgrade]: the
    tick of a server endpoint, the ['upgrade'] event of the request of a
    client. [send] and [stream], which throw unless the state
    is ['connected'] as [ping] and [pong] do, are left out. *)

Module LegacyLife.

Import Legacy.

Record Connection := mkConnection {
  ws : Legacy.WebSocket;
  _socket : bool;
  _closeCode : option Z;
  _closeMessage : option string
}.

Definition Result : Type :=
  Endpoint.Outcome unit * Connection * list Endpoint.Effect.

Definition outcome_of (r : Result) : Endpoint.Outcome unit := fst (fst r).
Definition state_of (r : Result) : Connection := snd (fst r).
Definition effects_of (r : Result) : list Endpoint.Effect := snd r.

Definition state (c : Connection) : State := _state (ws c).

Definition set_state (st : State) (c : Connection) : Connection :=
  {| ws := {| _state := st; _isServer := _isServer (ws c) |};
     _socket := _socket c; _closeCode := _closeCode c;
     _closeMessage := _closeMessage c |}.

Definition set_socket (b : bool) (c : Connection) : Connection :=
  {| ws := ws c; _socket := b; _closeCode := _closeCode c;
     _closeMessage := _closeMessage c |}.

Definition set_close (code : option Z) (data : option string)
  (c : Connection) : Connection :=
  {| ws := ws c; _socket := _socket c; _closeCode := code;
     _closeMessage := data |}.

(** [new WebSocket (address, options)]: the state is ['connecting'] and
    there is no socket. *)
Definition new_WebSocket (isServer : bool) : Connection :=
  {| ws := {| _state := connecting; _isServer := isServer |};
     _socket := false; _closeCode := None; _closeMessage := None |}.

(** [terminate ()]; [end_throws] says whether [this._socket.end ()]
    throws. *)
Definition terminate (end_throws : option string) (c : Connection) : Result :=
  if _socket c then
    match end_throws with
    | Some e => (Endpoint.Thrown e, c, [])
    | None => (Endpoint.Normal tt, set_socket false c, [Endpoint.Socket_end])
    end
  else if State_eqb (state c) connecting then
    (Endpoint.Normal tt, set_state disconnected c, [])
  else (Endpoint.Normal tt, c, []).

(** [close (code, data)]; [sender_throws] is the exception that
    [this._sender.close] raises, if it raises one. *)
Definition close (code : option Z) (data : option string)
  (sender_throws end_throws : option string) (c : Connection) : Result :=
  if State_eqb (state c) closing then (Endpoint.Normal tt, c, [])
  else if State_eqb (state c) connecting then
    (Endpoint.Normal tt, set_state disconnected c, [])
  else if negb (State_eqb (state c) connected) then
    (Endpoint.Thrown "not connected", c, [])
  else
    let c1 := set_close code data (set_state closing c) in
    match sender_throws with
    | Some e => (Endpoint.Normal tt, c1, [Endpoint.Emit_error e])
    | None =>
        let frame :=
          Endpoint.Sender_close code data (negb (_isServer (ws c))) in
        match terminate end_throws c1 with
        | (Endpoint.Thrown e, c2, t) =>
            (Endpoint.Normal tt, c2, frame :: t ++ [Endpoint.Emit_error e])
        | (Endpoint.Normal _, c2, t) => (Endpoint.Normal tt, c2, frame :: t)
        end
    end.

(** [ping (data, options)] *)
Definition ping (data : Endpoint.Data) (options : option Endpoint.Options)
  (c : Connection) : Result :=
  if negb (State_eqb (state c) connected) then
    (Endpoint.Thrown "not connected", c, [])
  else
    let options := match options with
                   | Some o => o
                   | None => Endpoint.no_options
                   end in
    let options := match Endpoint.mask options with
                   | None =>
                       Endpoint.set_mask options (negb (_isServer (ws c)))
                   | Some _ => options
                   end in
    (Endpoint.Normal tt, c, [Endpoint.Sender_ping data options]).

(** A method or a listener that leaves the connection as it is. *)
Definition unchanged (c : Connection)
  (r : Endpoint.Outcome unit * list Endpoint.Effect) : Result :=
  (fst r, c, snd r).

(** The ['close'] listener of the socket. *)
Definition socket_on_close (c : Connection) : Result :=
  if State_eqb (state c) disconnected then (Endpoint.Normal tt, c, [])
  else
    (Endpoint.Normal tt, set_state disconnected c,
     [Endpoint.Emit_close
        (Some (Endpoint.code_or (_closeCode c) 1000))
        (Some (Endpoint.message_or (_closeMessage c) ""))]).

(** The ['error'] listener of the receiver; [errorCode] is [None] when it
    is [undefined]. *)
Definition receiver_on_error (reason : string) (errorCode : option Z)
  (sender_throws end_throws : option string) (c : Connection) : Result :=
  match errorCode with
  | Some code =>
      (* close the connection when the receiver reports a HyBi error code *)
      match close (Some code) (Some "") sender_throws end_throws c with
      | (Endpoint.Thrown e, c1, t) => (Endpoint.Thrown e, c1, t)
      | (Endpoint.Normal _, c1, t) =>
          (Endpoint.Normal tt, c1, t ++ [Endpoint.Emit_error reason])
      end
  | None => (Endpoint.Normal tt, c, [Endpoint.Emit_error reason])
  end.

(** [upgrade (res, socket, upgradeHead)]; [head] is the length of
    [upgradeHead], when there is one. *)
Definition upgrade (head : option Z) (c : Connection) : Result :=
  (Endpoint.Normal tt, set_state connected (set_socket true c),
   Endpoint.Emit_open
   :: match head with
      | Some n => if 0 <? n then [Endpoint.Receiver_add n] else []
      | None => []
      end).

(** The ['upgrade'] listener of the request of a client; [key_matches] says
    whether the server answered the key as expected. *)
Definition request_on_upgrade (key_matches : bool) (head : option Z)
  (c : Connection) : Result :=
  if State_eqb (state c) disconnected then
    (* client disconnected before server accepted connection *)
    (Endpoint.Normal tt, c,
     [Endpoint.Emit_close None None; Endpoint.Socket_end])
  else if negb key_matches then
    (Endpoint.Normal tt, c,
     [Endpoint.Emit_error "invalid server key"; Endpoint.Socket_end])
  else upgrade head c.

Inductive Event :=
| Call_close (code : option Z) (data : option string)
    (sender_throws end_throws : option string)
| Call_terminate (end_throws : option string)
| Call_ping (data : Endpoint.Data) (options : option Endpoint.Options)
| Call_pong (data : Endpoint.Data) (options : option Endpoint.Options)
| Socket_on_close
| Socket_on_data (length : Z)
| Receiver_text (data : Endpoint.Data) (binary_flag : Endpoint.Flag)
| Receiver_binary (data : Endpoint.Data)
| Receiver_ping (data : Endpoint.Data) (binary_flag : Endpoint.Flag)
| Receiver_close (code : option Z) (data : option string)
    (sender_throws end_throws : option string)
| Receiver_error (reason : string) (errorCode : option Z)
    (sender_throws end_throws : option string)
| Tick_upgrade (head : option Z)
| Request_upgrade (key_matches : bool) (head : option Z).

Definition handle (e : Event) (c : Connection) : Result :=
  match e with
  | Call_close code data st et => close code data st et c
  | Call_terminate et => terminate et c
  | Call_ping d o => ping d o c
  | Call_pong d o => unchanged c (pong (ws c) d o)
  | Socket_on_close => socket_on_close c
  | Socket_on_data n => (Endpoint.Normal tt, c, [Endpoint.Receiver_add n])
  | Receiver_text d f => (Endpoint.Normal tt, c, [Endpoint.Emit_message d f])
  | Receiver_binary d =>
      (Endpoint.Normal tt, c,
       [Endpoint.Emit_message d (Endpoint.FBool true)])
  | Receiver_ping d f => unchanged c (receiver_on_ping (ws c) d f)
  | Receiver_close code data st et => close code data st et c
  | Receiver_error reason errorCode st et =>
      receiver_on_error reason errorCode st et c
  | Tick_upgrade head => upgrade head c
  | Request_upgrade k head => request_on_upgrade k head c
  end.

Fixpoint run (es : list Event) (c : Connection)
  : Connection * list Endpoint.Effect :=
  match es with
  | [] => (c, [])
  | e :: es' =>
      let '(c2, t2) := run es' (state_of (handle e c)) in
      (c2, effects_of (handle e c) ++ t2)
  end.

(** *** Vocabulary of the statements *)

(** The events of the start of a connection. *)
Definition is_upgrade (e : Event) : bool :=
  match e with
  | Tick_upgrade _ | Request_upgrade _ _ => true
  | _ => false
  end.

(** The events that can call [close] with a code. *)
Definition calls_close (e : Event) : bool :=
  match e with
  | Call_close _ _ _ _ | Receiver_close _ _ _ _ => true
  | Receiver_error _ (Some _) _ _ => true
  | _ => false
  end.

(** A frame handed to the Sender. *)
Definition is_frame (e : Endpoint.Effect) : bool :=
  match e with
  | Endpoint.Sender_close _ _ _ | Endpoint.Sender_ping _ _
  | Endpoint.Sender_pong _ _ | Endpoint.Sender_send _ _ _ => true
  | _ => false
  end.

Definition is_end (e : Endpoint.Effect) : bool :=
  match e with Endpoint.Socket_end => true | _ => false end.

(** A connection after [close (code, data)]: either the state is ['closing']
    with the code and the message of the call, or the state is
    ['disconnected']. *)
Definition closed_with (code : option Z) (data : option string)
  (c : Connection) : Prop :=
  (state c = closing /\ _closeCode c = code /\ _closeMessage c = data)
  \/ state c = disconnected.

(** The calls of [socket.end ()] that a connection can still make: one
    while it has its socket. *)
Definition ends_left (c : Connection) : nat :=
  if _socket c then 1%nat else 0%nat.

(** A connection on which [close] has not been called: it is connected or
    disconnected, and has no close code. *)
Definition never_closed (c : Connection) : Prop :=
  _closeCode c = None /\ _closeMessage c = None /\
  (state c = connected \/ state c = disconnected).

End LegacyLife.

(** ** Tactics of the case analyses *)

(** The members of an endpoint, named. *)
Ltac case_state s :=
  destruct s as [sk ul cr br rs ex sv cc cm ct sd rc qu re rr ru].

(** A case analysis on the variable that blocks the evaluation. *)
Ltac break_var :=
  match goal with
  | |- context [match ?x with _ => _ end] => is_var x; destruct x
  end.

Ltac by_cases :=
  repeat first
    [ progress (cbv - [Endpoint.code_or Endpoint.message_or Z.add])
    | break_var ].

Ltac finish_step :=
  repeat match goal with
         | |- _ /\ _ => split
         | |- _ -> _ => intro
         end;
  try discriminate;
  try match goal with H : _ \/ _ |- _ => destruct H; discriminate end;
  try congruence;
  try (exists 0, ""; reflexivity);
  try (do 2 eexists; reflexivity).

(** The facts of [consistent], put to use. *)
Ltac use_facts :=
  repeat match goal with
         | H : ?a = ?b -> _, H' : ?a = ?b |- _ => specialize (H H')
         | H : ?x = ?x -> _ |- _ => specialize (H eq_refl)
         | H : ?x = ?x \/ _ -> _ |- _ => specialize (H (or_introl eq_refl))
         | H : _ \/ ?x = ?x -> _ |- _ => specialize (H (or_intror eq_refl))
         | H : _ /\ _ |- _ => destruct H
         | H : _ \/ _ |- _ => destruct H
         end;
  try discriminate; try congruence; auto.

(** * Properties of the hixie receiver *)

Module ReceiverHixieProofs.

Import Buf ReceiverHixie.

Lemma set_messageEnd_same (r : Receiver) : set_messageEnd r (messageEnd r) = r.
Proof. destruct r; reflexivity. Qed.

Lemma set_spanLength_same (r : Receiver) : set_spanLength r (spanLength r) = r.
Proof. destruct r; reflexivity. Qed.

(** One round of [doAdd] on the empty chunk, by the state it starts in. *)
Lemma doAdd_empty_chunk_EMPTY (r : Receiver) :
  state r = EMPTY ->
  doAdd r [] =
    (reset r, [onerror "payload must start with 0x00 byte" true], Done).
Proof.
  intros H. unfold doAdd, doAdd_empty. rewrite H. reflexivity.
Qed.

Lemma doAdd_empty_chunk_text (r : Receiver) :
  state r = BODY \/ state r = BINARYLENGTH ->
  doAdd r [] = (set_messageEnd (push r []) (-1), [], Done).
Proof.
  destruct r as [st bs m n d]; simpl.
  intros [H | H]; subst st; unfold doAdd, doAdd_length, doAdd_body; simpl;
    change (length []) with 0;
    unfold set_spanLength, set_messageEnd, push; simpl;
    rewrite Z.add_0_r; reflexivity.
Qed.

Lemma doAdd_empty_chunk_binary (r : Receiver) :
  state r = BINARYBODY ->
  spanLength r < messageEnd r ->
  doAdd r [] = (push r [], [], Done).
Proof.
  destruct r as [st bs m n d]; simpl.
  intros H Hlt; subst st. unfold doAdd, doAdd_body; simpl.
  change (length []) with 0.
  replace (m - n <=? 0) with false by (symmetry; apply Z.leb_gt; lia).
  unfold set_spanLength, push; simpl. rewrite Z.add_0_r. reflexivity.
Qed.

(** *** [add] returns on a live receiver *)

Lemma slice_length (b : Buffer) (i : Z) :
  (List.length (slice b i) <= List.length b)%nat.
Proof.
  unfold slice. rewrite length_skipn. lia.
Qed.

Lemma slice_1_length (b : Buffer) :
  b <> [] -> (List.length (slice b 1) < List.length b)%nat.
Proof.
  intros Hb. unfold slice. rewrite length_skipn.
  destruct b as [| x b]; [congruence |].
  unfold Buf.length. simpl List.length.
  replace (if 1 <? 0 then _ else _)
    with (Z.min 1 (Z.of_nat (S (List.length b)))) by reflexivity.
  lia.
Qed.

Lemma last_pushed (bs : list Buffer) (b : Buffer) :
  last (map Some (bs ++ [b])) None = Some b.
Proof.
  rewrite map_app. simpl. apply last_last.
Qed.

(** When [parse] returns a tail, it is a piece of the last buffer, and a
    live receiver is back in the state EMPTY. *)
Lemma parse_tail (r r' : Receiver) (ev : list Dispatch) (tail lb : Buffer) :
  last (map Some (buffers r)) None = Some lb ->
  parse r = (r', ev, Again tail) ->
  (List.length tail <= List.length lb)%nat /\
  (dead r = false -> state r' = EMPTY /\ dead r' = false).
Proof.
  intros Hl. unfold parse. destruct (alloc (spanLength r)); [| discriminate].
  destruct (copy_all_but_last (buffers r) b 0) as [o1 oi]. rewrite Hl.
  set (r1 := if State_eqb (state r) BODY then r
             else set_messageEnd r (messageEnd r - 1)).
  assert (Hd : dead r1 = dead r)
    by (unfold r1; destruct (State_eqb (state r) BODY); reflexivity).
  destruct (messageEnd r1 <? length lb - 1); [| discriminate].
  intros H. inversion H; subst. split.
  - apply slice_length.
  - intros Hlive. unfold reset. rewrite Hd, Hlive. auto.
Qed.

Lemma doAdd_body_tail (r r' : Receiver) (ev : list Dispatch)
  (data tail : Buffer) :
  doAdd_body r data = (r', ev, Again tail) ->
  (List.length tail <= List.length data)%nat /\
  (dead r = false -> state r' = EMPTY /\ dead r' = false).
Proof.
  unfold doAdd_body. destruct (State_eqb (state r) BINARYBODY).
  - destruct (messageEnd r - spanLength r <=? length data);
      [| discriminate].
    intros H. apply parse_tail with (lb := data) in H; [exact H |].
    simpl. apply last_pushed.
  - destruct (negb _); [| discriminate].
    intros H. apply parse_tail with (lb := data) in H; [exact H |].
    simpl. apply last_pushed.
Qed.

Lemma doAdd_length_shorter (r r2 : Receiver) (data data2 : Buffer) :
  doAdd_length r data = (r2, data2) ->
  (List.length data2 <= List.length data)%nat /\ dead r2 = dead r.
Proof.
  unfold doAdd_length.
  destruct (scan_length data (messageEnd r) 0) as [m i].
  destruct (i <? length data); intros H; inversion H; subst; clear H;
    (split; [| reflexivity]);
    match goal with
    | |- context [if ?c then _ else _] => destruct c
    end; try apply slice_length; lia.
Qed.

Lemma doAdd_empty_shorter (r r1 : Receiver) (data data1 : Buffer) :
  doAdd_empty r data = inl (r1, data1) ->
  (List.length data1 < List.length data)%nat /\ dead r1 = dead r.
Proof.
  unfold doAdd_empty.
  destruct (_ && _ && _); [discriminate |].
  destruct (get_is data 0 128) eqn:H128.
  - intros H. inversion H; subst. split; [| reflexivity].
    apply slice_1_length. intros ->. discriminate.
  - destruct (get_is data 0 0) eqn:H0; [| discriminate].
    intros H. inversion H; subst. split; [| reflexivity].
    apply slice_1_length. intros ->. discriminate.
Qed.

(** A round of a live receiver that asks for another one has come back to
    the state EMPTY; its tail is no longer than the chunk, and shorter when
    the round started in EMPTY. *)
Lemma doAdd_again (r r' : Receiver) (ev : list Dispatch)
  (data tail : Buffer) :
  dead r = false ->
  doAdd r data = (r', ev, Again tail) ->
  state r' = EMPTY /\ dead r' = false /\
  (List.length tail <= List.length data)%nat /\
  (state r = EMPTY -> (List.length tail < List.length data)%nat).
Proof.
  intros Hlive. unfold doAdd.
  destruct (State_eqb (state r) EMPTY) eqn:He.
  - destruct (doAdd_empty r data) as [[r1 data1] | [r1 ev1]] eqn:H1;
      [| discriminate].
    apply doAdd_empty_shorter in H1. destruct H1 as [Hlt Hd1].
    destruct (State_eqb (state r1) BINARYLENGTH).
    + destruct (doAdd_length r1 data1) as [r2 data2] eqn:H2.
      apply doAdd_length_shorter in H2. destruct H2 as [Hle Hd2].
      intros H. apply doAdd_body_tail in H. destruct H as [Ht Hs].
      destruct Hs as [Hs1 Hs2]; [congruence |].
      repeat split; auto; try intros _; lia.
    + intros H. apply doAdd_body_tail in H. destruct H as [Ht Hs].
      destruct Hs as [Hs1 Hs2]; [congruence |].
      repeat split; auto; try intros _; lia.
  - assert (Hne : state r <> EMPTY)
      by (destruct (state r); simpl in He; congruence).
    destruct (State_eqb (state r) BINARYLENGTH).
    + destruct (doAdd_length r data) as [r2 data2] eqn:H2.
      apply doAdd_length_shorter in H2. destruct H2 as [Hle Hd2].
      intros H. apply doAdd_body_tail in H. destruct H as [Ht Hs].
      destruct Hs as [Hs1 Hs2]; [congruence |].
      repeat split; auto; try (intros; congruence); lia.
    + intros H. apply doAdd_body_tail in H. destruct H as [Ht Hs].
      destruct Hs as [Hs1 Hs2]; [congruence |].
      repeat split; auto; intros; congruence.
Qed.

Lemma add_loop_returns (fuel : nat) (r : Receiver) (data : Buffer) :
  dead r = false ->
  (2 * List.length data + (if State_eqb (state r) EMPTY then 0 else 1)
   < fuel)%nat ->
  exists result, add_loop fuel r data = Some result.
Proof.
  revert r data. induction fuel as [| fuel IH]; intros r data Hlive Hf.
  - lia.
  - simpl. destruct (doAdd r data) as [[r' ev] nx] eqn:Hd.
    destruct nx as [| tail | e]; try (eexists; reflexivity).
    destruct (doAdd_again r r' ev data tail Hlive Hd)
      as (Hs & Hl & Hle & Hlt).
    destruct (IH r' tail Hl) as [[[r'' ev'] x] Hres].
    + rewrite Hs. simpl.
      destruct (State_eqb (state r) EMPTY) eqn:He.
      * assert (state r = EMPTY)
          by (destruct (state r); simpl in He; congruence).
        specialize (Hlt H). lia.
      * lia.
    + rewrite Hres. eexists. reflexivity.
Qed.

(** [add] returns on every live receiver and every chunk: the loop of
    [doAdd] comes to an end within the fuel of [add]. *)
Lemma add_returns (r : Receiver) (data : Buffer) :
  dead r = false -> exists result, add r data = Some result.
Proof.
  intros Hlive. apply add_loop_returns; [assumption |].
  destruct (State_eqb (state r) EMPTY); lia.
Qed.

(** *** The empty chunk that ends a frame of the state BINARYBODY *)

Lemma doAdd_empty_chunk_ended (r : Receiver) :
  state r = BINARYBODY ->
  messageEnd r <= spanLength r ->
  doAdd r [] = parse (ended_by_empty r).
Proof.
  destruct r as [st bs m n d]; simpl.
  intros H Hle; subst st. unfold doAdd, doAdd_body; simpl.
  change (length []) with 0.
  replace (m - n <=? 0) with true by (symmetry; apply Z.leb_le; lia).
  unfold ended_by_empty, set_spanLength, set_messageEnd, push; simpl.
  replace (n + (m - n)) with m by lia. reflexivity.
Qed.

Lemma parse_ended_negative (r : Receiver) :
  messageEnd r < 0 ->
  parse (ended_by_empty r) = (ended_by_empty r, [], Raised "RangeError").
Proof.
  intros Hm. unfold parse.
  replace (spanLength (ended_by_empty r)) with (messageEnd r) by reflexivity.
  unfold alloc. replace (messageEnd r <? 0) with true
    by (symmetry; apply Z.ltb_lt; lia).
  reflexivity.
Qed.

(** [parse] when the empty chunk has ended the frame: the text is dispatched,
    and the empty tail is handed back when [messageEnd] was below
    [spanLength]. *)
Lemma parse_ended (r : Receiver) :
  state r = BINARYBODY ->
  0 <= messageEnd r <= spanLength r ->
  exists output,
    parse (ended_by_empty r) =
      (reset (set_messageEnd (ended_by_empty r)
                (messageEnd r - spanLength r - 1)),
       [ontext output],
       if messageEnd r <? spanLength r then Again [] else Done).
Proof.
  intros Hs [H0 Hle]. unfold parse.
  replace (spanLength (ended_by_empty r)) with (messageEnd r) by reflexivity.
  unfold alloc. replace (messageEnd r <? 0) with false
    by (symmetry; apply Z.ltb_ge; lia).
  destruct (copy_all_but_last (buffers (ended_by_empty r))
              (repeat 0 (Z.to_nat (messageEnd r))) 0) as [o1 oi].
  replace (buffers (ended_by_empty r)) with (buffers r ++ [[]])
    by reflexivity.
  rewrite last_pushed.
  replace (messageEnd (ended_by_empty r)) with (messageEnd r - spanLength r)
    by reflexivity.
  replace (0 <? messageEnd r - spanLength r) with false
    by (symmetry; apply Z.ltb_ge; lia).
  replace (state (ended_by_empty r)) with (state r) by reflexivity.
  rewrite Hs. cbn [State_eqb].
  exists o1.
  replace (messageEnd
             (set_messageEnd (ended_by_empty r)
                (messageEnd r - spanLength r - 1)))
    with (messageEnd r - spanLength r - 1) by reflexivity.
  change (length []) with 0.
  destruct (messageEnd r <? spanLength r) eqn:Hlt.
  - apply Z.ltb_lt in Hlt.
    replace (messageEnd r - spanLength r - 1 <? 0 - 1) with true
      by (symmetry; apply Z.ltb_lt; lia).
    unfold slice. rewrite skipn_nil. reflexivity.
  - apply Z.ltb_ge in Hlt.
    replace (messageEnd r - spanLength r - 1 <? 0 - 1) with false
      by (symmetry; apply Z.ltb_ge; lia).
    reflexivity.
Qed.

(** The round on the empty tail, on a dead receiver: [reset] has left the
    frame where it was, and [parse] is asked for a buffer of a negative
    size. *)
Lemma doAdd_empty_tail_dead (r : Receiver) :
  state r = BINARYBODY ->
  dead r = true ->
  0 <= messageEnd r < spanLength r ->
  exists r',
    doAdd (reset (set_messageEnd (ended_by_empty r)
                    (messageEnd r - spanLength r - 1))) [] =
      (r', [], Raised "RangeError").
Proof.
  destruct r as [st bs m n d]; simpl.
  intros Hs Hd [H0 Hlt]; subst st d.
  unfold ended_by_empty, reset, doAdd, doAdd_body; simpl.
  change (length []) with 0.
  replace (m - n - 1 - m <=? 0) with true by (symmetry; apply Z.leb_le; lia).
  unfold parse; simpl. unfold alloc.
  replace (m + (m - n - 1 - m) <? 0) with true
    by (symmetry; apply Z.ltb_lt; lia).
  eexists. reflexivity.
Qed.

Lemma doAdd_empty_tail_live (r : Receiver) :
  dead r = false ->
  doAdd (reset r) [] =
    (reset r, [onerror "payload must start with 0x00 byte" true], Done).
Proof.
  intros Hd. rewrite doAdd_empty_chunk_EMPTY.
  - unfold reset. rewrite Hd. simpl. reflexivity.
  - unfold reset. rewrite Hd. reflexivity.
Qed.

(** C8, the code at the failing input: after [cleanup ()], [add] of the
    frame 00 68 69 ff still parses it. The text "hi" is dispatched to
    [ontext], and the receiver is left in the state BODY with the chunk in
    [buffers], [messageEnd] and [spanLength] at 2: [reset] does nothing on a
    dead receiver, and [add] does not look at [dead]. *)
Theorem add_after_cleanup_dispatches :
  add (cleanup constructor) [0; 104; 105; 255] =
    Some ({| state := BODY; buffers := [[104; 105; 255]]; messageEnd := 2;
             spanLength := 2; dead := true |},
          [ontext [104; 105]], None).
Proof. reflexivity. Qed.

(** C9, the claim as stated fails: on a new receiver, [add] of the empty
    chunk dispatches an error. *)
Lemma add_empty_chunk_dispatches_error :
  add constructor [] =
    Some (constructor,
          [onerror "payload must start with 0x00 byte" true], None).
Proof. reflexivity. Qed.

(** C9, as amended: what [add] does with an empty chunk, in every state of
    the receiver. In the state EMPTY it dispatches the error 'payload must
    start with 0x00 byte' and resets the parser. In the states BODY and
    BINARYLENGTH it dispatches nothing, appends the empty chunk to [buffers]
    and sets [messageEnd] to -1; [state], [spanLength] and [dead] are kept.
    In the state BINARYBODY with [spanLength] below [messageEnd] it dispatches
    nothing and appends the empty chunk to [buffers], and nothing else
    changes. In the state BINARYBODY with [messageEnd] not above [spanLength]
    the empty chunk ends the frame: with a negative [messageEnd], [add] throws
    a RangeError and dispatches nothing; otherwise it dispatches [ontext]
    once, and that is all when [messageEnd] is [spanLength]; when it is below,
    [add] goes round on the empty tail, which on a live receiver dispatches
    the error of the state EMPTY and on a dead receiver throws a RangeError.
    [onclose] is dispatched in none of these cases. *)
Theorem add_empty_chunk_by_state (r : Receiver) :
  match state r with
  | EMPTY =>
      add r [] =
        Some (reset r, [onerror "payload must start with 0x00 byte" true],
              None)
  | BODY | BINARYLENGTH =>
      add r [] = Some (set_messageEnd (push r []) (-1), [], None)
  | BINARYBODY =>
      if spanLength r <? messageEnd r then
        add r [] = Some (push r [], [], None)
      else if messageEnd r <? 0 then
        add r [] =
          Some (set_messageEnd (set_spanLength (push r []) (messageEnd r))
                  (messageEnd r - spanLength r),
                [], Some "RangeError")
      else
        exists (r' : Receiver) (output : Buffer),
          add r [] =
            Some (r',
                  ontext output
                  :: (if (messageEnd r <? spanLength r) && negb (dead r)
                      then [onerror "payload must start with 0x00 byte" true]
                      else []),
                  if (messageEnd r <? spanLength r) && dead r
                  then Some "RangeError" else None)
  end.
Proof.
  unfold add. simpl.
  destruct (state r) eqn:Hs.
  - rewrite doAdd_empty_chunk_EMPTY by assumption. reflexivity.
  - rewrite doAdd_empty_chunk_text by auto. reflexivity.
  - rewrite doAdd_empty_chunk_text by auto. reflexivity.
  - destruct (spanLength r <? messageEnd r) eqn:Hlt.
    + apply Z.ltb_lt in Hlt.
      rewrite doAdd_empty_chunk_binary by auto. reflexivity.
    + apply Z.ltb_ge in Hlt.
      rewrite (doAdd_empty_chunk_ended r Hs Hlt).
      destruct (messageEnd r <? 0) eqn:Hneg.
      * apply Z.ltb_lt in Hneg.
        rewrite (parse_ended_negative r Hneg). reflexivity.
      * apply Z.ltb_ge in Hneg.
        destruct (parse_ended r Hs (conj Hneg Hlt)) as [output Hp].
        rewrite Hp.
        destruct (messageEnd r <? spanLength r) eqn:Hlt2.
        -- apply Z.ltb_lt in Hlt2.
           destruct (dead r) eqn:Hd.
           ++ destruct (doAdd_empty_tail_dead r Hs Hd (conj Hneg Hlt2))
                as [r' Hr'].
              rewrite Hr'. exists r', output. reflexivity.
           ++ rewrite doAdd_empty_tail_live by exact Hd.
              eexists. exists output. reflexivity.
        -- eexists. exists output. reflexivity.
Qed.

End ReceiverHixieProofs.

(** * Properties of the endpoint *)

Module EndpointProofs.

Import Endpoint.

Lemma rs_eqb_eq (a b : ReadyState) : rs_eqb a b = true <-> a = b.
Proof. destruct a, b; cbv; split; congruence. Qed.

Lemma rs_eqb_neq (a b : ReadyState) : rs_eqb a b = false <-> a <> b.
Proof. destruct a, b; cbv; split; congruence. Qed.

(** [cleanupWebsocketResources] on an endpoint that is not CLOSED: the state
    is CLOSED, the timer is cleared, one ['close'] is emitted, and its code
    is 1006 when [error] is truthy or no close frame was received. *)
Lemma cleanup_closes (s : WebSocket) (error : bool) :
  readyState s <> CLOSED ->
  let r := cleanupWebsocketResources error s in
  readyState (state_of r) = CLOSED /\
  _closeTimer (state_of r) = None /\
  close_events (effects_of r) =
    [Emit_close
       (Some (if error || negb (_closeReceived s) then 1006
              else code_or (_closeCode s) 1000))
       (Some (message_or (_closeMessage s) ""))].
Proof.
  intros H. destruct s as [sk ul cr br rs ex sv cc cm ct sd rc qu re rr ru].
  simpl in H. destruct rs; try congruence;
    destruct error, cr, sk, sd, rc, ex as [[|]|]; cbv; auto.
Qed.

(** C2: when a socket event ('end', 'close' or 'error') takes an endpoint to
    CLOSED, the ['close'] event carries 1006 if the event came with an error
    or no close frame was received; otherwise, a close frame having been
    received, it carries the recorded code [_closeCode || 1000], that is
    1000 when none was recorded. *)
Theorem socket_closure_close_code (s : WebSocket) (e : Event) (error : bool) :
  socket_closure e = Some error ->
  readyState s <> CLOSED ->
  let r := handle e s in
  readyState (state_of r) = CLOSED /\
  close_events (effects_of r) =
    [Emit_close
       (Some (if error || negb (_closeReceived s) then 1006
              else match _closeCode s with
                   | Some c => if c =? 0 then 1000 else c
                   | None => 1000
                   end))
       (Some (message_or (_closeMessage s) ""))].
Proof.
  intros He Hs.
  assert (Hh : handle e = cleanupWebsocketResources error)
    by (destruct e; simpl in He; try discriminate; inversion He; reflexivity).
  rewrite Hh. destruct (cleanup_closes s error Hs) as (H1 & _ & H3).
  split; assumption.
Qed.

Lemma socket_closure_close_code_witness :
  socket_closure Socket_on_end = Some false /\
  readyState (state_of (initAsServerClient false)) <> CLOSED /\
  close_events
    (effects_of (handle Socket_on_end (state_of (initAsServerClient false))))
  = [Emit_close (Some 1006) (Some "")].
Proof.
  split; [reflexivity |]. split; [discriminate |].
  apply (socket_closure_close_code
           (state_of (initAsServerClient false)) Socket_on_end false);
    [reflexivity | discriminate].
Defined.

(** ** The close timer *)

Lemma closeTimeout_ms : closeTimeout = 30000.
Proof. reflexivity. Qed.




(** ** terminate *)

(** C4, the claim as stated fails: [terminate ()] on an open endpoint with
    its socket attached leaves it CLOSING. *)
Lemma terminate_leaves_CLOSING :
  let s := state_of (initAsServerClient false) in
  _socket s = true /\
  readyState (state_of (terminate false s)) = CLOSING.
Proof. split; reflexivity. Qed.

(** C4, as amended: on an endpoint with an attached live socket,
    [terminate ()] ends the socket at once, makes the endpoint CLOSING and
    arms the close timer of 30000 ms, and emits no ['close'] event; the
    endpoint is CLOSED when the socket then reports 'end', 'close' or 'error',
    or when the timer fires. *)
Theorem terminate_ends_socket (s : WebSocket) :
  _socket s = true ->
  readyState s <> CLOSED ->
  let r := terminate false s in
  effects_of r = [Socket_end] /\
  readyState (state_of r) = CLOSING /\
  _closeTimer (state_of r) = Some closeTimeout /\
  (forall e : Event,
      socket_closure e <> None \/ e = Timer_fires ->
      readyState (state_of (handle e (state_of r))) = CLOSED) /\
  (* [this._socket.end()] throws: destroyed right now, with 1006 *)
  (readyState (state_of (terminate true s)) = CLOSED /\
   exists message,
     close_events (effects_of (terminate true s))
     = [Emit_close (Some 1006) message]).
Proof.
  intros Hk Hs.
  destruct s as [sk ul cr br rs ex sv cc cm ct sd rc qu re rr ru].
  simpl in Hk, Hs. subst sk.
  assert (Hr : terminate false
                 (mkWebSocket true ul cr br rs ex sv cc cm ct sd rc qu re rr ru)
               = (Normal tt,
                  mkWebSocket true ul cr br CLOSING ex sv cc cm
                    (Some closeTimeout) sd rc qu re rr ru, [Socket_end])).
  { destruct rs; try congruence; reflexivity. }
  cbv zeta. rewrite Hr. repeat split.
  2: { destruct rs; try congruence;
         destruct cr, sd, rc, ex as [[|]|]; reflexivity. }
  2: { destruct rs; try congruence;
         destruct cr, sd, rc, ex as [[|]|]; eexists; reflexivity. }
  intros e [He | He].
  - destruct e; simpl in He; try congruence;
      apply cleanup_closes; discriminate.
  - subst e. simpl. unfold closeTimer_fires, bind, this, modify. simpl.
    pose proof (cleanup_closes
                  (mkWebSocket true ul cr br CLOSING ex sv cc cm None sd rc
                     qu re rr ru) true) as Hc.
    simpl in Hc.
    destruct (cleanupWebsocketResources true _) as [[o s4] t4].
    apply Hc. discriminate.
Qed.

Lemma terminate_ends_socket_witness :
  _socket (state_of (initAsServerClient false)) = true /\
  readyState (state_of (initAsServerClient false)) <> CLOSED /\
  effects_of (terminate false (state_of (initAsServerClient false)))
  = [Socket_end].
Proof.
  split; [reflexivity |]. split; [discriminate |].
  apply (terminate_ends_socket (state_of (initAsServerClient false)));
    [reflexivity | discriminate].
Defined.

(** ** Calls on an endpoint that is not OPEN *)

(** C5: while [readyState] is not OPEN, [send], [ping] and [pong] fail with
    the error 'not opened' and leave the endpoint as it was. [send] hands
    the error to its callback when it has one and throws it otherwise; [ping]
    and [pong] throw it, unless [dontFailWhenClosed === true], in which case
    they return and do nothing. *)
Theorem calls_when_not_open (s : WebSocket) (data : Data) :
  readyState s <> OPEN ->
  (forall options cb,
      send data options cb s =
        match supplied_callback options cb with
        | Some f => (Normal tt, s, [Call_cb f (Some "not opened")])
        | None => (Thrown "not opened", s, [])
        end) /\
  (forall options dontFailWhenClosed,
      ping data options dontFailWhenClosed s =
        ((if is_true dontFailWhenClosed then Normal tt
          else Thrown "not opened"), s, []) /\
      pong data options dontFailWhenClosed s =
        ((if is_true dontFailWhenClosed then Normal tt
          else Thrown "not opened"), s, [])).
Proof.
  intros Hs. apply rs_eqb_neq in Hs. split.
  - intros options cb. unfold send, supplied_callback.
    destruct options as [| f | o]; unfold bind, this; simpl; rewrite Hs;
      simpl; try destruct cb; reflexivity.
  - intros options flag. unfold ping, pong, bind, this. simpl. rewrite Hs.
    simpl. destruct (is_true flag); split; reflexivity.
Qed.

Lemma calls_when_not_open_witness :
  readyState initAsClient <> OPEN /\
  send (DString "hi") OAbsent None initAsClient
  = (Thrown "not opened", initAsClient, []).
Proof.
  split; [discriminate |].
  apply (proj1 (calls_when_not_open initAsClient (DString "hi")
                  ltac:(discriminate)) OAbsent None).
Defined.

(** ** The automatic reply to a ping *)

(** C6: when the Receiver reports a ping with payload [p] to an OPEN
    endpoint, the endpoint hands the Sender a pong with the same payload,
    masked exactly when the endpoint is not a server, and then emits 'ping'
    with that payload; nothing of the endpoint changes. The endpoint of the
    first releases does the same when it is connected. *)
Theorem ping_is_answered (s : WebSocket) (p : Data) (binary_flag : Flag) :
  readyState s = OPEN ->
  handle (Receiver_ping p binary_flag) s =
    (Normal tt, s,
     [Sender_pong p {| mask := Some (negb (_isServer s));
                       binary := Some (is_true binary_flag);
                       compress := None; fin := None |};
      Emit_ping p binary_flag]) /\
  forall isServer : bool,
    Legacy.receiver_on_ping (Legacy.mkWebSocket Legacy.connected isServer)
                            p binary_flag =
      (Normal tt,
       [Sender_pong p {| mask := Some (negb isServer);
                         binary := Some (is_true binary_flag);
                         compress := None; fin := None |};
        Emit_ping p binary_flag]).
Proof.
  intros Hs. split.
  - simpl. unfold receiver_onping, pong, bind, this. simpl.
    rewrite Hs. reflexivity.
  - intros isServer. reflexivity.
Qed.

Lemma ping_is_answered_witness :
  readyState (state_of (initAsServerClient false)) = OPEN /\
  handle (Receiver_ping (DString "Hello") FUndefined)
         (state_of (initAsServerClient false)) =
    (Normal tt, state_of (initAsServerClient false),
     [Sender_pong (DString "Hello")
        {| mask := Some false; binary := Some false;
           compress := None; fin := None |};
      Emit_ping (DString "Hello") FUndefined]).
Proof.
  split; [reflexivity |].
  apply (ping_is_answered (state_of (initAsServerClient false))
           (DString "Hello") FUndefined eq_refl).
Defined.

(** ** What a step does to the ready state and to the ['close'] events *)

Lemma close_events_app (t1 t2 : list Effect) :
  close_events (t1 ++ t2) = close_events t1 ++ close_events t2.
Proof. apply filter_app. Qed.

Lemma set_queue_set_queue (q q' : option (list Queued)) (s : WebSocket) :
  set_queue q' (set_queue q s) = set_queue q' s.
Proof. reflexivity. Qed.

Lemma queue_only_bind (m : M unit) (k : unit -> M unit) (s : WebSocket) :
  queue_only (m s) s ->
  (forall a s1, queue_only (k a s1) s1) ->
  queue_only (bind m k s) s.
Proof.
  intros [[q Hq] Ht] Hk. unfold bind.
  destruct (m s) as [[[a | e] s1] t1]; simpl in *.
  - specialize (Hk a s1). destruct (k a s1) as [[o s2] t2].
    destruct Hk as [[q2 Hq2] Ht2]. unfold state_of, effects_of in *.
    simpl in *. rewrite Hq2, Hq. split.
    + exists q2. reflexivity.
    + change (close_events (t1 ++ t2) = []).
      rewrite close_events_app, Ht, Ht2. reflexivity.
  - split; [exists q; assumption | assumption].
Qed.

Lemma send_queue_only (d : Data) (o : OptArg) (cb : option Callback)
  (s : WebSocket) : queue_only (send d o cb s) s.
Proof.
  case_state s. unfold queue_only, send.
  set (d' := if data_falsy d then DString "" else d). clearbody d'.
  destruct o as [| f | o], cb as [f' |], rs, qu as [q |], ex as [[|] |], d';
    cbv - [app]; (split; [eexists; reflexivity | reflexivity]).
Qed.

Lemma stream_queue_only (o : OptArg) (cb : option Callback) (s : WebSocket) :
  queue_only (stream o cb s) s.
Proof.
  case_state s. unfold queue_only.
  destruct o as [| f | o], cb as [f' |], rs, qu as [q |], ex as [[|] |];
    cbv - [app]; (split; [eexists; reflexivity | reflexivity]).
Qed.

Lemma call_all_queue_only (q : list Queued) (s : WebSocket) :
  queue_only (call_all q s) s.
Proof.
  revert s. induction q as [| x q IH]; intros s.
  - split; [exists (_queue s); case_state s; reflexivity | reflexivity].
  - simpl. apply queue_only_bind.
    + destruct x; [apply send_queue_only | apply stream_queue_only].
    + intros _ s1. apply IH.
Qed.

Lemma executeQueueSends_queue_only (s : WebSocket) :
  queue_only (executeQueueSends s) s.
Proof.
  unfold executeQueueSends, bind, this. simpl.
  destruct (_queue s) as [q |] eqn:Hq.
  - simpl. unfold modify.
    destruct (call_all_queue_only q (set_queue None s)) as [[q' Hq'] Ht].
    destruct (call_all q (set_queue None s)) as [[o s2] t2].
    unfold state_of, effects_of in *. simpl in *.
    split; [exists q'; rewrite Hq'; reflexivity | assumption].
  - split; [exists None; case_state s; simpl in *; subst; reflexivity
           | reflexivity].
Qed.

Lemma queue_only_try_catch (m : M unit) (h : string -> M unit)
  (s : WebSocket) :
  queue_only (m s) s ->
  (forall e s1, queue_only (h e s1) s1) ->
  queue_only (try_catch m h s) s.
Proof.
  intros [[q Hq] Ht] Hh. unfold try_catch.
  destruct (m s) as [[[a | e] s1] t1]; simpl in *.
  - split; [exists q; assumption | assumption].
  - specialize (Hh e s1). destruct (h e s1) as [[o s2] t2].
    destruct Hh as [[q2 Hq2] Ht2]. unfold state_of, effects_of in *.
    simpl in *. rewrite Hq2, Hq. split.
    + exists q2. reflexivity.
    + change (close_events (t1 ++ t2) = []).
      rewrite close_events_app, Ht, Ht2. reflexivity.
Qed.

Lemma queue_only_same (o : Outcome unit) (s : WebSocket) (t : list Effect) :
  close_events t = [] -> queue_only (o, s, t) s.
Proof.
  intros Ht. split; [exists (_queue s); case_state s; reflexivity | exact Ht].
Qed.

Lemma bind_this {A} (k : WebSocket -> M A) (s : WebSocket) :
  bind this k s = k s s.
Proof.
  unfold bind, this. destruct (k s s) as [[o s2] t2]. reflexivity.
Qed.

Lemma stream_send_queue_only (o : Options) (cb : Callback) (d : Data)
  (f : Flag) (s : WebSocket) : queue_only (stream_send o cb d f s) s.
Proof.
  unfold stream_send. apply queue_only_try_catch.
  - rewrite bind_this.
    destruct (negb (rs_eqb (readyState s) OPEN)).
    + apply queue_only_same. reflexivity.
    + apply queue_only_bind.
      * apply queue_only_same. reflexivity.
      * intros _ s1. destruct (falsy f).
        -- apply queue_only_same. reflexivity.
        -- apply executeQueueSends_queue_only.
  - intros e s1. apply queue_only_same. reflexivity.
Qed.

Lemma queue_event_queue_only (e : Event) (s : WebSocket) :
  queue_event e = true -> queue_only (handle e s) s.
Proof.
  destruct e; simpl; try discriminate; intros _.
  - apply send_queue_only.
  - apply stream_queue_only.
  - apply stream_send_queue_only.
  - apply executeQueueSends_queue_only.
Qed.

Lemma step_spec_queue (e : Event) (s : WebSocket) :
  queue_event e = true -> step_spec e s.
Proof.
  intros He. destruct (queue_event_queue_only e s He) as [[q Hq] Ht].
  assert (Hu : is_upgrade e = false) by (destruct e; simpl in *; congruence).
  unfold step_spec. cbv zeta. rewrite Hq, Ht, Hu.
  case_state s. simpl. repeat split.
  - assumption.
  - destruct H; subst rs; discriminate.
  - exists 0, "". destruct H; subst rs; reflexivity.
  - destruct ru; reflexivity.
Qed.

Lemma step_spec_other (e : Event) (s : WebSocket) :
  queue_event e = false -> step_spec e s.
Proof.
  intros He. case_state s. unfold step_spec.
  destruct e; simpl in He; try discriminate; clear He;
    destruct rs; by_cases; finish_step.
Qed.

Lemma step_spec_holds (e : Event) (s : WebSocket) : step_spec e s.
Proof.
  destruct (queue_event e) eqn:He;
    [apply step_spec_queue | apply step_spec_other]; assumption.
Qed.

Lemma run_cons (e : Event) (es : list Event) (s : WebSocket) :
  run (e :: es) s =
    (fst (run es (state_of (handle e s))),
     effects_of (handle e s) ++ snd (run es (state_of (handle e s)))).
Proof.
  simpl. destruct (handle e s) as [[o s1] t1]. simpl.
  unfold state_of, effects_of. simpl.
  destruct (run es s1) as [s2 t2]. reflexivity.
Qed.

(** CLOSED is final, and a CLOSED endpoint emits ['close'] only from the
    upgrade listener, once and without a code. *)
Lemma run_from_CLOSED (es : list Event) (s : WebSocket) :
  readyState s = CLOSED ->
  readyState (fst (run es s)) = CLOSED /\
  close_events (snd (run es s)) =
    if req_once_upgrade s && existsb is_upgrade es
    then [Emit_close None None] else [].
Proof.
  revert s. induction es as [| e es IH]; intros s Hs.
  - simpl. rewrite andb_false_r. auto.
  - rewrite run_cons. simpl fst. simpl snd.
    destruct (step_spec_holds e s) as (Hc & _ & Hu).
    destruct (Hc Hs) as [Hc1 Hc2].
    destruct (IH _ Hc1) as [IH1 IH2].
    split; [exact IH1 |].
    rewrite close_events_app, Hc2, IH2, Hu. simpl existsb.
    destruct (is_upgrade e), (req_once_upgrade s); simpl; auto.
Qed.

(** Past CONNECTING and with the upgrade listener gone, a run emits one
    ['close'] if it ends CLOSED and did not start there, and none
    otherwise. *)
Lemma run_past_CONNECTING (es : list Event) (s : WebSocket) :
  readyState s <> CONNECTING ->
  req_once_upgrade s = false ->
  readyState (fst (run es s)) <> CONNECTING /\
  req_once_upgrade (fst (run es s)) = false /\
  count_close (snd (run es s)) =
    if rs_eqb (readyState s) CLOSED then 0%nat
    else if rs_eqb (readyState (fst (run es s))) CLOSED then 1%nat
    else 0%nat.
Proof.
  revert s. induction es as [| e es IH]; intros s Hs Hu.
  - simpl. split; [assumption |]. split; [assumption |].
    destruct (readyState s); reflexivity.
  - rewrite run_cons. simpl fst. simpl snd.
    destruct (step_spec_holds e s) as (Hc & Ho & Hr).
    rewrite Hu in Hr. simpl in Hr.
    destruct (rs_eqb (readyState s) CLOSED) eqn:Hcl.
    + apply rs_eqb_eq in Hcl.
      destruct (run_from_CLOSED (e :: es) s Hcl) as [H1 H2].
      rewrite run_cons in H1, H2. simpl fst in H1. simpl snd in H2.
      split; [rewrite H1; discriminate |].
      split.
      { assert (Hcl' : readyState (state_of (handle e s)) <> CONNECTING)
          by (destruct (Hc Hcl) as [Hx _]; rewrite Hx; discriminate).
        apply (IH _ Hcl' Hr). }
      unfold count_close. fold (close_events
        (effects_of (handle e s) ++ snd (run es (state_of (handle e s))))).
      rewrite H2, Hu. reflexivity.
    + apply rs_eqb_neq in Hcl.
      assert (Hoc : readyState s = OPEN \/ readyState s = CLOSING)
        by (destruct (readyState s); auto; congruence).
      destruct (Ho Hoc) as [Hn (c & m & Ht)].
      destruct (IH _ Hn Hr) as (IH1 & IHu & IH2).
      split; [exact IH1 |]. split; [exact IHu |].
      unfold count_close in *. rewrite filter_app, length_app, IH2.
      fold (close_events (effects_of (handle e s))). rewrite Ht.
      destruct (rs_eqb (readyState (state_of (handle e s))) CLOSED) eqn:Hmid.
      * apply rs_eqb_eq in Hmid.
        destruct (run_from_CLOSED es _ Hmid) as [H1 _].
        rewrite H1. reflexivity.
      * reflexivity.
Qed.

(** ** The ['close'] event over the life of an endpoint *)

(** C1, the claim as stated fails: [close ()] on a client that is still
    CONNECTING makes it CLOSED and no ['close'] event is emitted. *)
Lemma closed_without_close_event :
  readyState (fst (run [Call_close None None None false] initAsClient))
  = CLOSED /\
  count_close (snd (run [Call_close None None None false] initAsClient))
  = 0%nat.
Proof. split; reflexivity. Qed.

(** C1, as amended: for every endpoint that has been opened (a server
    endpoint, or a client whose upgrade has completed) and every sequence of
    user operations and socket events after that, one ['close'] event has
    been emitted if the endpoint is CLOSED and none if it is not; and a
    further event emits one ['close'] if it takes the endpoint to CLOSED and
    none otherwise, so none once [readyState] is CLOSED. *)
Theorem one_close_once_open (s : WebSocket) (es : list Event) :
  readyState s = OPEN ->
  req_once_upgrade s = false ->
  let s' := fst (run es s) in
  count_close (snd (run es s))
  = (if rs_eqb (readyState s') CLOSED then 1 else 0)%nat /\
  forall e : Event,
    count_close (effects_of (handle e s'))
    = (if negb (rs_eqb (readyState s') CLOSED)
          && rs_eqb (readyState (state_of (handle e s'))) CLOSED
       then 1 else 0)%nat.
Proof.
  intros Ho Hu. cbv zeta.
  assert (Hn : readyState s <> CONNECTING) by (rewrite Ho; discriminate).
  destruct (run_past_CONNECTING es s Hn Hu) as (H1 & H2 & H3).
  rewrite Ho in H3. split; [exact H3 |].
  intros e.
  destruct (run_past_CONNECTING [e] _ H1 H2) as (_ & _ & H4).
  rewrite run_cons in H4. simpl in H4. rewrite app_nil_r in H4.
  rewrite H4. destruct (rs_eqb (readyState (fst (run es s))) CLOSED);
    reflexivity.
Qed.

Lemma one_close_once_open_witness :
  readyState (state_of (initAsServerClient false)) = OPEN /\
  req_once_upgrade (state_of (initAsServerClient false)) = false /\
  count_close
    (snd (run [Call_close (Some 1000) (Some "bye") None false;
               Sender_close_done None false;
               Receiver_close (Some 1000) (Some "bye") None false;
               Socket_on_end; Socket_on_close false; Timer_fires]
              (state_of (initAsServerClient false)))) = 1%nat.
Proof.
  split; [reflexivity |]. split; [reflexivity |].
  exact (proj1 (one_close_once_open (state_of (initAsServerClient false))
                  [Call_close (Some 1000) (Some "bye") None false;
                   Sender_close_done None false;
                   Receiver_close (Some 1000) (Some "bye") None false;
                   Socket_on_end; Socket_on_close false; Timer_fires]
                  eq_refl eq_refl)).
Defined.

(** ** close () before the connection is established *)

(** C10: [close (code, reason)] on a CONNECTING endpoint only sets
    [readyState] to CLOSED: no call of the Sender, no timer, no event. From
    then on the endpoint stays CLOSED, and over every sequence of later
    events the ['close'] events emitted are none, or, when the upgrade of the
    pending request arrives among them, the one ['close'] without a code of
    the upgrade listener. *)
Theorem close_while_CONNECTING (s : WebSocket) (code : option Z)
  (data : option string) (sender_throws : option string)
  (end_throws : bool) :
  readyState s = CONNECTING ->
  close code data sender_throws end_throws s
  = (Normal tt, set_readyState CLOSED s, []) /\
  _closeTimer (set_readyState CLOSED s) = _closeTimer s /\
  forall es : list Event,
    readyState (fst (run es (set_readyState CLOSED s))) = CLOSED /\
    close_events (snd (run es (set_readyState CLOSED s))) =
      if req_once_upgrade s && existsb is_upgrade es
      then [Emit_close None None] else [].
Proof.
  intros Hs. split; [| split].
  - unfold close. rewrite bind_this. rewrite Hs. reflexivity.
  - reflexivity.
  - intros es.
    apply (run_from_CLOSED es (set_readyState CLOSED s)). reflexivity.
Qed.

Lemma close_while_CONNECTING_witness :
  readyState initAsClient = CONNECTING /\
  close_events
    (snd (run [Request_upgrade None false]
              (state_of (close (Some 1000) None None false initAsClient))))
  = [Emit_close None None].
Proof.
  split; [reflexivity |].
  exact (proj2 (proj2 (proj2
           (close_while_CONNECTING initAsClient (Some 1000) None None false
              eq_refl)) [Request_upgrade None false])).
Defined.

(** ** The send queue *)

Lemma pushed_idempotent (x : Queued) : pushed (pushed x) = pushed x.
Proof.
  destruct x as [d o cb | o cb]; simpl.
  - destruct (data_falsy d) eqn:Hf; destruct o; simpl; try rewrite Hf;
      reflexivity.
  - destruct o; reflexivity.
Qed.

Lemma has_callback_pushed (x : Queued) :
  has_callback (pushed x) = has_callback x.
Proof. destruct x as [d o cb | o cb]; destruct o; reflexivity. Qed.

Lemma starts_stream_pushed (x : Queued) :
  starts_stream (pushed x) = starts_stream x.
Proof.
  destruct x as [d o cb | o cb]; destruct o; simpl; try reflexivity;
    destruct d; simpl; try reflexivity;
    destruct (string_dec s ""); reflexivity.
Qed.

Lemma performed_pushed (s : WebSocket) (deflate : bool) (x : Queued) :
  performed s deflate (pushed x) = performed s deflate x.
Proof. unfold performed. rewrite pushed_idempotent. reflexivity. Qed.

Lemma performed_set_queue (s : WebSocket) (deflate : bool)
  (q : option (list Queued)) (x : Queued) :
  performed (set_queue q s) deflate x = performed s deflate x.
Proof. reflexivity. Qed.

Lemma replayed_set_queue (s : WebSocket) (deflate : bool)
  (q : option (list Queued)) (cs : list Queued) :
  replayed (set_queue q s) deflate cs = replayed s deflate cs.
Proof. induction cs as [| x cs IH]; simpl; [| rewrite IH]; reflexivity. Qed.

(** With the queue installed on an open endpoint, a call is pushed and
    nothing else happens. *)
Lemma call_is_pushed (x : Queued) (s : WebSocket) (q0 : list Queued) :
  readyState s = OPEN ->
  _queue s = Some q0 ->
  has_callback x = true ->
  call_queued x s = (Normal tt, set_queue (Some (q0 ++ [pushed x])) s, []).
Proof.
  case_state s. simpl. intros Hs Hq Hc. subst rs qu.
  destruct x as [d o cb | o cb]; simpl.
  - unfold send. set (d' := if data_falsy d then DString "" else d).
    clearbody d'. destruct o; reflexivity.
  - destruct o, cb; try discriminate; reflexivity.
Qed.

Lemma calls_are_pushed (cs : list Queued) (s : WebSocket)
  (q0 : list Queued) :
  readyState s = OPEN ->
  _queue s = Some q0 ->
  forallb has_callback cs = true ->
  call_all cs s = (Normal tt, set_queue (Some (q0 ++ map pushed cs)) s, []).
Proof.
  revert s q0. induction cs as [| x cs IH]; intros s q0 Hs Hq Hc.
  - simpl. rewrite app_nil_r. case_state s. simpl in *. subst. reflexivity.
  - simpl in Hc. apply andb_prop in Hc. destruct Hc as [Hx Hc].
    simpl. unfold bind. rewrite (call_is_pushed x s q0 Hs Hq Hx).
    rewrite (IH (set_queue (Some (q0 ++ [pushed x])) s) (q0 ++ [pushed x]));
      [| case_state s; exact Hs | case_state s; reflexivity | exact Hc].
    rewrite set_queue_set_queue, <- app_assoc. reflexivity.
Qed.

(** Without a queue, a call is performed; it installs the queue when it
    starts a streamed message. *)
Lemma normal_call_is_performed (y : Queued) (s : WebSocket) (deflate : bool) :
  pushed y = y ->
  readyState s = OPEN ->
  extensions s = Some deflate ->
  _queue s = None ->
  has_callback y = true ->
  call_queued y s =
    (Normal tt,
     (if starts_stream y then set_queue (Some []) s else s),
     [performed s deflate y]).
Proof.
  case_state s. simpl. intros Hy Hs He Hq Hc. subst rs ex qu.
  destruct y as [d o cb | o cb].
  - unfold performed. rewrite Hy. simpl in Hy.
    assert (Hd : (if data_falsy d then DString "" else d) = d)
      by (destruct o; congruence).
    simpl call_queued. unfold send. rewrite Hd.
    destruct o; [| discriminate |]; destruct d; reflexivity.
  - unfold performed. rewrite Hy.
    destruct o, cb; try discriminate; reflexivity.
Qed.

Lemma call_is_performed (x : Queued) (s : WebSocket) (deflate : bool) :
  readyState s = OPEN ->
  extensions s = Some deflate ->
  _queue s = None ->
  has_callback x = true ->
  call_queued (pushed x) s =
    (Normal tt,
     (if starts_stream x then set_queue (Some []) s else s),
     [performed s deflate x]).
Proof.
  intros Hs He Hq Hc.
  rewrite (normal_call_is_performed (pushed x) s deflate);
    try assumption.
  - rewrite starts_stream_pushed, performed_pushed. reflexivity.
  - apply pushed_idempotent.
  - rewrite has_callback_pushed. assumption.
Qed.

Lemma map_pushed_idempotent (cs : list Queued) :
  map pushed (map pushed cs) = map pushed cs.
Proof.
  rewrite map_map. apply map_ext. intros x. apply pushed_idempotent.
Qed.

Lemma forallb_has_callback_pushed (cs : list Queued) :
  forallb has_callback (map pushed cs) = forallb has_callback cs.
Proof.
  induction cs as [| x cs IH]; simpl;
    [| rewrite has_callback_pushed, IH]; reflexivity.
Qed.

(** The loop of [executeQueueSends] on the queued calls. *)
Lemma call_all_replays (cs : list Queued) (s : WebSocket) (deflate : bool) :
  readyState s = OPEN ->
  extensions s = Some deflate ->
  _queue s = None ->
  forallb has_callback cs = true ->
  call_all (map pushed cs) s =
    (Normal tt, set_queue (snd (replayed s deflate cs)) s,
     fst (replayed s deflate cs)).
Proof.
  induction cs as [| x cs IH]; intros Hs He Hq Hc.
  - simpl. case_state s. simpl in *. subst. reflexivity.
  - simpl in Hc. apply andb_prop in Hc. destruct Hc as [Hx Hc].
    simpl map. simpl call_all. unfold bind.
    rewrite (call_is_performed x s deflate Hs He Hq Hx). simpl replayed.
    destruct (starts_stream x).
    + rewrite (calls_are_pushed (map pushed cs) (set_queue (Some []) s) []).
      * rewrite map_pushed_idempotent. reflexivity.
      * case_state s. exact Hs.
      * reflexivity.
      * rewrite forallb_has_callback_pushed. exact Hc.
    + rewrite (IH Hs He Hq Hc).
      destruct (replayed s deflate cs) as [t q]. reflexivity.
Qed.

Lemma closure_of_pushed (x : Queued) : closure_of (pushed x) = closure_of x.
Proof. unfold closure_of. rewrite pushed_idempotent. reflexivity. Qed.

Lemma closure_of_has_callback (x y : Queued) :
  closure_of x = closure_of y -> has_callback x = has_callback y.
Proof.
  rewrite <- (has_callback_pushed x), <- (has_callback_pushed y).
  unfold closure_of.
  destruct (pushed x) as [d o cb | o cb], (pushed y) as [d' o' cb' | o' cb'];
    try discriminate; try reflexivity.
  destruct o, o'; try discriminate; cbn; intros H; injection H as <-;
    try reflexivity; congruence.
Qed.

Lemma closure_of_starts_stream (x y : Queued) :
  closure_of x = closure_of y -> starts_stream x = starts_stream y.
Proof.
  rewrite <- (starts_stream_pushed x), <- (starts_stream_pushed y).
  unfold closure_of.
  destruct (pushed x) as [d o cb | o cb], (pushed y) as [d' o' cb' | o' cb'];
    try discriminate; try reflexivity.
  cbn. intros H. injection H as <- _ _. reflexivity.
Qed.

Lemma closure_of_performed (s : WebSocket) (deflate : bool) (x y : Queued) :
  closure_of x = closure_of y ->
  frame_of (performed s deflate x) = frame_of (performed s deflate y).
Proof.
  unfold closure_of, performed.
  destruct (pushed x) as [d o cb | o cb], (pushed y) as [d' o' cb' | o' cb'];
    try discriminate.
  - intros H. injection H as <- _ <-. destruct d; reflexivity.
  - intros H. injection H as _ <-. reflexivity.
Qed.

Lemma map_closure_of_pushed (cs : list Queued) :
  map closure_of (map pushed cs) = map closure_of cs.
Proof.
  rewrite map_map. apply map_ext. intros x. apply closure_of_pushed.
Qed.

(** The replay of two queues that hold the same calls, the members of the
    options objects apart: the same is handed out, in the same order, and
    the same calls are queued again. *)
Lemma replayed_same_calls (s : WebSocket) (deflate : bool)
  (q q' : list Queued) :
  map closure_of q = map closure_of q' ->
  map frame_of (fst (replayed s deflate q))
  = map frame_of (fst (replayed s deflate q')) /\
  option_map (map closure_of) (snd (replayed s deflate q))
  = option_map (map closure_of) (snd (replayed s deflate q')).
Proof.
  revert q'. induction q as [| x q IH]; intros [| y q'] H;
    try discriminate H; [split; reflexivity |].
  cbn [map] in H. injection H as Hx Hq.
  cbn [replayed]. rewrite (closure_of_starts_stream x y Hx).
  destruct (starts_stream y).
  - cbn [fst snd map option_map].
    rewrite (closure_of_performed s deflate x y Hx), !map_closure_of_pushed,
      Hq.
    split; reflexivity.
  - destruct (IH q' Hq) as [H1 H2].
    destruct (replayed s deflate q) as [t1 q1],
             (replayed s deflate q') as [t2 q2].
    cbn [fst snd map] in *.
    rewrite (closure_of_performed s deflate x y Hx), H1, H2.
    split; reflexivity.
Qed.

Lemma forallb_has_callback_same (q q' : list Queued) :
  map closure_of q = map closure_of q' ->
  forallb has_callback q = forallb has_callback q'.
Proof.
  revert q'. induction q as [| x q IH]; intros [| y q'] H;
    try discriminate H; [reflexivity |].
  cbn [map] in H. injection H as Hx Hq. cbn [forallb].
  rewrite (closure_of_has_callback x y Hx), (IH q' Hq). reflexivity.
Qed.

(** [executeQueueSends] on an open endpoint whose queue holds the closures
    [q]. *)
Lemma executeQueueSends_replays (s : WebSocket) (deflate : bool)
  (q : list Queued) :
  readyState s = OPEN ->
  extensions s = Some deflate ->
  map pushed q = q ->
  forallb has_callback q = true ->
  executeQueueSends (set_queue (Some q) s) =
    (Normal tt, set_queue (snd (replayed s deflate q)) s,
     fst (replayed s deflate q)).
Proof.
  intros Hs He Hq Hc.
  unfold executeQueueSends. rewrite bind_this.
  replace (_queue (set_queue (Some q) s)) with (Some q)
    by (case_state s; reflexivity).
  unfold bind, modify. rewrite <- Hq at 1.
  rewrite (call_all_replays q (set_queue None (set_queue (Some q) s)) deflate);
    [| case_state s; exact Hs | case_state s; exact He
     | case_state s; reflexivity | exact Hc].
  rewrite ?replayed_set_queue, ?set_queue_set_queue. reflexivity.
Qed.

(** C7, the claim as stated fails: the queue is installed, and a call is
    neither appended to it nor transmitted. On an endpoint that [close] has
    made CLOSING while a streamed message was in progress, [send] hands
    'not opened' to its callback and the queue is as it was; and on the
    open endpoint, [stream] without a callback throws. *)
Lemma call_with_queue_installed_is_not_queued :
  _queue streaming_endpoint_closing = Some [] /\
  handle (Call_send (DString "a") OAbsent (Some 2%nat))
    streaming_endpoint_closing
  = (Normal tt, streaming_endpoint_closing,
     [Call_cb 2%nat (Some "not opened")]) /\
  _queue streaming_endpoint = Some [] /\
  handle (Call_stream OAbsent None) streaming_endpoint
  = (Thrown "callback must be provided", streaming_endpoint, []).
Proof.
  split; [| split; [| split]]; vm_compute; reflexivity.
Qed.

(** C7, as amended. Let the send queue be installed on an endpoint that is
    OPEN, holding the calls [cs0], and let the calls [cs] be made, each a
    [send] or a [stream] with its callback. Every call of [cs] is appended to
    the queue, and nothing is handed to the Sender. Let [q] be the queue when
    the streamed message ends: the closures of [cs0] and [cs] in the order of
    the calls, the members of their options objects being what they are by
    then ([send] fills the object of its caller in place).

    - When a readable that is being sent ends, the last, empty fragment is
      handed to the Sender, the replay is scheduled by [process.nextTick],
      and the callback of the [send], if there is one, is called; the queue
      is still installed. The tick then replays the queue.
    - A [send (data, final)] of [stream] with a [final] that is not falsy
      hands its fragment to the Sender and replays the queue at once.

    The replay removes the queue and calls the closures of [q] first in,
    first out: each [send] hands its frame to the Sender, in the order of the
    calls; the first call that starts another streamed message ([stream], or
    [send] of a readable) installs the queue again, and the calls behind it
    are appended to it, in their order. The data, the callbacks and the order
    of what is handed out and of what is queued again are those of the calls
    [cs0] and [cs], whatever has become of the options objects. *)
Theorem queue_is_replayed_first_in_first_out (s : WebSocket) (deflate : bool)
  (cs0 cs : list Queued) :
  readyState s = OPEN ->
  extensions s = Some deflate ->
  _queue s = Some (map pushed cs0) ->
  forallb has_callback (cs0 ++ cs) = true ->
  call_all cs s
  = (Normal tt, set_queue (Some (map pushed (cs0 ++ cs))) s, []) /\
  forall q : list Queued,
    map closure_of q = map closure_of (cs0 ++ cs) ->
    map pushed q = q ->
    let s1 := set_queue (Some q) s in
    let handed := fst (replayed s deflate q) in
    let left := snd (replayed s deflate q) in
    (forall (o : Options) (cb : option Callback),
        handle (Readable_end o cb) s1 =
          (Normal tt, s1,
           Sender_send DUndefined (set_fin o true) None
           :: NextTick_executeQueueSends
           :: match cb with
              | Some f => [Call_cb f None]
              | None => []
              end)) /\
    handle Tick_executeQueueSends s1 = (Normal tt, set_queue left s, handed) /\
    (forall (o : Options) (cb : Callback) (d : Data) (final : Flag),
        falsy final = false ->
        handle (Call_stream_send o cb d final) s1 =
          (Normal tt, set_queue left s,
           Sender_send d (set_fin o (is_true final)) None :: handed)) /\
    map frame_of handed
    = map frame_of (fst (replayed s deflate (cs0 ++ cs))) /\
    option_map (map closure_of) left
    = option_map (map closure_of) (snd (replayed s deflate (cs0 ++ cs))).
Proof.
  intros Hs He Hq Hc.
  assert (Hc' := Hc). rewrite forallb_app in Hc'.
  apply andb_prop in Hc'. destruct Hc' as [_ Hcs].
  split.
  - rewrite (calls_are_pushed cs s (map pushed cs0) Hs Hq Hcs).
    rewrite map_app. reflexivity.
  - intros q Hsame Hnorm. cbv zeta.
    assert (Hcq : forallb has_callback q = true)
      by (rewrite (forallb_has_callback_same q (cs0 ++ cs) Hsame); exact Hc).
    pose proof (executeQueueSends_replays s deflate q Hs He Hnorm Hcq)
      as Hexec.
    assert (Ho : readyState (set_queue (Some q) s) = OPEN)
      by (case_state s; exact Hs).
    split; [| split; [| split]].
    + intros o cb. cbn [handle]. unfold sendStream_end. rewrite bind_this, Ho.
      destruct cb; reflexivity.
    + exact Hexec.
    + intros o cb d final Hf. cbn [handle].
      unfold stream_send, try_catch. rewrite bind_this, Ho.
      change (negb (rs_eqb OPEN OPEN)) with false. cbv iota.
      rewrite Hf. unfold bind, tell. rewrite Hexec. reflexivity.
    + apply replayed_same_calls. exact Hsame.
Qed.

Lemma queue_is_replayed_first_in_first_out_witness :
  readyState streaming_endpoint = OPEN /\
  extensions streaming_endpoint = Some false /\
  _queue streaming_endpoint = Some (map pushed []) /\
  forallb has_callback ([] ++ shared_options_calls) = true /\
  map closure_of shared_options_replay
  = map closure_of ([] ++ shared_options_calls) /\
  map pushed shared_options_replay = shared_options_replay /\
  handle Tick_executeQueueSends
    (set_queue (Some shared_options_replay) streaming_endpoint)
  = (Normal tt,
     set_queue (snd (replayed streaming_endpoint false shared_options_replay))
       streaming_endpoint,
     fst (replayed streaming_endpoint false shared_options_replay)) /\
  fst (replayed streaming_endpoint false shared_options_replay)
  = [Sender_send (DBuffer [1])
       {| mask := Some false; binary := Some true; compress := Some false;
          fin := Some true |} None;
     Sender_send (DString "b")
       {| mask := Some false; binary := Some true; compress := Some false;
          fin := Some true |} (Some 2%nat)].
Proof.
  split; [reflexivity |]. split; [reflexivity |]. split; [reflexivity |].
  split; [reflexivity |]. split; [reflexivity |]. split; [reflexivity |].
  split; [| reflexivity].
  exact (proj1 (proj2
           (proj2 (queue_is_replayed_first_in_first_out streaming_endpoint
                     false [] shared_options_calls
                     eq_refl eq_refl eq_refl eq_refl)
              shared_options_replay eq_refl eq_refl))).
Defined.

(** ** An OPEN endpoint has received no close frame *)

Lemma consistent_step (e : Event) (s : WebSocket) :
  consistent s -> consistent (state_of (handle e s)).
Proof.
  unfold consistent. destruct (queue_event e) eqn:He.
  - destruct (queue_event_queue_only e s He) as [[q Hq] _]. rewrite Hq.
    case_state s. simpl. auto.
  - case_state s. simpl.
    intros (H1 & H2 & H3 & H4 & H5).
    destruct e; simpl in He; try discriminate; clear He;
      destruct rs; by_cases; repeat split; intros; use_facts.
Qed.

Lemma consistent_run (es : list Event) (s : WebSocket) :
  consistent s -> consistent (fst (run es s)).
Proof.
  revert s. induction es as [| e es IH]; intros s Hs.
  - exact Hs.
  - rewrite run_cons. simpl. apply IH. apply consistent_step. exact Hs.
Qed.

(** In every run of a server endpoint or of a client, an endpoint that is
    OPEN has received no close frame, and its upgrade listener is gone. *)
Lemma open_has_no_close_frame (es : list Event) (s0 : WebSocket) :
  (exists deflate, s0 = state_of (initAsServerClient deflate))
  \/ s0 = initAsClient ->
  readyState (fst (run es s0)) = OPEN ->
  _closeReceived (fst (run es s0)) = false /\
  req_once_upgrade (fst (run es s0)) = false.
Proof.
  intros H0 Ho.
  assert (Hinv : consistent s0)
    by (destruct H0 as [[d H0] | H0]; subst s0; cbv;
        repeat split; intros; use_facts).
  apply (consistent_run es) in Hinv. destruct Hinv as (H1 & H2 & _).
  split.
  - destruct (_closeReceived (fst (run es s0))); [| reflexivity].
    destruct (H1 eq_refl) as [H | H]; congruence.
  - destruct (req_once_upgrade (fst (run es s0))); [| reflexivity].
    destruct (H2 eq_refl) as [H | H]; congruence.
Qed.

End EndpointProofs.

(** * Frames through the hixie receiver *)

Module Hixie76Proofs.

Import Buf ReceiverHixie Hixie76.

(** ** Copies into the output buffer of [parse] *)

Lemma length_nat (b : Buffer) : Z.to_nat (length b) = List.length b.
Proof. unfold length. apply Nat2Z.id. Qed.

Lemma copy_at (src pre z : Buffer) (k : Z) :
  0 <= k <= length src ->
  k <= length z ->
  copy src (pre ++ z) (length pre) 0 k =
    pre ++ firstn (Z.to_nat k) src ++ skipn (Z.to_nat k) z.
Proof.
  intros Hk Hz. unfold copy.
  destruct (Z.eq_dec k 0) as [-> | Hk0].
  - replace (0 <=? 0) with true by reflexivity. rewrite orb_true_r.
    reflexivity.
  - replace (k <=? 0) with false by (symmetry; apply Z.leb_gt; lia).
    replace (length (pre ++ z) <=? length pre) with false.
    2:{ symmetry. apply Z.leb_gt. unfold length in *. rewrite length_app.
        lia. }
    simpl orb. cbv iota.
    replace (Z.min (Z.min (k - 0) (length (pre ++ z) - length pre))
                   (length src - 0)) with k.
    2:{ unfold length in *. rewrite length_app. lia. }
    rewrite length_nat. rewrite firstn_app, Nat.sub_diag, firstn_all.
    simpl firstn. rewrite app_nil_r. simpl skipn.
    replace (Z.to_nat (length pre + k))
      with (List.length pre + Z.to_nat k)%nat
      by (unfold length; lia).
    rewrite skipn_app, Nat.add_comm, Nat.add_sub.
    rewrite (skipn_all2 pre) by lia. reflexivity.
Qed.

Lemma copy_all_but_last_cons (b : Buffer) (rest : list Buffer)
  (output : Buffer) (i : Z) :
  rest <> [] ->
  copy_all_but_last (b :: rest) output i =
    copy_all_but_last rest (copy b output i 0 (length b)) (i + length b).
Proof. destruct rest; [congruence | reflexivity]. Qed.

(** The first loop of [parse] lays the buffers but the last one out in the
    output, one after the other. *)
Lemma copy_all_but_last_lays_out (bs : list Buffer) (lb pre : Buffer)
  (m : nat) :
  copy_all_but_last (bs ++ [lb])
    (pre ++ repeat 0 (List.length (List.concat bs) + m)) (length pre) =
    (pre ++ List.concat bs ++ repeat 0 m,
     length pre + length (List.concat bs)).
Proof.
  revert pre. induction bs as [| b bs IH]; intros pre.
  - simpl. rewrite Z.add_0_r. reflexivity.
  - change ((b :: bs) ++ [lb]) with (b :: (bs ++ [lb])).
    assert (Hne : bs ++ [lb] <> []) by (destruct bs; discriminate).
    rewrite copy_all_but_last_cons by assumption.
    rewrite copy_at.
    + rewrite length_nat, firstn_all.
      simpl List.concat. rewrite length_app.
      replace (List.length b + List.length (List.concat bs) + m)%nat
        with (List.length b + (List.length (List.concat bs) + m))%nat
        by lia.
      rewrite repeat_app, skipn_app, repeat_length, Nat.sub_diag.
      rewrite (skipn_all2 (repeat 0 (List.length b)))
        by (rewrite repeat_length; lia).
      simpl skipn. simpl app.
      replace (length pre + length b) with (length (pre ++ b))
        by (unfold length; rewrite length_app; lia).
      replace (pre ++ b ++ repeat 0 (List.length (List.concat bs) + m))
        with ((pre ++ b) ++ repeat 0 (List.length (List.concat bs) + m))
        by (rewrite <- app_assoc; reflexivity).
      rewrite IH. f_equal.
      * rewrite <- !app_assoc. reflexivity.
      * unfold length. rewrite !length_app. lia.
    + unfold length. lia.
    + unfold length. simpl List.concat.
      rewrite repeat_length, length_app. lia.
Qed.

(** [parse] hands [ontext] the buffers but the last one, and the first
    [messageEnd] bytes of the last one. *)
Lemma parse_output (r : Receiver) (bs : list Buffer) (lb : Buffer) :
  buffers r = bs ++ [lb] ->
  0 <= messageEnd r <= length lb ->
  spanLength r = length (List.concat bs) + messageEnd r ->
  let r1 := if State_eqb (state r) BODY then r
            else set_messageEnd r (messageEnd r - 1) in
  parse r =
    (reset r1,
     [ontext (List.concat bs ++ firstn (Z.to_nat (messageEnd r)) lb)],
     if messageEnd r1 <? length lb - 1
     then Again (slice lb (messageEnd r1 + 1)) else Done).
Proof.
  intros Hb Hm Hs. cbv zeta. unfold parse, alloc.
  replace (spanLength r <? 0) with false
    by (symmetry; apply Z.ltb_ge; unfold length in *; lia).
  rewrite Hb, Hs.
  replace (Z.to_nat (length (List.concat bs) + messageEnd r))
    with (List.length (List.concat bs) + Z.to_nat (messageEnd r))%nat
    by (unfold length; lia).
  pose proof (copy_all_but_last_lays_out bs lb [] (Z.to_nat (messageEnd r)))
    as Hc.
  simpl in Hc. change (length []) with 0 in Hc. rewrite Hc. clear Hc.
  rewrite map_app. simpl map. rewrite last_last.
  assert (Hout :
    (if 0 <? messageEnd r
     then copy lb (List.concat bs ++ repeat 0 (Z.to_nat (messageEnd r)))
            (length (List.concat bs)) 0 (messageEnd r)
     else List.concat bs ++ repeat 0 (Z.to_nat (messageEnd r)))
    = List.concat bs ++ firstn (Z.to_nat (messageEnd r)) lb).
  { destruct (0 <? messageEnd r) eqn:Hpos.
    - rewrite copy_at.
      + rewrite (skipn_all2 (repeat 0 _)) by (rewrite repeat_length; lia).
        rewrite app_nil_r. reflexivity.
      + lia.
      + unfold length. rewrite repeat_length. lia.
    - apply Z.ltb_ge in Hpos.
      replace (messageEnd r) with 0 by lia. simpl. reflexivity. }
  rewrite Hout. reflexivity.
Qed.

(** ** Text frames *)

Lemma no_FF_app (a b : Buffer) : no_FF a -> no_FF b -> no_FF (a ++ b).
Proof. unfold no_FF. intros. apply Forall_app. auto. Qed.

(** The first ff of a chunk, if it has one. *)
Lemma indexOf_from_FF (c : Buffer) (i : Z) :
  (indexOf_from c 255 i = -1 /\ no_FF c) \/
  (exists q c2, c = q ++ 255 :: c2 /\ no_FF q /\
                indexOf_from c 255 i = i + length q) \/
  i < 0.
Proof.
  revert i. induction c as [| b c IH]; intros i.
  - left. split; [reflexivity | constructor].
  - destruct (Z_lt_dec i 0) as [Hi | Hi]; [right; right; exact Hi |].
    simpl. destruct (b =? 255) eqn:Hb.
    + apply Z.eqb_eq in Hb. subst b. right. left.
      exists [], c. repeat split; [constructor |].
      change (length []) with 0. lia.
    + apply Z.eqb_neq in Hb.
      destruct (IH (i + 1)) as [[H1 H2] | [(q & c2 & H1 & H2 & H3) | H]].
      * left. split; [assumption | constructor; assumption].
      * right. left. exists (b :: q), c2. subst c.
        repeat split; [constructor; assumption |].
        rewrite H3. unfold length. simpl List.length. lia.
      * lia.
Qed.

Lemma first_FF (c : Buffer) :
  (indexOf c 255 = -1 /\ no_FF c) \/
  (exists q c2, c = q ++ 255 :: c2 /\ no_FF q /\ indexOf c 255 = length q).
Proof.
  unfold indexOf.
  destruct (indexOf_from_FF c 0) as [H | [(q & c2 & H1 & H2 & H3) | H]];
    [left; exact H | right | lia].
  exists q, c2. rewrite H3. auto.
Qed.

Lemma indexOf_no_FF (c : Buffer) : no_FF c -> indexOf c 255 = -1.
Proof.
  intros Hc. destruct (first_FF c) as [[H _] | (q & c2 & H1 & _ & _)];
    [exact H |].
  subst c. unfold no_FF in Hc. apply Forall_app in Hc.
  destruct Hc as [_ Hc]. inversion Hc. congruence.
Qed.

Lemma indexOf_first_FF (q c2 : Buffer) :
  no_FF q -> indexOf (q ++ 255 :: c2) 255 = length q.
Proof.
  intros Hq. unfold indexOf.
  assert (H : forall i, indexOf_from (q ++ 255 :: c2) 255 i = i + length q).
  { induction q as [| b q IH]; intros i.
    - simpl. change (length []) with 0. lia.
    - inversion Hq; subst. simpl.
      replace (b =? 255) with false by (symmetry; apply Z.eqb_neq; assumption).
      rewrite IH by assumption. unfold length. simpl List.length. lia. }
  rewrite H. lia.
Qed.

(** Inside a text frame, a chunk without ff is kept. *)
Lemma text_round_open (r : Receiver) (acc c : Buffer) :
  in_text r acc -> no_FF c ->
  exists r', doAdd r c = (r', [], Done) /\ in_text r' (acc ++ c).
Proof.
  intros (Hs & Hb & Hn & Hd) Hc.
  destruct r as [st bs m n d]. simpl in *. subst st d.
  unfold doAdd, doAdd_body. simpl.
  unfold set_messageEnd, push. simpl.
  rewrite (indexOf_no_FF c Hc). simpl.
  eexists. split; [reflexivity |].
  unfold in_text. simpl. repeat split.
  - rewrite concat_app. simpl. rewrite app_nil_r. congruence.
  - unfold length in *. rewrite length_app. lia.
Qed.

(** Inside a text frame, the chunk with the ff closes it: the payload goes
    to [ontext], the receiver is as new, and what follows the ff is handed
    back to the loop. *)
Lemma text_round_close (r : Receiver) (acc q c2 : Buffer) :
  in_text r acc -> no_FF q ->
  doAdd r (q ++ 255 :: c2) =
    (constructor, [ontext (acc ++ q)],
     match c2 with [] => Done | _ => Again c2 end).
Proof.
  intros (Hs & Hb & Hn & Hd) Hq.
  destruct r as [st bs m n d]. simpl in *. subst st d.
  unfold doAdd, doAdd_body. simpl.
  unfold set_messageEnd, set_spanLength, push. simpl.
  rewrite (indexOf_first_FF q c2 Hq).
  replace (negb (length q =? -1)) with true
    by (symmetry; apply negb_true_iff, Z.eqb_neq; unfold length; lia).
  rewrite (parse_output _ bs (q ++ 255 :: c2)); simpl.
  - rewrite length_nat, firstn_app, Nat.sub_diag, firstn_all. simpl firstn.
    rewrite app_nil_r, Hb. f_equal.
    replace (length q + 1) with (length q + length [255]) by reflexivity.
    unfold slice.
    assert (Hlen : length (q ++ 255 :: c2) = length q + 1 + length c2)
      by (unfold length; rewrite length_app; simpl List.length; lia).
    rewrite Hlen. destruct c2 as [| x c2].
    + change (length []) with 0.
      replace (length q <? length q + 1 + 0 - 1) with false
        by (symmetry; apply Z.ltb_ge; lia). reflexivity.
    + replace (length q <? length q + 1 + length (x :: c2) - 1) with true
        by (symmetry; apply Z.ltb_lt; unfold length; simpl List.length; lia).
      f_equal.
      replace (length q + length [255] <? 0) with false
        by (symmetry; apply Z.ltb_ge; unfold length; simpl List.length; lia).
      replace (Z.to_nat (Z.min (length q + length [255])
                               (length q + 1 + length (x :: c2))))
        with (List.length q + 1)%nat
        by (unfold length; simpl List.length; lia).
      rewrite skipn_app.
      rewrite (skipn_all2 q) by lia.
      replace (List.length q + 1 - List.length q)%nat with 1%nat by lia.
      reflexivity.
  - reflexivity.
  - unfold length. rewrite length_app. simpl List.length. lia.
  - rewrite Hb. lia.
Qed.

(** ** The reader of the stream *)

Lemma scan_app (p : option Buffer) (c1 c2 : Buffer) :
  scan p (c1 ++ c2) =
    match scan p c1 with
    | Some (p1, o1) =>
        match scan p1 c2 with
        | Some (p2, o2) => Some (p2, o1 ++ o2)
        | None => None
        end
    | None => None
    end.
Proof.
  revert p. induction c1 as [| b c1 IH]; intros p.
  - simpl. destruct (scan p c2) as [[p2 o2] |]; reflexivity.
  - simpl. destruct p as [acc |].
    + destruct (b =? 255).
      * rewrite IH. destruct (scan None c1) as [[p1 o1] |]; [| reflexivity].
        destruct (scan p1 c2) as [[p2 o2] |]; reflexivity.
      * apply IH.
    + destruct (b =? 0); [apply IH | reflexivity].
Qed.

Lemma scan_no_FF (acc q : Buffer) :
  no_FF q -> scan (Some acc) q = Some (Some (acc ++ q), []).
Proof.
  revert acc. induction q as [| b q IH]; intros acc Hq.
  - simpl. rewrite app_nil_r. reflexivity.
  - inversion Hq; subst. simpl.
    replace (b =? 255) with false by (symmetry; apply Z.eqb_neq; assumption).
    rewrite IH by assumption. rewrite <- app_assoc. reflexivity.
Qed.

Lemma scan_to_FF (acc q c2 : Buffer) :
  no_FF q ->
  scan (Some acc) (q ++ 255 :: c2) =
    match scan None c2 with
    | Some (p, out) => Some (p, (acc ++ q) :: out)
    | None => None
    end.
Proof.
  intros Hq. rewrite scan_app, (scan_no_FF acc q Hq). simpl.
  destruct (scan None c2) as [[p out] |]; reflexivity.
Qed.

(** The frames of payloads without ff are read back as these payloads. *)
Lemma scan_text_frames (ps : list Buffer) :
  Forall no_FF ps -> scan None (text_frames ps) = Some (None, ps).
Proof.
  induction ps as [| p ps IH]; intros Hps.
  - reflexivity.
  - inversion Hps; subst. unfold text_frames. simpl List.concat.
    fold (text_frames ps). unfold text_frame.
    change ((0 :: p ++ [255]) ++ text_frames ps)
      with (0 :: ((p ++ [255]) ++ text_frames ps)).
    rewrite <- app_assoc. simpl app. cbn [scan].
    replace (0 =? 0) with true by reflexivity.
    rewrite scan_to_FF by assumption. rewrite IH by assumption.
    reflexivity.
Qed.

(** ** The receiver reads as the reader does *)

(** A round of [doAdd] inside a text frame, against [scan]. *)
Lemma text_round (r : Receiver) (acc c : Buffer) (p' : option Buffer)
  (out : list Buffer) :
  in_text r acc ->
  scan (Some acc) c = Some (p', out) ->
  (exists r', doAdd r c = (r', [], Done) /\ in_text r' (acc ++ c) /\
              p' = Some (acc ++ c) /\ out = []) \/
  (exists q c2 out2,
      c = q ++ 255 :: c2 /\
      doAdd r c = (constructor, [ontext (acc ++ q)],
                   match c2 with [] => Done | _ => Again c2 end) /\
      scan None c2 = Some (p', out2) /\ out = (acc ++ q) :: out2).
Proof.
  intros Hr Hscan.
  destruct (first_FF c) as [[_ Hc] | (q & c2 & Hc & Hq & _)].
  - left. rewrite (scan_no_FF acc c Hc) in Hscan. inversion Hscan; subst.
    destruct (text_round_open r acc c Hr Hc) as (r' & H1 & H2).
    exists r'. auto.
  - right. subst c. rewrite (scan_to_FF acc q c2 Hq) in Hscan.
    destruct (scan None c2) as [[p2 out2] |] eqn:H2; [| discriminate].
    inversion Hscan; subst.
    exists q, c2, out2.
    split; [reflexivity |]. split; [| split; [exact H2 | reflexivity]].
    apply text_round_close; assumption.
Qed.

(** A chunk that starts a frame: the 00 is taken off and the rest is read as
    the inside of a text frame. *)
Lemma doAdd_frame_start (c1 : Buffer) :
  doAdd constructor (0 :: c1) = doAdd (set_state constructor BODY) c1 /\
  in_text (set_state constructor BODY) [].
Proof.
  split; [| repeat split].
  unfold doAdd, doAdd_empty. simpl State_eqb. cbv iota.
  replace (get_is (0 :: c1) 0 255) with false by reflexivity.
  rewrite andb_false_r. simpl andb. cbv iota.
  replace (get_is (0 :: c1) 0 128) with false by reflexivity.
  replace (get_is (0 :: c1) 0 0) with true by reflexivity.
  simpl negb. cbv iota.
  replace (slice (0 :: c1) 1) with c1; [reflexivity |].
  unfold slice. replace (1 <? 0) with false by reflexivity.
  replace (Z.to_nat (Z.min 1 (length (0 :: c1)))) with 1%nat
    by (unfold length; simpl List.length; lia).
  reflexivity.
Qed.

(** [add] of one chunk ends where [scan] ends, and dispatches to [ontext]
    the payloads that [scan] reads, in their order. *)
Lemma add_loop_reads (n : nat) :
  forall (c : Buffer) (r : Receiver) (p p' : option Buffer)
         (out : list Buffer) (fuel : nat),
    (List.length c <= n)%nat ->
    reads r p ->
    (p = None -> c <> []) ->
    scan p c = Some (p', out) ->
    (List.length c < fuel)%nat ->
    exists r',
      add_loop fuel r c = Some (r', map ontext out, None) /\ reads r' p'.
Proof.
  induction n as [| n IH]; intros c r p p' out fuel Hn Hr Hne Hscan Hf.
  - (* the empty chunk, inside a frame *)
    destruct c; [| simpl in Hn; lia].
    destruct p as [acc |]; [| exfalso; apply Hne; reflexivity].
    simpl in Hscan. inversion Hscan; subst.
    destruct fuel as [| fuel]; [lia |].
    destruct (text_round_open r acc [] Hr ltac:(constructor))
      as (r' & H1 & H2).
    simpl add_loop. rewrite H1. rewrite app_nil_r in H2.
    exists r'. split; [reflexivity | exact H2].
  - destruct fuel as [| fuel]; [lia |].
    assert (Hround :
      forall (r0 : Receiver) (acc c0 : Buffer),
        (List.length c0 <= S n)%nat ->
        (List.length c0 < S fuel)%nat ->
        in_text r0 acc ->
        scan (Some acc) c0 = Some (p', out) ->
        exists r',
          match doAdd r0 c0 with
          | (r1, ev, Done) => Some (r1, ev, None)
          | (r1, ev, Raised e) => Some (r1, ev, Some e)
          | (r1, ev, Again tail) =>
              match add_loop fuel r1 tail with
              | Some (r'', ev', x) => Some (r'', ev ++ ev', x)
              | None => None
              end
          end = Some (r', map ontext out, None) /\ reads r' p').
    { intros r0 acc c0 Hn0 Hf0 Hr0 Hs0.
      destruct (text_round r0 acc c0 p' out Hr0 Hs0)
        as [(r' & H1 & H2 & H3 & H4) | (q & c2 & out2 & H1 & H2 & H3 & H4)].
      - rewrite H1. subst. exists r'. split; [reflexivity | exact H2].
      - rewrite H2. subst c0 out. destruct c2 as [| x c2].
        + simpl in H3. inversion H3; subst.
          exists constructor. split; reflexivity.
        + assert (Hl : (List.length (x :: c2) <= n)%nat)
            by (rewrite length_app in Hn0; simpl in *; lia).
          destruct (IH (x :: c2) constructor None p' out2 fuel Hl
                      eq_refl ltac:(discriminate) H3)
            as (r' & H5 & H6).
          { rewrite length_app in Hf0. simpl in *. lia. }
          rewrite H5. exists r'. split; [reflexivity | exact H6]. }
    simpl add_loop.
    destruct p as [acc |].
    + destruct (Hround r acc c Hn Hf Hr Hscan) as (r' & H1 & H2).
      exists r'. destruct (doAdd r c) as [[r1 ev] nx]. auto.
    + simpl in Hr. subst r.
      destruct c as [| b c1]; [exfalso; apply Hne; reflexivity |].
      simpl in Hscan. destruct (b =? 0) eqn:Hb; [| discriminate].
      apply Z.eqb_eq in Hb. subst b.
      destruct (doAdd_frame_start c1) as [Hstart Hin]. rewrite Hstart.
      destruct (Hround (set_state constructor BODY) [] c1) as (r' & H1 & H2).
      * simpl in Hn. lia.
      * simpl in Hf. lia.
      * exact Hin.
      * exact Hscan.
      * exists r'.
        destruct (doAdd (set_state constructor BODY) c1) as [[r1 ev] nx].
        auto.
Qed.

Lemma add_reads (c : Buffer) (r : Receiver) (p p' : option Buffer)
  (out : list Buffer) :
  reads r p ->
  (p = None -> c <> []) ->
  scan p c = Some (p', out) ->
  exists r', add r c = Some (r', map ontext out, None) /\ reads r' p'.
Proof.
  intros Hr Hne Hs. unfold add.
  apply (add_loop_reads (List.length c) c r p p' out); auto; lia.
Qed.

Lemma add_chunks_reads (cs : list Buffer) :
  forall (r : Receiver) (p p' : option Buffer) (out : list Buffer),
    Forall (fun c => c <> []) cs ->
    reads r p ->
    scan p (List.concat cs) = Some (p', out) ->
    exists r',
      add_chunks r cs = Some (r', map ontext out, None) /\ reads r' p'.
Proof.
  induction cs as [| c cs IH]; intros r p p' out Hcs Hr Hs.
  - simpl in Hs. inversion Hs; subst. exists r. split; [reflexivity | exact Hr].
  - inversion Hcs as [| c' cs' Hc Hcs']; subst.
    simpl in Hs. rewrite scan_app in Hs.
    destruct (scan p c) as [[p1 o1] |] eqn:Hs1; [| discriminate].
    destruct (scan p1 (List.concat cs)) as [[p2 o2] |] eqn:Hs2;
      [| discriminate].
    inversion Hs; subst.
    destruct (add_reads c r p p1 o1 Hr ltac:(auto) Hs1) as (r1 & Ha & Hr1).
    destruct (IH r1 p1 p' o2 Hcs' Hr1 Hs2) as (r' & Hb & Hr').
    simpl. rewrite Ha, Hb. rewrite map_app.
    exists r'. split; [reflexivity | exact Hr'].
Qed.

(** X1: text frames, however the socket cuts them. When the stream of the text
    frames of the payloads [ps], none with a byte ff, arrives in chunks that
    are not empty, the receiver dispatches to [ontext] the payloads [ps], in
    order and nothing else, and is as new at the end. *)
Theorem text_frames_in_chunks (cs ps : list Buffer) :
  Forall (fun c => c <> []) cs ->
  Forall no_FF ps ->
  List.concat cs = text_frames ps ->
  add_chunks constructor cs = Some (constructor, map ontext ps, None).
Proof.
  intros Hcs Hps Hcat.
  destruct (add_chunks_reads cs constructor None None ps Hcs eq_refl)
    as (r' & Ha & Hr').
  - rewrite Hcat. apply scan_text_frames. exact Hps.
  - simpl in Hr'. subst r'. exact Ha.
Qed.

Lemma text_frames_in_chunks_witness :
  Forall (fun c : Buffer => c <> []) [[0; 104]; [105; 255; 0]; [255]] /\
  Forall no_FF [[104; 105]; []] /\
  List.concat [[0; 104]; [105; 255; 0]; [255]]
  = text_frames [[104; 105]; []] /\
  add_chunks constructor [[0; 104]; [105; 255; 0]; [255]]
  = Some (constructor, [ontext [104; 105]; ontext []], None).
Proof.
  assert (H1 : Forall (fun c : Buffer => c <> [])
                 [[0; 104]; [105; 255; 0]; [255]])
    by (repeat constructor; discriminate).
  assert (H2 : Forall no_FF [[104; 105]; []])
    by (repeat constructor; discriminate).
  split; [exact H1 |]. split; [exact H2 |]. split; [reflexivity |].
  exact (text_frames_in_chunks [[0; 104]; [105; 255; 0]; [255]]
           [[104; 105]; []] H1 H2 eq_refl).
Defined.

(** ** Between two frames *)

(** X2: between two frames. A chunk is the closing frame when it is ff 00 and
    nothing more; every other chunk that starts with neither 00 nor 80, the
    empty one too, is answered with the error 'payload must start with 0x00
    byte' and dropped whole. The receiver is reset in both cases. *)
Theorem chunk_between_frames (r : Receiver) (c : Buffer) :
  state r = EMPTY ->
  (c = [255; 0] -> add r c = Some (reset r, [onclose], None)) /\
  (c <> [255; 0] ->
   (forall b, nth_error c 0 = Some b -> b <> 0 /\ b <> 128) ->
   add r c =
     Some (reset r, [onerror "payload must start with 0x00 byte" true],
           None)).
Proof.
  intros Hs. split.
  - intros ->. unfold add. simpl add_loop. unfold doAdd. rewrite Hs.
    reflexivity.
  - intros Hc Hb.
    assert (Hround :
      doAdd r c =
        (reset r, [onerror "payload must start with 0x00 byte" true], Done)).
    { unfold doAdd, doAdd_empty, error. rewrite Hs. simpl State_eqb. cbv iota.
      assert (H0 : get_is c 0 0 = false /\ get_is c 0 128 = false).
      { unfold get_is, get. simpl.
        destruct c as [| b c']; [split; reflexivity |]. simpl.
        destruct (Hb b eq_refl) as [Hb0 Hb1].
        split; apply Z.eqb_neq; assumption. }
      destruct H0 as [H0 H128]. rewrite H0, H128. simpl negb.
      replace ((length c =? 2) && get_is c 0 255 && get_is c 1 0)
        with false; [reflexivity |].
      symmetry. apply not_true_is_false. intros Ht.
      apply andb_prop in Ht. destruct Ht as [Ht H2].
      apply andb_prop in Ht. destruct Ht as [Hl H1].
      apply Hc. apply Z.eqb_eq in Hl. unfold length in Hl.
      destruct c as [| x [| y [| z c']]]; simpl List.length in Hl; try lia.
      unfold get_is, get in H1, H2. simpl in H1, H2.
      apply Z.eqb_eq in H1, H2. subst. reflexivity. }
    unfold add.
    replace (2 * List.length c + 2)%nat with (S (2 * List.length c + 1))
      by lia.
    simpl add_loop. rewrite Hround. reflexivity.
Qed.

Lemma chunk_between_frames_witness :
  state constructor = EMPTY /\
  [255; 0; 0] <> [255; 0] /\
  add constructor [255; 0; 0] =
    Some (constructor,
          [onerror "payload must start with 0x00 byte" true], None).
Proof.
  split; [reflexivity |]. split; [discriminate |].
  apply (proj2 (chunk_between_frames constructor [255; 0; 0] eq_refl)).
  - discriminate.
  - intros b Hb. inversion Hb; subst. split; discriminate.
Defined.

(** ** Length-prefixed frames *)

(** The bits that [doAdd] looks at, of a digit and of a digit with the high
    bit set. *)
Lemma digit_bits (d : Z) :
  digit d ->
  Z.land d 128 = 0 /\ Z.land d 127 = d /\
  Z.land (128 + d) 128 <> 0 /\ Z.land (128 + d) 127 = d.
Proof.
  intros Hd.
  assert (Hall :
    forallb (fun x => (Z.land x 128 =? 0) && (Z.land x 127 =? x)
                      && negb (Z.land (128 + x) 128 =? 0)
                      && (Z.land (128 + x) 127 =? x))
            (map Z.of_nat (seq 0 128)) = true) by (vm_compute; reflexivity).
  rewrite forallb_forall in Hall.
  assert (Hin : In d (map Z.of_nat (seq 0 128))).
  { unfold digit in Hd. replace d with (Z.of_nat (Z.to_nat d)) by lia.
    apply in_map, in_seq. lia. }
  specialize (Hall d Hin).
  apply andb_prop in Hall. destruct Hall as [Hall H4].
  apply andb_prop in Hall. destruct Hall as [Hall H3].
  apply andb_prop in Hall. destruct Hall as [H1 H2].
  apply Z.eqb_eq in H1, H2, H4. apply negb_true_iff, Z.eqb_neq in H3.
  auto.
Qed.

(** The loop over the length reads the digits that have the high bit. *)
Lemma scan_length_digits (ds : list Z) (rest : Buffer) (m i : Z) :
  Forall digit ds ->
  scan_length (map (fun d => 128 + d) ds ++ rest) m i =
    scan_length rest (fold_left (fun a d => 128 * a + d) ds m)
                (i + length ds).
Proof.
  revert m i. induction ds as [| d ds IH]; intros m i Hds.
  - simpl. change (length []) with 0. rewrite Z.add_0_r. reflexivity.
  - inversion Hds as [| d' ds' Hd Hds']; subst.
    cbn [map app scan_length fold_left].
    destruct (digit_bits d Hd) as (_ & _ & H3 & H4).
    replace (Z.land (128 + d) 128 =? 0) with false
      by (symmetry; apply Z.eqb_neq; assumption).
    rewrite H4, IH by assumption. f_equal.
    unfold length. simpl List.length. lia.
Qed.

(** The chunk with the 80 and the whole length: the receiver is inside the
    frame, with the length in [messageEnd], and goes on with the bytes that
    follow the length. *)
Lemma slice_past (a b : Buffer) :
  a <> [] -> slice (a ++ b) (length a) = b.
Proof.
  intros Ha. unfold slice.
  replace (length a <? 0) with false
    by (symmetry; apply Z.ltb_ge; unfold length; lia).
  replace (Z.to_nat (Z.min (length a) (length (a ++ b))))
    with (List.length a)
    by (unfold length; rewrite length_app; lia).
  rewrite skipn_app, Nat.sub_diag, (skipn_all2 a) by lia. reflexivity.
Qed.

Lemma doAdd_length_digits (r : Receiver) (ds : list Z) (l : Z)
  (b0 : Buffer) :
  Forall digit ds -> digit l ->
  doAdd_length r (length_prefix ds l ++ b0) =
    (set_state
       (set_messageEnd (set_messageEnd r
          (fold_left (fun a d => 128 * a + d) ds (messageEnd r)))
          (128 * fold_left (fun a d => 128 * a + d) ds (messageEnd r) + l))
       BINARYBODY, b0).
Proof.
  intros Hds Hl. unfold doAdd_length, length_prefix.
  rewrite <- app_assoc. cbn [app].
  rewrite scan_length_digits by assumption. cbn [scan_length].
  destruct (digit_bits l Hl) as (H1 & H2 & _ & _).
  rewrite H1. replace (0 =? 0) with true by reflexivity.
  rewrite Z.add_0_l.
  assert (Hlen : length (map (fun d => 128 + d) ds ++ l :: b0)
                 = length ds + 1 + length b0)
    by (unfold length; rewrite length_app, length_map;
        cbn [List.length]; lia).
  rewrite Hlen.
  replace (length ds <? length ds + 1 + length b0) with true
    by (symmetry; apply Z.ltb_lt; unfold length; lia).
  replace (nth (Z.to_nat (length ds))
               (map (fun d => 128 + d) ds ++ l :: b0) 0) with l.
  2:{ rewrite length_nat, app_nth2 by (rewrite length_map; lia).
      rewrite length_map, Nat.sub_diag. reflexivity. }
  rewrite H2.
  replace (0 <? length ds + 1) with true
    by (symmetry; apply Z.ltb_lt; unfold length; lia).
  replace (map (fun d => 128 + d) ds ++ l :: b0)
    with ((map (fun d => 128 + d) ds ++ [l]) ++ b0)
    by (rewrite <- app_assoc; reflexivity).
  replace (length ds + 1) with (length (map (fun d => 128 + d) ds ++ [l]))
    by (unfold length; rewrite length_app, length_map;
        cbn [List.length]; lia).
  rewrite slice_past by (destruct ds; discriminate).
  reflexivity.
Qed.

Lemma binary_start (ds : list Z) (l : Z) (b0 : Buffer) :
  Forall digit ds -> digit l ->
  doAdd constructor (128 :: length_prefix ds l ++ b0) =
    doAdd {| state := BINARYBODY; buffers := [];
             messageEnd := length_value ds l; spanLength := 0;
             dead := false |} b0.
Proof.
  intros Hds Hl. unfold doAdd at 1. unfold doAdd_empty.
  cbn [State_eqb state constructor].
  replace (get_is (128 :: length_prefix ds l ++ b0) 0 255) with false
    by reflexivity.
  rewrite andb_false_r. cbn [andb].
  replace (get_is (128 :: length_prefix ds l ++ b0) 0 128) with true
    by reflexivity.
  change (128 :: length_prefix ds l ++ b0)
    with ([128] ++ (length_prefix ds l ++ b0)).
  change 1 with (length [128]). rewrite slice_past by discriminate.
  cbn [State_eqb state set_state set_messageEnd].
  rewrite doAdd_length_digits by assumption.
  unfold length_value. rewrite fold_left_app. cbn [fold_left].
  unfold doAdd. reflexivity.
Qed.

(** Inside a length-prefixed frame, a chunk that does not complete it is
    kept. *)
Lemma binary_round_open (r : Receiver) (total : Z) (acc c : Buffer) :
  in_binary r total acc ->
  length acc + length c < total ->
  exists r', doAdd r c = (r', [], Done) /\ in_binary r' total (acc ++ c).
Proof.
  intros (Hs & Hb & Hn & Hm & Hd) Hlt.
  destruct r as [st bs m n d]. simpl in *. subst st d m.
  unfold doAdd, doAdd_body. simpl.
  replace (total - n <=? length c) with false
    by (symmetry; apply Z.leb_gt; lia).
  eexists. split; [reflexivity |].
  unfold in_binary. simpl. repeat split.
  - rewrite concat_app. simpl. rewrite app_nil_r. congruence.
  - unfold length in *. rewrite length_app. lia.
Qed.

(** Inside a length-prefixed frame, the chunk that brings the last bytes
    closes it: the body goes to [ontext], the receiver is as new, and what
    follows the body is handed back to the loop. *)
Lemma binary_round_close (r : Receiver) (total : Z) (acc c1 c2 : Buffer) :
  in_binary r total acc ->
  length acc + length c1 = total ->
  doAdd r (c1 ++ c2) =
    (constructor, [ontext (acc ++ c1)],
     match c2 with [] => Done | _ => Again c2 end).
Proof.
  intros (Hs & Hb & Hn & Hm & Hd) Heq.
  destruct r as [st bs m n d]. simpl in *. subst st d m.
  unfold doAdd, doAdd_body. simpl.
  assert (Hlen : length (c1 ++ c2) = length c1 + length c2)
    by (unfold length; rewrite length_app; lia).
  replace (total - n <=? length (c1 ++ c2)) with true
    by (symmetry; apply Z.leb_le; unfold length in *; lia).
  unfold set_messageEnd, set_spanLength, push. simpl.
  replace (total - n) with (length c1) by lia.
  rewrite (parse_output _ bs (c1 ++ c2)); simpl.
  - rewrite length_nat, firstn_app, Nat.sub_diag, firstn_all. simpl firstn.
    rewrite app_nil_r, Hb. f_equal. rewrite Hlen.
    destruct c2 as [| x c2].
    + change (length []) with 0.
      replace (length c1 - 1 <? length c1 + 0 - 1) with false
        by (symmetry; apply Z.ltb_ge; lia). reflexivity.
    + replace (length c1 - 1 <? length c1 + length (x :: c2) - 1) with true
        by (symmetry; apply Z.ltb_lt; unfold length; simpl List.length; lia).
      f_equal. unfold slice. rewrite Hlen.
      replace (length c1 - 1 + 1 <? 0) with false
        by (symmetry; apply Z.ltb_ge; unfold length; lia).
      replace (Z.to_nat (Z.min (length c1 - 1 + 1)
                               (length c1 + length (x :: c2))))
        with (List.length c1) by (unfold length; lia).
      rewrite skipn_app, Nat.sub_diag, (skipn_all2 c1) by lia.
      reflexivity.
  - reflexivity.
  - unfold length in *. rewrite length_app. lia.
  - rewrite Hb. lia.
Qed.

Lemma add_one_round (r r' : Receiver) (c : Buffer) (ev : list Dispatch) :
  doAdd r c = (r', ev, Done) -> add r c = Some (r', ev, None).
Proof.
  intros H. unfold add.
  replace (2 * List.length c + 2)%nat with (S (2 * List.length c + 1))
    by lia.
  simpl add_loop. rewrite H. reflexivity.
Qed.

Lemma add_chunks_cons (r r' : Receiver) (c : Buffer) (cs : list Buffer)
  (ev : list Dispatch) :
  add r c = Some (r', ev, None) ->
  add_chunks r (c :: cs) =
    match add_chunks r' cs with
    | Some (r'', ev', x) => Some (r'', ev ++ ev', x)
    | None => None
    end.
Proof. intros H. cbn [add_chunks]. rewrite H. reflexivity. Qed.

Lemma binary_body_in_chunks (bs : list Buffer) :
  forall (r : Receiver) (total : Z) (acc body : Buffer),
    bs <> [] ->
    Forall (fun c => c <> []) bs ->
    in_binary r total acc ->
    acc ++ List.concat bs = body ->
    length body = total ->
    add_chunks r bs = Some (constructor, [ontext body], None).
Proof.
  induction bs as [| c bs IH]; intros r total acc body Hne Hbs Hr Hcat Hlen;
    [congruence |].
  inversion Hbs as [| c' bs' Hc Hbs']; subst. simpl List.concat in *.
  destruct bs as [| c2 bs].
  - cbn [List.concat] in *. rewrite !app_nil_r in *.
    pose proof (binary_round_close r (length (acc ++ c)) acc c [] Hr) as H.
    rewrite app_nil_r in H.
    rewrite (add_chunks_cons _ _ _ _ _
               (add_one_round _ _ _ _
                  (H ltac:(unfold length; rewrite length_app; lia)))).
    reflexivity.
  - assert (Hlt : length acc + length c
                  < length (acc ++ c ++ List.concat (c2 :: bs))).
    { inversion Hbs' as [| c2' bs2 Hc2 _]; subst.
      unfold length. rewrite !length_app. simpl List.concat.
      rewrite length_app. destruct c2; [congruence |]. simpl List.length.
      lia. }
    destruct (binary_round_open r _ acc c Hr Hlt) as (r' & H1 & H2).
    rewrite (add_chunks_cons _ _ _ _ _ (add_one_round _ _ _ _ H1)).
    rewrite (IH r' (length (acc ++ c ++ List.concat (c2 :: bs)))
               (acc ++ c) (acc ++ c ++ List.concat (c2 :: bs)));
      try reflexivity; try assumption; try discriminate.
    rewrite <- app_assoc. reflexivity.
Qed.

(** X3: a length-prefixed frame, however the socket cuts its body. When the
    first chunk brings the 80 and the whole length, and the body arrives in
    that chunk and in further chunks that are not empty, the receiver
    dispatches the body to [ontext], once and nothing else, and is as new at
    the end. *)
Theorem binary_frame_in_chunks (ds : list Z) (l : Z) (b0 : Buffer)
  (bs : list Buffer) :
  Forall digit ds -> digit l ->
  Forall (fun c => c <> []) bs ->
  length (b0 ++ List.concat bs) = length_value ds l ->
  add_chunks constructor (binary_frame ds l b0 :: bs) =
    Some (constructor, [ontext (b0 ++ List.concat bs)], None).
Proof.
  intros Hds Hl Hbs Hlen. unfold binary_frame.
  assert (Hin : in_binary {| state := BINARYBODY; buffers := [];
                             messageEnd := length_value ds l;
                             spanLength := 0; dead := false |}
                          (length_value ds l) [])
    by (repeat split).
  destruct bs as [| c bs].
  - simpl List.concat in *. rewrite app_nil_r in *.
    pose proof (binary_round_close _ _ [] b0 [] Hin) as H.
    rewrite app_nil_r in H. cbn [app] in H.
    rewrite (add_chunks_cons constructor constructor _ _ [ontext b0]).
    + reflexivity.
    + apply add_one_round. rewrite binary_start by assumption. apply H.
      change (length []) with 0. lia.
  - assert (Hlt : length [] + length b0 < length_value ds l).
    { rewrite <- Hlen. inversion Hbs as [| c' bs' Hc _]; subst.
      unfold length. rewrite length_app. simpl List.concat.
      rewrite length_app. destruct c; [congruence |]. simpl List.length.
      lia. }
    destruct (binary_round_open _ _ [] b0 Hin Hlt) as (r' & H1 & H2).
    cbn [app] in H2.
    rewrite (add_chunks_cons constructor r' _ _ []).
    + rewrite (binary_body_in_chunks (c :: bs) r' (length_value ds l) b0
                 (b0 ++ List.concat (c :: bs)));
        try reflexivity; try assumption; discriminate.
    + apply add_one_round. rewrite binary_start by assumption. exact H1.
Qed.

Lemma binary_frame_in_chunks_witness :
  Forall digit [1] /\ digit 2 /\
  Forall (fun c : Buffer => c <> []) [repeat 7 100; [8; 9]] /\
  length (repeat 6 28 ++ List.concat [repeat 7 100; [8; 9]])
  = length_value [1] 2 /\
  add_chunks constructor
    (binary_frame [1] 2 (repeat 6 28) :: [repeat 7 100; [8; 9]])
  = Some (constructor,
          [ontext (repeat 6 28 ++ List.concat [repeat 7 100; [8; 9]])],
          None).
Proof.
  assert (H1 : Forall digit [1]) by (repeat constructor; unfold digit; lia).
  assert (H2 : digit 2) by (unfold digit; lia).
  assert (H3 : Forall (fun c : Buffer => c <> []) [repeat 7 100; [8; 9]])
    by (repeat constructor; discriminate).
  split; [exact H1 |]. split; [exact H2 |]. split; [exact H3 |].
  split; [reflexivity |].
  exact (binary_frame_in_chunks [1] 2 (repeat 6 28) [repeat 7 100; [8; 9]]
           H1 H2 H3 eq_refl).
Defined.

(** ** A length that is cut by the socket *)

Lemma add_length_cut (ds : list Z) :
  Forall digit ds ->
  add constructor (128 :: map (fun d => 128 + d) ds) =
    Some ({| state := BINARYLENGTH; buffers := [[]]; messageEnd := -1;
             spanLength := 0; dead := false |}, [], None).
Proof.
  intros Hds.
  assert (Hround :
    doAdd constructor (128 :: map (fun d => 128 + d) ds) =
      ({| state := BINARYLENGTH; buffers := [[]]; messageEnd := -1;
          spanLength := 0; dead := false |}, [], Done)).
  { unfold doAdd. cbn [constructor state State_eqb].
    unfold doAdd_empty.
    replace ((length (128 :: map (fun d => 128 + d) ds) =? 2)
             && get_is (128 :: map (fun d => 128 + d) ds) 0 255
             && get_is (128 :: map (fun d => 128 + d) ds) 1 0)
      with false
      by (rewrite andb_comm, andb_assoc;
          replace (get_is (128 :: map (fun d => 128 + d) ds) 0 255)
            with false by reflexivity;
          rewrite andb_false_r; reflexivity).
    replace (get_is (128 :: map (fun d => 128 + d) ds) 0 128) with true
      by reflexivity.
    replace (slice (128 :: map (fun d => 128 + d) ds) 1)
      with (map (fun d => 128 + d) ds)
      by (symmetry; apply (slice_past [128]); discriminate).
    cbn [set_state set_messageEnd state State_eqb buffers messageEnd
         spanLength dead].
    unfold doAdd_length. cbn [messageEnd].
    rewrite <- (app_nil_r (map (fun d => 128 + d) ds)) at 1.
    rewrite scan_length_digits by assumption. cbn [scan_length].
    rewrite Z.add_0_l.
    replace (length (map (fun d => 128 + d) ds)) with (length ds)
      by (unfold length; rewrite length_map; reflexivity).
    rewrite Z.ltb_irrefl.
    assert (Hrest : (if 0 <? length ds
                     then slice (map (fun d => 128 + d) ds) (length ds)
                     else map (fun d => 128 + d) ds) = []).
    { destruct ds as [| d ds']; [reflexivity |].
      replace (0 <? length (d :: ds')) with true
        by (symmetry; apply Z.ltb_lt; unfold length; cbn [List.length]; lia).
      replace (length (d :: ds'))
        with (length (map (fun d => 128 + d) (d :: ds')))
        by (unfold length; rewrite length_map; reflexivity).
      rewrite <- (app_nil_r (map (fun d => 128 + d) (d :: ds'))) at 1.
      apply slice_past. discriminate. }
    rewrite Hrest. reflexivity. }
  set (c := 128 :: map (fun d => 128 + d) ds) in *.
  unfold add.
  replace (2 * List.length c + 2)%nat with (S (2 * List.length c + 1))
    by lia.
  cbn [add_loop]. rewrite Hround. reflexivity.
Qed.

(** X22: a length that is cut by the socket is lost. When a chunk ends
    inside the length of a length-prefixed frame (the byte 80 and digits
    that all have the high bit set), nothing is dispatched, the state stays
    BINARYLENGTH, the empty rest is pushed on [buffers], and [messageEnd] is
    left at -1, the index of ff in the empty rest, whatever the digits
    were. The length that the last digit [l] completes in the next chunk is
    then [l - 128], which is negative. *)
Theorem length_cut_by_a_chunk (ds : list Z) (l : Z) (rest : Buffer) :
  Forall digit ds -> digit l ->
  let r := {| state := BINARYLENGTH; buffers := [[]]; messageEnd := -1;
              spanLength := 0; dead := false |} in
  add constructor (128 :: map (fun d => 128 + d) ds) = Some (r, [], None) /\
  doAdd_length r (l :: rest) =
    ({| state := BINARYBODY; buffers := [[]]; messageEnd := l - 128;
        spanLength := 0; dead := false |}, rest) /\
  l - 128 < 0.
Proof.
  intros Hds Hl. cbv zeta. split; [apply add_length_cut, Hds |].
  split; [| unfold digit in Hl; lia].
  pose proof (doAdd_length_digits
                {| state := BINARYLENGTH; buffers := [[]]; messageEnd := -1;
                   spanLength := 0; dead := false |}
                [] l rest (Forall_nil _) Hl) as Hd.
  unfold length_prefix in Hd. cbn [map app fold_left] in Hd.
  rewrite Hd.
  cbn [set_state set_messageEnd state buffers messageEnd spanLength dead].
  replace (128 * -1 + l) with (l - 128) by lia. reflexivity.
Qed.

Lemma length_cut_by_a_chunk_witness :
  Forall digit [1] /\ digit 2 /\
  add constructor (128 :: map (fun d => 128 + d) [1]) =
    Some ({| state := BINARYLENGTH; buffers := [[]]; messageEnd := -1;
             spanLength := 0; dead := false |}, [], None).
Proof.
  assert (H1 : Forall digit [1]) by (repeat constructor; unfold digit; lia).
  assert (H2 : digit 2) by (unfold digit; lia).
  split; [exact H1 |]. split; [exact H2 |].
  exact (proj1 (length_cut_by_a_chunk [1] 2 [7; 9] H1 H2)).
Defined.

(** ** The loop of [add] *)

Lemma dead_reset (r : Receiver) : dead (reset r) = dead r.
Proof. unfold reset. destruct (dead r) eqn:H; [exact H | reflexivity]. Qed.

Lemma dead_parse (r : Receiver) : dead (fst (fst (parse r))) = dead r.
Proof.
  unfold parse. destruct (alloc (spanLength r)); [| reflexivity].
  destruct (copy_all_but_last (buffers r) b 0) as [o1 oi].
  destruct (last (map Some (buffers r)) None) as [lb |].
  - cbn [fst]. rewrite dead_reset.
    destruct (State_eqb (state r) BODY); reflexivity.
  - destruct (0 <? messageEnd r); [reflexivity |].
    destruct (State_eqb (state r) BODY); reflexivity.
Qed.

Lemma dead_doAdd (r : Receiver) (data : Buffer) :
  dead (fst (fst (doAdd r data))) = dead r.
Proof.
  unfold doAdd.
  assert (Hbody : forall r2 d2,
             dead (fst (fst (doAdd_body r2 d2))) = dead r2).
  { intros r2 d2. unfold doAdd_body.
    destruct (State_eqb (state r2) BINARYBODY).
    - destruct (_ <=? _); [rewrite dead_parse |]; reflexivity.
    - destruct (negb _); [rewrite dead_parse |]; reflexivity. }
  assert (Hlen : forall r1 d1,
             dead (fst (if State_eqb (state r1) BINARYLENGTH
                        then doAdd_length r1 d1 else (r1, d1))) = dead r1).
  { intros r1 d1. destruct (State_eqb (state r1) BINARYLENGTH);
      [| reflexivity].
    unfold doAdd_length.
    destruct (scan_length d1 (messageEnd r1) 0) as [m i].
    destruct (i <? length d1); reflexivity. }
  destruct (State_eqb (state r) EMPTY).
  - unfold doAdd_empty, error.
    destruct (_ && _); [cbn [fst]; apply dead_reset |].
    destruct (get_is data 0 128).
    + specialize (Hlen (set_state (set_messageEnd r 0) BINARYLENGTH)
                    (slice data 1)).
      destruct (if State_eqb _ BINARYLENGTH then _ else _) as [r2 d2].
      rewrite Hbody. exact Hlen.
    + destruct (negb (get_is data 0 0)); [cbn [fst]; apply dead_reset |].
      specialize (Hlen (set_state r BODY) (slice data 1)).
      destruct (if State_eqb _ BINARYLENGTH then _ else _) as [r2 d2].
      rewrite Hbody. exact Hlen.
  - specialize (Hlen r data).
    destruct (if State_eqb _ BINARYLENGTH then _ else _) as [r2 d2].
    rewrite Hbody. exact Hlen.
Qed.

Lemma dead_add_loop (fuel : nat) :
  forall (r r' : Receiver) (data : Buffer) (ev : list Dispatch)
         (x : option string),
    add_loop fuel r data = Some (r', ev, x) -> dead r' = dead r.
Proof.
  induction fuel as [| fuel IH]; intros r r' data ev x H; [discriminate |].
  cbn [add_loop] in H. pose proof (dead_doAdd r data) as Hd.
  destruct (doAdd r data) as [[r1 ev1] nx]. cbn [fst] in Hd.
  destruct nx as [| tail | e].
  - injection H as <- _ _. exact Hd.
  - destruct (add_loop fuel r1 tail) as [[[r2 ev2] x2] |] eqn:H2;
      [| discriminate].
    injection H as <- _ _. rewrite (IH _ _ _ _ _ H2). exact Hd.
  - injection H as <- _ _. exact Hd.
Qed.

(** X4: the receiver always comes back. Whatever the chunks that a socket
    hands to a receiver that has not been cleaned up, every call of [add]
    returns or throws: the loop [while (data) data = doAdd ()] ends, since
    a round that asks for another one hands on a buffer that is strictly
    shorter. The receiver is not dead afterwards. *)
Theorem add_chunks_returns (cs : list Buffer) (r : Receiver) :
  dead r = false ->
  exists r' ev x, add_chunks r cs = Some (r', ev, x) /\ dead r' = false.
Proof.
  revert r. induction cs as [| c cs IH]; intros r Hr.
  - exists r, [], None. split; [reflexivity | exact Hr].
  - destruct (ReceiverHixieProofs.add_returns r c Hr) as [[[r1 ev1] x1] H1].
    assert (Hd : dead r1 = false)
      by (rewrite (dead_add_loop _ _ _ _ _ _ H1); exact Hr).
    cbn [add_chunks]. rewrite H1. destruct x1 as [e |].
    + exists r1, ev1, (Some e). split; [reflexivity | exact Hd].
    + destruct (IH r1 Hd) as (r2 & ev2 & x2 & H2 & Hd2).
      rewrite H2. exists r2, (ev1 ++ ev2), x2.
      split; [reflexivity | exact Hd2].
Qed.

Lemma add_chunks_returns_witness :
  dead constructor = false /\
  exists r' ev x,
    add_chunks constructor [[0; 104]; [255; 128; 1]; [7; 9; 255; 0]]
    = Some (r', ev, x) /\ dead r' = false.
Proof.
  split; [reflexivity |].
  exact (add_chunks_returns [[0; 104]; [255; 128; 1]; [7; 9; 255; 0]]
           constructor eq_refl).
Defined.

End Hixie76Proofs.

(** * More on the endpoint *)

Module ClientProofs.

Import Endpoint Client EndpointProofs.

(** ** The Host header *)

(** X5: the [Host] header of the upgrade request names a port exactly when the
    URL does. Without a port in the URL the header is the host name alone;
    with one, the header is the host name, a colon and that port as it is
    written, be it the default port of the scheme. [buildHostHeader] called
    with a number leaves the port out exactly when it is 443 for a secure
    connection and 80 for a plain one. *)
Theorem host_header_names_url_port (isSecure : bool) (h : string) :
  h <> "" ->
  host_header isSecure (Some h) None = Some h /\
  (forall p : string,
      p <> "" ->
      host_header isSecure (Some h) (Some p) = Some (h ++ ":" ++ p)%string) /\
  (forall n : Z,
      buildHostHeader isSecure (Some h) (PortNumber n) =
        if n =? (if isSecure then 443 else 80) then Some h
        else Some (h ++ ":" ++ port_text (PortNumber n))%string).
Proof.
  intros Hh. unfold host_header, buildHostHeader, client_port.
  destruct (string_dec h ""); [congruence |]. split; [| split].
  - destruct isSecure; reflexivity.
  - intros p Hp. destruct (string_dec p ""); [congruence |].
    destruct isSecure; reflexivity.
  - intros n'. destruct isSecure; simpl; destruct (n' =? _); reflexivity.
Qed.

Lemma host_header_names_url_port_witness :
  "example.com" <> "" /\
  host_header true (Some "example.com") (Some "443")
  = Some "example.com:443".
Proof.
  split; [discriminate |].
  apply (proj1 (proj2 (host_header_names_url_port true "example.com"
                         ltac:(discriminate))) "443").
  discriminate.
Defined.

(** ** The W3C close event *)

(** X6: the W3C close event. The event that a listener set through
    [addEventListener] or [onclose] gets when [cleanupWebsocketResources]
    closes the endpoint is clean exactly when there was no error, the close
    frame of the peer was received, and the code reported is 1000. The
    ['close'] that the upgrade listener emits for a client closed before it
    was connected is clean, with no code. *)
Theorem close_event_is_clean (s : WebSocket) (error : bool) :
  readyState s <> CLOSED ->
  (exists ev,
      onClose (effects_of (cleanupWebsocketResources error s)) = [ev] /\
      code ev = Some (if error || negb (_closeReceived s) then 1006
                      else code_or (_closeCode s) 1000) /\
      (wasClean ev = true <->
       error = false /\ _closeReceived s = true /\
       code_or (_closeCode s) 1000 = 1000)) /\
  (forall refused deflate,
      req_once_upgrade s = true ->
      onClose (effects_of (req_onupgrade refused deflate
                             (set_readyState CLOSED s)))
      = [{| wasClean := true; code := None; reason := None |}]).
Proof.
  intros Hs. split.
  - case_state s. simpl in Hs.
    destruct rs; try congruence;
      destruct error, cr, sk, sd, rc, ex as [[|] |];
      cbv - [code_or message_or Z.eqb]; eexists;
      (split; [reflexivity |]); (split; [reflexivity |]);
      cbv - [code_or message_or Z.eqb];
      try (split; [intros H; discriminate H
                  | intros (H1 & H2 & H3); discriminate]);
      (split; [intros H; apply Z.eqb_eq in H; auto
              | intros (_ & _ & H); apply Z.eqb_eq; exact H]).
  - intros refused deflate Hu. case_state s. simpl in Hu. subst ru.
    reflexivity.
Qed.

Lemma close_event_is_clean_witness :
  readyState (state_of (initAsServerClient false)) <> CLOSED /\
  exists ev,
    onClose (effects_of (cleanupWebsocketResources false
                           (state_of (initAsServerClient false)))) = [ev] /\
    code ev = Some 1006 /\
    (wasClean ev = true <->
     false = false /\ false = true /\ 1000 = 1000).
Proof.
  split; [discriminate |].
  exact (proj1 (close_event_is_clean
                  (state_of (initAsServerClient false)) false
                  ltac:(discriminate))).
Defined.

(** ** The bytes that came with the upgrade *)

Lemma realHandler_adds (n : Z) (s : WebSocket) :
  _receiver s = true ->
  realHandler n s =
    (Normal tt, set_bytesReceived (bytesReceived s + n) s, [Receiver_add n]).
Proof.
  intros Hr. case_state s. simpl in Hr. subst rc. reflexivity.
Qed.

Lemma set_bytesReceived_twice (a b : Z) (s : WebSocket) :
  set_bytesReceived b (set_bytesReceived a s) = set_bytesReceived b s.
Proof. reflexivity. Qed.

Lemma set_bytesReceived_same (s : WebSocket) :
  set_bytesReceived (bytesReceived s) s = s.
Proof. case_state s. reflexivity. Qed.

Lemma total_app (a b : list Z) : total (a ++ b) = total a + total b.
Proof.
  unfold total. induction a as [| x a IH]; cbn [app fold_right]; lia.
Qed.

(** Once [firstHandler] has run, a chunk goes to [realHandler] and a tick
    does nothing. *)
Lemma inputs_after_first (ins : list Input) :
  forall (dp : DataPath) (s : WebSocket),
    called dp = true -> real_listens dp = true ->
    _receiver s = true ->
    inputs dp ins s =
      (dp, set_bytesReceived (bytesReceived s + total (chunk_lengths ins)) s,
       map Receiver_add (chunk_lengths ins)).
Proof.
  induction ins as [| i ins IH]; intros dp s Hc Hl Hr.
  - cbn [inputs chunk_lengths flat_map map]. unfold total. cbn [fold_right].
    rewrite Z.add_0_r, set_bytesReceived_same. reflexivity.
  - cbn [inputs]. destruct i as [| n].
    + cbn [input]. unfold firstHandler. rewrite Hc. cbn [orb].
      unfold ret. rewrite (IH dp s Hc Hl Hr). reflexivity.
    + cbn [input]. rewrite Hl, (realHandler_adds n s Hr).
      rewrite (IH dp _ Hc Hl) by exact Hr.
      rewrite set_bytesReceived_twice.
      change (chunk_lengths (Chunk n :: ins)) with ([n] ++ chunk_lengths ins).
      rewrite total_app.
      change (bytesReceived (set_bytesReceived (bytesReceived s + n) s))
        with (bytesReceived s + n).
      replace (bytesReceived s + n + total (chunk_lengths ins))
        with (bytesReceived s + (total [n] + total (chunk_lengths ins)))
        by (unfold total; cbn [fold_right]; lia).
      reflexivity.
Qed.

(** The first call of [firstHandler] on an endpoint that is not CLOSED. *)
Lemma firstHandler_first (head data : option Z) (s : WebSocket) :
  readyState s <> CLOSED ->
  _receiver s = true ->
  firstHandler (new_DataPath head) data s =
    ({| called := true;
        upgradeHead := match head_length head with
                       | [] => head
                       | _ => None
                       end;
        real_listens := true |},
     (Normal tt,
      set_bytesReceived
        (bytesReceived s
         + total (head_length head
                  ++ match data with Some n => [n] | None => [] end)) s,
      map Receiver_add
        (head_length head
         ++ match data with Some n => [n] | None => [] end))).
Proof.
  intros Hs Hr. apply rs_eqb_neq in Hs.
  unfold firstHandler, new_DataPath. cbn [called upgradeHead].
  rewrite Hs. cbn [orb]. unfold head_length.
  assert (Hret : forall s', ret tt s' = (Normal tt, s', [])) by reflexivity.
  assert (Hr' : forall a, _receiver (set_bytesReceived a s) = true)
    by (intros a; case_state s; exact Hr).
  destruct head as [h |]; [destruct (0 <? h) |]; destruct data as [n |];
    rewrite ?(realHandler_adds _ s Hr);
    rewrite ?(realHandler_adds _ _ (Hr' _));
    rewrite ?Hret;
    rewrite ?set_bytesReceived_twice;
    unfold total; cbn [app fold_right map];
    rewrite ?Z.add_0_r; rewrite ?set_bytesReceived_same;
    try reflexivity.
  change (bytesReceived (set_bytesReceived (bytesReceived s + h) s))
    with (bytesReceived s + h).
  rewrite Z.add_assoc. reflexivity.
Qed.

(** X7: the bytes that came with the upgrade go to the receiver first.
    Whatever comes first of the tick and the chunks of the socket, on an
    endpoint that is not CLOSED the receiver is given the upgrade head, if it
    is not empty, and then the chunks in the order they arrive, each once;
    [bytesReceived] grows by their lengths and nothing else changes. (What
    the receiver calls back for these bytes is an event of its own.) *)
Theorem upgrade_head_goes_first (head : option Z) (ins : list Input)
  (s : WebSocket) :
  readyState s <> CLOSED ->
  _receiver s = true ->
  ins <> [] ->
  inputs (new_DataPath head) ins s =
    ({| called := true;
        upgradeHead := match head_length head with
                       | [] => head
                       | _ => None
                       end;
        real_listens := true |},
     set_bytesReceived
       (bytesReceived s + total (head_length head ++ chunk_lengths ins)) s,
     map Receiver_add (head_length head ++ chunk_lengths ins)).
Proof.
  intros Hs Hr Hne. destruct ins as [| i ins]; [congruence |].
  cbn [inputs].
  assert (Hin : input (new_DataPath head) i s =
                firstHandler (new_DataPath head)
                  match i with Chunk n => Some n | Tick => None end s)
    by (destruct i; reflexivity).
  rewrite Hin, (firstHandler_first head _ s Hs Hr).
  rewrite inputs_after_first by (try reflexivity; exact Hr).
  rewrite set_bytesReceived_twice.
  change (bytesReceived (set_bytesReceived ?x s)) with x.
  assert (Hl : chunk_lengths (i :: ins) =
               match i with Chunk n => [n] | Tick => [] end
               ++ chunk_lengths ins) by (destruct i; reflexivity).
  rewrite Hl, <- map_app, <- app_assoc, !total_app.
  destruct i; cbn [total fold_right]; rewrite <- !Z.add_assoc; reflexivity.
Qed.

Lemma upgrade_head_goes_first_witness :
  readyState (state_of (initAsServerClient false)) <> CLOSED /\
  _receiver (state_of (initAsServerClient false)) = true /\
  [Chunk 5; Tick; Chunk 7] <> [] /\
  snd (inputs (new_DataPath (Some 3)) [Chunk 5; Tick; Chunk 7]
              (state_of (initAsServerClient false)))
  = [Receiver_add 3; Receiver_add 5; Receiver_add 7].
Proof.
  split; [discriminate |]. split; [reflexivity |]. split; [discriminate |].
  rewrite (upgrade_head_goes_first (Some 3) [Chunk 5; Tick; Chunk 7]
             (state_of (initAsServerClient false)));
    [reflexivity | discriminate | reflexivity | discriminate].
Defined.

End ClientProofs.

(** * The endpoint over its runs *)

Module RunProofs.

Import Endpoint Client EndpointProofs.

(** ** Operations that only work on the queue *)

Section OnlyQueue.

Variable f : Effect -> bool.
Variable P : WebSocket -> Prop.

Hypothesis P_set_queue : forall q s, P s -> P (set_queue q s).
Hypothesis send_only_queue :
  forall d o cb s, P s -> only_queue f (send d o cb s) s.
Hypothesis stream_only_queue :
  forall o cb s, P s -> only_queue f (stream o cb s) s.

Lemma only_queue_same (o : Outcome unit) (s : WebSocket) (t : list Effect) :
  filter f t = [] -> only_queue f (o, s, t) s.
Proof.
  intros Ht. split; [exists (_queue s); case_state s; reflexivity | exact Ht].
Qed.

Lemma only_queue_bind (m : M unit) (k : unit -> M unit) (s : WebSocket) :
  P s ->
  only_queue f (m s) s ->
  (forall a s1, P s1 -> only_queue f (k a s1) s1) ->
  only_queue f (bind m k s) s.
Proof.
  intros HP [[q Hq] Ht] Hk. unfold bind.
  destruct (m s) as [[[a | e] s1] t1]; unfold state_of, effects_of in *;
    cbn [fst snd] in *.
  - subst s1. specialize (Hk a _ (P_set_queue q s HP)).
    destruct (k a (set_queue q s)) as [[o s2] t2].
    destruct Hk as [[q2 Hq2] Ht2]. unfold state_of, effects_of in *.
    cbn [fst snd] in *. subst s2. split.
    + exists q2. reflexivity.
    + unfold effects_of. cbn [fst snd].
      rewrite filter_app, Ht, Ht2. reflexivity.
  - split; [exists q; assumption | assumption].
Qed.

Lemma only_queue_try_catch (m : M unit) (h : string -> M unit)
  (s : WebSocket) :
  P s ->
  only_queue f (m s) s ->
  (forall e s1, P s1 -> only_queue f (h e s1) s1) ->
  only_queue f (try_catch m h s) s.
Proof.
  intros HP [[q Hq] Ht] Hh. unfold try_catch.
  destruct (m s) as [[[a | e] s1] t1]; unfold state_of, effects_of in *;
    cbn [fst snd] in *.
  - split; [exists q; assumption | assumption].
  - subst s1. specialize (Hh e _ (P_set_queue q s HP)).
    destruct (h e (set_queue q s)) as [[o s2] t2].
    destruct Hh as [[q2 Hq2] Ht2]. unfold state_of, effects_of in *.
    cbn [fst snd] in *. subst s2. split.
    + exists q2. reflexivity.
    + unfold effects_of. cbn [fst snd].
      rewrite filter_app, Ht, Ht2. reflexivity.
Qed.

Lemma call_all_only_queue (q : list Queued) (s : WebSocket) :
  P s -> only_queue f (call_all q s) s.
Proof.
  revert s. induction q as [| x q IH]; intros s HP.
  - apply only_queue_same. reflexivity.
  - cbn [call_all]. apply only_queue_bind; [exact HP | |].
    + destruct x; [apply send_only_queue | apply stream_only_queue]; exact HP.
    + intros _ s1 HP1. apply IH. exact HP1.
Qed.

Lemma executeQueueSends_only_queue (s : WebSocket) :
  P s -> only_queue f (executeQueueSends s) s.
Proof.
  intros HP. unfold executeQueueSends. rewrite bind_this.
  destruct (_queue s) as [q |] eqn:Hq.
  - apply only_queue_bind; [exact HP | |].
    + split; [exists None; reflexivity | reflexivity].
    + intros _ s1 HP1. apply call_all_only_queue. exact HP1.
  - apply only_queue_same. reflexivity.
Qed.

End OnlyQueue.

Lemma filter_none_weaken (f g : Effect -> bool) (t : list Effect) :
  (forall x, g x = true -> f x = true) ->
  filter f t = [] -> filter g t = [].
Proof.
  intros Hfg. induction t as [| x t IH]; [reflexivity |].
  cbn [filter]. destruct (g x) eqn:Hg.
  - rewrite (Hfg x Hg). discriminate.
  - destruct (f x); [discriminate | exact IH].
Qed.

Lemma send_never_queued (d : Data) (o : OptArg) (cb : option Callback)
  (s : WebSocket) : only_queue never_queued (send d o cb s) s.
Proof.
  case_state s. unfold only_queue, send.
  set (d' := if data_falsy d then DString "" else d). clearbody d'.
  destruct o as [| g | o], cb as [g' |], rs, qu as [q |], ex as [[|] |], d';
    cbv - [app]; (split; [eexists; reflexivity | reflexivity]).
Qed.

Lemma stream_never_queued (o : OptArg) (cb : option Callback)
  (s : WebSocket) : only_queue never_queued (stream o cb s) s.
Proof.
  case_state s. unfold only_queue.
  destruct o as [| g | o], cb as [g' |], rs, qu as [q |], ex as [[|] |];
    cbv - [app]; (split; [eexists; reflexivity | reflexivity]).
Qed.

Lemma send_no_frame (d : Data) (o : OptArg) (cb : option Callback)
  (s : WebSocket) :
  readyState s <> OPEN -> only_queue is_frame (send d o cb s) s.
Proof.
  case_state s. unfold only_queue, send. cbn [readyState]. intros Hs.
  destruct o as [| g | o], cb as [g' |], rs; try congruence;
    cbv - [app]; (split; [eexists; reflexivity | reflexivity]).
Qed.

Lemma stream_no_frame (o : OptArg) (cb : option Callback) (s : WebSocket) :
  readyState s <> OPEN -> only_queue is_frame (stream o cb s) s.
Proof.
  case_state s. unfold only_queue. cbn [readyState]. intros Hs.
  destruct o as [| g | o], cb as [g' |], rs; try congruence;
    cbv - [app]; (split; [eexists; reflexivity | reflexivity]).
Qed.

Lemma not_OPEN_set_queue (q : option (list Queued)) (s : WebSocket) :
  readyState s <> OPEN -> readyState (set_queue q s) <> OPEN.
Proof. case_state s. exact (fun H => H). Qed.

Lemma stream_send_never_queued (o : Options) (cb : Callback) (d : Data)
  (g : Flag) (s : WebSocket) :
  only_queue never_queued (stream_send o cb d g s) s.
Proof.
  unfold stream_send.
  apply (only_queue_try_catch never_queued (fun _ => True));
    [auto | exact I | |].
  - rewrite bind_this.
    destruct (negb (rs_eqb (readyState s) OPEN)).
    + apply only_queue_same. reflexivity.
    + apply (only_queue_bind never_queued (fun _ => True));
        [auto | exact I | |].
      * apply only_queue_same. reflexivity.
      * intros _ s1 _. destruct (falsy g).
        -- apply only_queue_same. reflexivity.
        -- apply (executeQueueSends_only_queue never_queued (fun _ => True));
             auto using send_never_queued, stream_never_queued.
  - intros e s1 _. apply only_queue_same. reflexivity.
Qed.

Lemma stream_send_no_frame (o : Options) (cb : Callback) (d : Data)
  (g : Flag) (s : WebSocket) :
  readyState s <> OPEN -> only_queue is_frame (stream_send o cb d g s) s.
Proof.
  case_state s. unfold only_queue. cbn [readyState]. intros Hs.
  destruct rs; try congruence;
    cbv - [app]; (split; [eexists; reflexivity | reflexivity]).
Qed.

Lemma queue_event_never_queued (e : Event) (s : WebSocket) :
  queue_event e = true -> only_queue never_queued (handle e s) s.
Proof.
  destruct e; simpl; try discriminate; intros _.
  - apply send_never_queued.
  - apply stream_never_queued.
  - apply stream_send_never_queued.
  - apply (executeQueueSends_only_queue never_queued (fun _ => True));
      auto using send_never_queued, stream_never_queued.
Qed.

Lemma queue_event_no_frame (e : Event) (s : WebSocket) :
  queue_event e = true -> readyState s <> OPEN ->
  only_queue is_frame (handle e s) s.
Proof.
  destruct e; simpl; try discriminate; intros _ Hs.
  - apply send_no_frame, Hs.
  - apply stream_no_frame, Hs.
  - apply stream_send_no_frame, Hs.
  - apply (executeQueueSends_only_queue is_frame
             (fun s => readyState s <> OPEN));
      auto using send_no_frame, stream_no_frame, not_OPEN_set_queue.
Qed.

(** ** What one event does *)

Lemma close_frame_last_none (t : list Effect) :
  filter is_close_frame t = [] -> close_frame_last t = true.
Proof.
  induction t as [| x t IH]; [reflexivity |].
  cbn [filter close_frame_last]. destruct (is_close_frame x);
    [discriminate | exact IH].
Qed.

Lemma existsb_none (f : Effect -> bool) (t : list Effect) :
  filter f t = [] -> existsb f t = false.
Proof.
  induction t as [| x t IH]; [reflexivity |].
  cbn [filter existsb]. destruct (f x); [discriminate | exact IH].
Qed.

(** What one event does to the frames, to the ready state, to the ['open']
    events and to the close code. *)
Definition step_facts (e : Event) (s : WebSocket) : Prop :=
  let r := handle e s in
  close_frame_last (effects_of r) = true /\
  (readyState s <> OPEN -> frames (effects_of r) = []) /\
  (existsb is_close_frame (effects_of r) = true ->
   readyState (state_of r) = CLOSING) /\
  ReadyState_index (readyState s)
  <= ReadyState_index (readyState (state_of r)) /\
  open_events (effects_of r) =
    (if rs_eqb (readyState s) CONNECTING
        && rs_eqb (readyState (state_of r)) OPEN
     then [Emit_open] else []) /\
  (_closeReceived s = true -> _closeReceived (state_of r) = true) /\
  (readyState s = CLOSING -> readyState (state_of r) = CLOSING ->
   _closeCode (state_of r) = _closeCode s /\
   _closeMessage (state_of r) = _closeMessage s).

Lemma step_facts_queue (e : Event) (s : WebSocket) :
  queue_event e = true -> step_facts e s.
Proof.
  intros He. unfold step_facts. cbv zeta.
  destruct (queue_event_never_queued e s He) as [[q Hq] Ht].
  assert (Hc : filter is_close_frame (effects_of (handle e s)) = [])
    by (revert Ht; apply filter_none_weaken; intros x Hx;
        unfold never_queued; rewrite Hx; reflexivity).
  assert (Ho : filter is_open (effects_of (handle e s)) = [])
    by (revert Ht; apply filter_none_weaken; intros x Hx;
        unfold never_queued; rewrite Hx; apply orb_true_r).
  split; [apply close_frame_last_none, Hc |].
  split; [intros Hs; apply (queue_event_no_frame e s He Hs) |].
  split; [rewrite (existsb_none _ _ Hc); discriminate |].
  unfold open_events. rewrite Ho, Hq. case_state s. cbn.
  split; [lia |]. split; [destruct rs; reflexivity |]. auto.
Qed.

Lemma step_facts_other (e : Event) (s : WebSocket) :
  queue_event e = false -> consistent s -> step_facts e s.
Proof.
  intros He. case_state s. unfold step_facts, consistent. cbn [readyState
    _closeReceived req_once_upgrade _socket _sender _receiver extensions].
  intros (H1 & H2 & H3 & H4 & H5).
  destruct e; simpl in He; try discriminate; clear He;
    destruct rs; by_cases; repeat split; intros; use_facts;
    try contradiction.
Qed.

Lemma step_facts_hold (e : Event) (s : WebSocket) :
  consistent s -> step_facts e s.
Proof.
  intros Hs. destruct (queue_event e) eqn:He;
    [apply step_facts_queue | apply step_facts_other]; assumption.
Qed.

(** ** Runs *)

Lemma fresh_consistent (s : WebSocket) : fresh s -> consistent s.
Proof.
  intros [[d H] | H]; subst s; cbv; repeat split; intros; use_facts.
Qed.

Lemma run_app (es1 es2 : list Event) (s : WebSocket) :
  run (es1 ++ es2) s =
    (fst (run es2 (fst (run es1 s))),
     snd (run es1 s) ++ snd (run es2 (fst (run es1 s)))).
Proof.
  revert s. induction es1 as [| e es1 IH]; intros s.
  - cbn [app run fst snd]. destruct (run es2 s). reflexivity.
  - cbn [app]. rewrite !run_cons, IH. cbn [fst snd].
    rewrite app_assoc. reflexivity.
Qed.

Lemma index_run (es : list Event) (s : WebSocket) :
  consistent s ->
  ReadyState_index (readyState s)
  <= ReadyState_index (readyState (fst (run es s))).
Proof.
  revert s. induction es as [| e es IH]; intros s Hs.
  - cbn [run fst]. lia.
  - rewrite run_cons. cbn [fst].
    destruct (step_facts_hold e s Hs) as (_ & _ & _ & Hi & _).
    specialize (IH _ (consistent_step e s Hs)). lia.
Qed.

(** X8: [readyState] only advances. In every run of a server endpoint or of a
    client, the index of the ready state (CONNECTING 0, OPEN 1, CLOSING 2,
    CLOSED 3) never goes down as further events are handled. *)
Theorem readyState_only_advances (s0 : WebSocket) (es1 es2 : list Event) :
  fresh s0 ->
  ReadyState_index (readyState (fst (run es1 s0)))
  <= ReadyState_index (readyState (fst (run (es1 ++ es2) s0))).
Proof.
  intros H0. rewrite run_app. cbn [fst].
  apply index_run, consistent_run, fresh_consistent, H0.
Qed.

Lemma readyState_only_advances_witness :
  fresh initAsClient /\
  ReadyState_index
    (readyState (fst (run [Request_upgrade None false] initAsClient)))
  <= ReadyState_index
       (readyState
          (fst (run ([Request_upgrade None false]
                     ++ [Call_close None None None false; Socket_on_end])
                    initAsClient))).
Proof.
  split; [right; reflexivity |].
  apply (readyState_only_advances initAsClient). right. reflexivity.
Defined.

(** *** Frames *)

Lemma frames_app (t1 t2 : list Effect) :
  frames (t1 ++ t2) = frames t1 ++ frames t2.
Proof. apply filter_app. Qed.

Lemma open_events_app (t1 t2 : list Effect) :
  open_events (t1 ++ t2) = open_events t1 ++ open_events t2.
Proof. apply filter_app. Qed.

Lemma past_OPEN_run (es : list Event) (s : WebSocket) :
  consistent s ->
  readyState s = CLOSING \/ readyState s = CLOSED ->
  readyState (fst (run es s)) = CLOSING \/
  readyState (fst (run es s)) = CLOSED.
Proof.
  intros Hc Hs. pose proof (index_run es s Hc) as Hi.
  destruct Hs as [Hs | Hs]; rewrite Hs in Hi;
    destruct (readyState (fst (run es s))); cbn in Hi; auto; lia.
Qed.

Lemma no_frame_past_OPEN (es : list Event) (s : WebSocket) :
  consistent s ->
  readyState s = CLOSING \/ readyState s = CLOSED ->
  frames (snd (run es s)) = [].
Proof.
  revert s. induction es as [| e es IH]; intros s Hc Hs; [reflexivity |].
  rewrite run_cons. cbn [snd]. rewrite frames_app.
  destruct (step_facts_hold e s Hc) as (_ & Hf & _).
  rewrite Hf by (destruct Hs as [Hs | Hs]; rewrite Hs; discriminate).
  apply IH; [apply consistent_step, Hc |].
  pose proof (past_OPEN_run [e] s Hc Hs) as Hp.
  rewrite run_cons in Hp. exact Hp.
Qed.

(** X9: frames are handed to the Sender by an OPEN endpoint only. In every run
    of a server endpoint or of a client, an event that finds the endpoint in
    another state than OPEN hands no frame to the Sender, whatever the event
    (a call, a chunk of a stream that is being sent, the replay of the queue,
    a ping of the peer); and once the endpoint is CLOSING or CLOSED no later
    event does. *)
Theorem frames_only_when_OPEN (s0 : WebSocket) (es1 es2 : list Event) :
  fresh s0 ->
  let s := fst (run es1 s0) in
  (forall e : Event,
      readyState s <> OPEN -> frames (effects_of (handle e s)) = []) /\
  (readyState s = CLOSING \/ readyState s = CLOSED ->
   frames (snd (run es2 s)) = []).
Proof.
  intros H0. cbv zeta.
  pose proof (consistent_run es1 s0 (fresh_consistent s0 H0)) as Hc.
  split.
  - intros e Hs. destruct (step_facts_hold e _ Hc) as (_ & Hf & _).
    apply Hf, Hs.
  - apply no_frame_past_OPEN, Hc.
Qed.

Lemma frames_only_when_OPEN_witness :
  fresh (state_of (initAsServerClient false)) /\
  frames
    (snd (run [Call_ping (DString "x") None FUndefined;
               Call_send (DString "late") OAbsent (Some 1%nat);
               Receiver_ping (DString "p") FUndefined;
               Tick_executeQueueSends]
              (fst (run [Call_stream OAbsent (Some 2%nat);
                         Call_send (DString "queued") OAbsent None;
                         Call_terminate false]
                        (state_of (initAsServerClient false)))))) = [].
Proof.
  split; [left; exists false; reflexivity |].
  apply (frames_only_when_OPEN (state_of (initAsServerClient false))
           [Call_stream OAbsent (Some 2%nat);
            Call_send (DString "queued") OAbsent None;
            Call_terminate false]).
  - left. exists false. reflexivity.
  - left. reflexivity.
Defined.

(** *** The close frame *)

Lemma no_frames_forallb (t : list Effect) :
  forallb (fun x => negb (is_frame x)) t = true <-> frames t = [].
Proof.
  induction t as [| x t IH]; [split; reflexivity |].
  cbn [forallb frames filter]. destruct (is_frame x); cbn [negb andb].
  - split; discriminate.
  - exact IH.
Qed.

Lemma close_frame_last_app (t1 t2 : list Effect) :
  close_frame_last (t1 ++ t2) =
    if existsb is_close_frame t1
    then close_frame_last t1 && forallb (fun x => negb (is_frame x)) t2
    else close_frame_last t2.
Proof.
  induction t1 as [| x t1 IH]; [reflexivity |].
  cbn [app close_frame_last existsb]. destruct (is_close_frame x).
  - cbn [orb]. apply forallb_app.
  - cbn [orb]. exact IH.
Qed.

Lemma close_frame_last_split (t t1 t2 : list Effect) (x : Effect) :
  close_frame_last t = true ->
  t = t1 ++ x :: t2 ->
  is_close_frame x = true ->
  frames t2 = [].
Proof.
  intros Ht E Hx. subst t. induction t1 as [| y t1 IH].
  - cbn [app close_frame_last] in Ht. rewrite Hx in Ht.
    apply no_frames_forallb, Ht.
  - cbn [app close_frame_last] in Ht. destruct (is_close_frame y).
    + rewrite forallb_app in Ht. apply andb_prop in Ht. destruct Ht as [_ Ht].
      cbn [forallb] in Ht. apply andb_prop in Ht. destruct Ht as [_ Ht].
      apply no_frames_forallb, Ht.
    + apply IH, Ht.
Qed.

Lemma close_frame_last_run (es : list Event) (s : WebSocket) :
  consistent s ->
  close_frame_last (snd (run es s)) = true /\
  (existsb is_close_frame (snd (run es s)) = true ->
   readyState (fst (run es s)) = CLOSING \/
   readyState (fst (run es s)) = CLOSED).
Proof.
  revert s. induction es as [| e es IH]; intros s Hc.
  - split; [reflexivity | discriminate].
  - rewrite run_cons. cbn [fst snd].
    destruct (step_facts_hold e s Hc) as (Hl & _ & Hx & _).
    pose proof (consistent_step e s Hc) as Hc1.
    destruct (IH _ Hc1) as [IH1 IH2].
    rewrite close_frame_last_app, existsb_app.
    destruct (existsb is_close_frame (effects_of (handle e s))) eqn:Hex.
    + specialize (Hx eq_refl). split.
      * rewrite Hl. cbn [andb]. apply no_frames_forallb.
        apply no_frame_past_OPEN; auto.
      * intros _. apply past_OPEN_run; auto.
    + split; [exact IH1 | exact IH2].
Qed.

(** X10: the close frame is the last frame. In every run of a server endpoint
    or of a client, no frame is handed to the Sender after a close frame, so
    that there is one close frame at most, and the endpoint that has sent it
    is CLOSING or CLOSED. *)
Theorem close_frame_is_last (s0 : WebSocket) (es : list Event)
  (t1 t2 : list Effect) (code : option Z) (data : option string)
  (mask : bool) :
  fresh s0 ->
  snd (run es s0) = t1 ++ Sender_close code data mask :: t2 ->
  frames t2 = [] /\
  (readyState (fst (run es s0)) = CLOSING \/
   readyState (fst (run es s0)) = CLOSED).
Proof.
  intros H0 E.
  destruct (close_frame_last_run es s0 (fresh_consistent s0 H0)) as [H1 H2].
  split.
  - apply (close_frame_last_split _ _ _ _ H1 E). reflexivity.
  - apply H2. rewrite E, existsb_app. cbn [existsb is_close_frame].
    apply orb_true_r.
Qed.

Lemma close_frame_is_last_witness :
  fresh (state_of (initAsServerClient false)) /\
  frames [Call_cb 1%nat (Some "not opened")] = [] /\
  (readyState
     (fst (run [Call_send (DString "a") OAbsent None;
                Receiver_close (Some 1001) (Some "away") None false;
                Call_send (DString "b") OAbsent (Some 1%nat)]
               (state_of (initAsServerClient false)))) = CLOSING \/
   readyState
     (fst (run [Call_send (DString "a") OAbsent None;
                Receiver_close (Some 1001) (Some "away") None false;
                Call_send (DString "b") OAbsent (Some 1%nat)]
               (state_of (initAsServerClient false)))) = CLOSED).
Proof.
  split; [left; exists false; reflexivity |].
  apply (close_frame_is_last (state_of (initAsServerClient false))
           [Call_send (DString "a") OAbsent None;
            Receiver_close (Some 1001) (Some "away") None false;
            Call_send (DString "b") OAbsent (Some 1%nat)]
           [Sender_send (DString "a")
              {| mask := Some false; binary := Some false;
                 compress := Some false; fin := Some true |} None]
           [Call_cb 1%nat (Some "not opened")]
           (Some 1001) (Some "away") false).
  - left. exists false. reflexivity.
  - reflexivity.
Defined.

(** *** The ['open'] event *)

Lemma no_open_past_CONNECTING (es : list Event) (s : WebSocket) :
  consistent s ->
  readyState s <> CONNECTING ->
  open_events (snd (run es s)) = [].
Proof.
  revert s. induction es as [| e es IH]; intros s Hc Hs; [reflexivity |].
  rewrite run_cons. cbn [snd]. rewrite open_events_app.
  destruct (step_facts_hold e s Hc) as (_ & _ & _ & Hi & Ho & _).
  rewrite Ho.
  replace (rs_eqb (readyState s) CONNECTING) with false
    by (destruct (readyState s); [congruence | | |]; reflexivity).
  cbn [andb app]. apply IH; [apply consistent_step, Hc |].
  intros E. rewrite E in Hi. destruct (readyState s); cbn in Hi;
    [congruence | lia | lia | lia].
Qed.

Lemma filter_split_one (f : Effect -> bool) (t1 t2 : list Effect)
  (x : Effect) :
  f x = true ->
  filter f (t1 ++ x :: t2) = [x] ->
  filter f t1 = [] /\ filter f t2 = [].
Proof.
  intros Hx E. rewrite filter_app in E. cbn [filter] in E. rewrite Hx in E.
  destruct (filter f t1) as [| a l].
  - cbn [app] in E. split; [reflexivity | congruence].
  - cbn [app] in E. injection E as _ E.
    destruct l; discriminate.
Qed.

Lemma filter_app_nil (f : Effect -> bool) (t1 t2 : list Effect) :
  filter f (t1 ++ t2) = [] -> filter f t1 = [] /\ filter f t2 = [].
Proof.
  rewrite filter_app. intros E. apply app_eq_nil in E. exact E.
Qed.

Lemma open_split_run (es : list Event) (s : WebSocket)
  (t1 t2 : list Effect) :
  consistent s ->
  snd (run es s) = t1 ++ Emit_open :: t2 ->
  readyState s = CONNECTING /\
  frames t1 = [] /\ open_events t1 = [] /\ open_events t2 = [].
Proof.
  revert s t1. induction es as [| e es IH]; intros s t1 Hc E.
  - destruct t1; discriminate.
  - assert (Hs : readyState s = CONNECTING).
    { destruct (rs_eqb (readyState s) CONNECTING) eqn:Hs;
        [apply rs_eqb_eq, Hs |].
      apply rs_eqb_neq in Hs.
      pose proof (no_open_past_CONNECTING (e :: es) s Hc Hs) as Hn.
      rewrite E, open_events_app in Hn. cbn in Hn.
      destruct (open_events t1); discriminate. }
    split; [exact Hs |].
    rewrite run_cons in E. cbn [snd] in E.
    destruct (step_facts_hold e s Hc) as (_ & Hf & _ & _ & Ho & _).
    specialize (Hf ltac:(rewrite Hs; discriminate)).
    rewrite Hs in Ho. cbn [rs_eqb andb] in Ho.
    pose proof (consistent_step e s Hc) as Hc1.
    apply app_eq_app in E. destruct E as [l [[E1 E2] | [E1 E2]]].
    + destruct l as [| x l].
      * (* the step is over before ['open'] *)
        rewrite app_nil_r in E1. cbn [app] in E2. subst t1.
        destruct (IH _ [] Hc1 (eq_sym E2)) as (Hs1 & _ & _ & H3).
        rewrite Hs1 in Ho. cbn in Ho.
        split; [exact Hf |]. split; [exact Ho | exact H3].
      * (* ['open'] is of this step *)
        cbn [app] in E2. injection E2 as Ex E2. subst x.
        rewrite E1 in Ho, Hf.
        destruct (rs_eqb (readyState (state_of (handle e s))) OPEN) eqn:Hs1.
        -- apply rs_eqb_eq in Hs1.
           destruct (filter_split_one is_open t1 l Emit_open eq_refl Ho)
             as [Ha Hb].
           apply filter_app_nil in Hf. destruct Hf as [Hf _].
           split; [exact Hf |]. split; [exact Ha |].
           rewrite E2, open_events_app.
           unfold open_events at 1. rewrite Hb. cbn [app].
           apply no_open_past_CONNECTING; [exact Hc1 |].
           rewrite Hs1. discriminate.
        -- exfalso. unfold open_events in Ho. rewrite filter_app in Ho.
           cbn in Ho. destruct (filter is_open t1); discriminate.
    + destruct (IH _ l Hc1 E2) as (Hs1 & H1 & H2 & H3).
      rewrite Hs1 in Ho. cbn in Ho. subst t1.
      rewrite frames_app, open_events_app, Hf, Ho, H1, H2.
      auto.
Qed.

Lemma CONNECTING_step (e : Event) (s : WebSocket) :
  consistent s ->
  readyState s = CONNECTING ->
  readyState (state_of (handle e s)) <> CLOSING.
Proof.
  destruct (queue_event e) eqn:He.
  - destruct (queue_event_queue_only e s He) as [[q Hq] _]. rewrite Hq.
    case_state s. cbn. congruence.
  - case_state s. unfold consistent. cbn [readyState
      _closeReceived req_once_upgrade _socket _sender _receiver extensions].
    intros (H1 & H2 & H3 & H4 & H5) Hs. subst rs.
    destruct e; simpl in He; try discriminate; clear He;
      by_cases; intros; use_facts.
Qed.

(** X11: ['open'] is emitted once, before any frame. In every run of a server
    endpoint or of a client, an ['open'] event is emitted by an endpoint that
    was made CONNECTING only; no frame has been handed to the Sender before
    it, and no other ['open'] is emitted before or after it. A client that is
    OPEN or CLOSING has emitted it. *)
Theorem open_is_emitted_once (s0 : WebSocket) (es : list Event) :
  fresh s0 ->
  (forall t1 t2 : list Effect,
      snd (run es s0) = t1 ++ Emit_open :: t2 ->
      readyState s0 = CONNECTING /\
      frames t1 = [] /\ open_events t1 = [] /\ open_events t2 = []) /\
  (readyState s0 = CONNECTING ->
   readyState (fst (run es s0)) = OPEN \/
   readyState (fst (run es s0)) = CLOSING ->
   open_events (snd (run es s0)) = [Emit_open]).
Proof.
  intros H0. pose proof (fresh_consistent s0 H0) as Hc. split.
  - intros t1 t2. apply open_split_run, Hc.
  - clear H0. revert s0 Hc. induction es as [| e es IH]; intros s Hc Hs Hf.
    + cbn [run fst] in Hf. rewrite Hs in Hf.
      destruct Hf; discriminate.
    + rewrite run_cons in *. cbn [fst snd] in *.
      rewrite open_events_app.
      destruct (step_facts_hold e s Hc) as (_ & _ & _ & Hi & Ho & _).
      pose proof (consistent_step e s Hc) as Hc1.
      rewrite Ho, Hs. cbn [rs_eqb andb].
      destruct (readyState (state_of (handle e s))) eqn:Hs1; cbn [rs_eqb].
      * cbn [app]. apply IH; auto.
      * rewrite no_open_past_CONNECTING; [reflexivity | exact Hc1 |].
        rewrite Hs1. discriminate.
      * exfalso. apply (CONNECTING_step e s Hc Hs Hs1).
      * exfalso.
        pose proof (past_OPEN_run es _ Hc1 (or_intror Hs1)) as Hp.
        assert (Hcl : readyState (fst (run es (state_of (handle e s))))
                      = CLOSED).
        { destruct (run_from_CLOSED es _ Hs1) as [Hx _]. exact Hx. }
        rewrite Hcl in Hf. destruct Hf; discriminate.
Qed.

Lemma open_is_emitted_once_witness :
  fresh initAsClient /\
  open_events
    (snd (run [Call_ping DUndefined None (FBool true);
               Request_upgrade None true;
               Call_send (DString "hello") OAbsent None;
               Call_close (Some 1000) None None false]
              initAsClient)) = [Emit_open].
Proof.
  split; [right; reflexivity |].
  apply (proj2 (open_is_emitted_once initAsClient
                  [Call_ping DUndefined None (FBool true);
                   Request_upgrade None true;
                   Call_send (DString "hello") OAbsent None;
                   Call_close (Some 1000) None None false]
                  (or_intror eq_refl))).
  - reflexivity.
  - right. reflexivity.
Defined.

(** *** The code of a clean closure *)

Lemma CLOSING_run_keeps_code (es : list Event) (s : WebSocket) :
  consistent s ->
  readyState s = CLOSING ->
  readyState (fst (run es s)) = CLOSING ->
  _closeCode (fst (run es s)) = _closeCode s /\
  _closeMessage (fst (run es s)) = _closeMessage s.
Proof.
  revert s. induction es as [| e es IH]; intros s Hc Hs Hf.
  - split; reflexivity.
  - rewrite run_cons in *. cbn [fst] in *.
    pose proof (consistent_step e s Hc) as Hc1.
    destruct (step_facts_hold e s Hc) as (_ & _ & _ & Hi & _ & _ & Hk).
    pose proof (index_run es _ Hc1) as Hi1.
    rewrite Hs in Hi. rewrite Hf in Hi1.
    assert (Hs1 : readyState (state_of (handle e s)) = CLOSING)
      by (destruct (readyState (state_of (handle e s))); cbn in *;
          try reflexivity; lia).
    destruct (Hk Hs Hs1) as [Hk1 Hk2].
    destruct (IH _ Hc1 Hs1 Hf) as [IH1 IH2].
    split; congruence.
Qed.

(** X12: a clean closure reports the code of the first close. Let an OPEN
    endpoint be closed by [close (code, data)], or by the close frame of the
    peer carrying [code] and [data]. If, whatever happens next, the endpoint
    is still CLOSING and has received the close frame of the peer when the
    socket ends without an error, the ['close'] event carries [code], or 1000
    when there is none, and [data], or the empty string: when the endpoint
    closed first, the code of its own call, whatever code the close frame of
    the peer carried. *)
Theorem clean_closure_reports_first_close (s0 : WebSocket)
  (es0 es : list Event) (first e : Event) (code : option Z)
  (data : option string) (sender_throws : option string)
  (end_throws : bool) :
  fresh s0 ->
  readyState (fst (run es0 s0)) = OPEN ->
  first = Call_close code data sender_throws end_throws \/
  first = Receiver_close code data sender_throws end_throws ->
  let s := fst (run (first :: es) (fst (run es0 s0))) in
  readyState s = CLOSING ->
  _closeReceived s = true ->
  socket_closure e = Some false ->
  close_events (effects_of (handle e s))
  = [Emit_close (Some (code_or code 1000)) (Some (message_or data ""))].
Proof.
  intros H0 Ho Hfirst. cbv zeta. rewrite run_cons.
  cbn [fst]. intros Hs Hr He.
  pose proof (consistent_run es0 s0 (fresh_consistent s0 H0)) as Hc.
  set (s1 := fst (run es0 s0)) in *. clearbody s1. clear s0 es0 H0.
  assert (H1 : readyState (state_of (handle first s1)) = CLOSING /\
               _closeCode (state_of (handle first s1)) = code /\
               _closeMessage (state_of (handle first s1)) = data).
  { case_state s1. cbn in Ho. subst rs.
    destruct Hfirst; subst first; destruct sender_throws; cbn; auto. }
  destruct H1 as (Hs1 & Hk1 & Hm1).
  destruct (CLOSING_run_keeps_code es _ (consistent_step first s1 Hc) Hs1 Hs)
    as [Hk Hm].
  rewrite Hk1 in Hk. rewrite Hm1 in Hm.
  set (s2 := fst (run es (state_of (handle first s1)))) in *. clearbody s2.
  case_state s2. cbn in Hs, Hr, Hk, Hm. subst rs cr cc cm.
  destruct e; try discriminate He;
    try (destruct hadError; try discriminate He);
    destruct sk, sd, rc, ex as [[|] |]; reflexivity.
Qed.

Lemma clean_closure_reports_first_close_witness :
  fresh (state_of (initAsServerClient false)) /\
  close_events
    (effects_of
       (handle Socket_on_end
          (fst (run [Call_close (Some 4000) (Some "mine") None false;
                     Sender_close_done None false;
                     Receiver_close (Some 1001) (Some "theirs") None false]
                    (fst (run [] (state_of (initAsServerClient false))))))))
  = [Emit_close (Some (code_or (Some 4000) 1000))
       (Some (message_or (Some "mine") ""))].
Proof.
  split; [left; exists false; reflexivity |].
  apply (clean_closure_reports_first_close
           (state_of (initAsServerClient false)) []
           [Sender_close_done None false;
            Receiver_close (Some 1001) (Some "theirs") None false]
           (Call_close (Some 4000) (Some "mine") None false)
           Socket_on_end (Some 4000) (Some "mine") None false).
  - left. exists false. reflexivity.
  - reflexivity.
  - left. reflexivity.
  - reflexivity.
  - reflexivity.
  - reflexivity.
Defined.

(** *** What the endpoint holds *)

Lemma released_step (e : Event) (s : WebSocket) :
  consistent s ->
  (readyState s = CONNECTING \/ readyState s = CLOSED -> released s) ->
  readyState (state_of (handle e s)) = CONNECTING \/
  readyState (state_of (handle e s)) = CLOSED ->
  released (state_of (handle e s)).
Proof.
  destruct (queue_event e) eqn:He.
  - destruct (queue_event_queue_only e s He) as [[q Hq] _]. rewrite Hq.
    case_state s. cbn. auto.
  - case_state s. unfold consistent, released. cbn [readyState
      _closeReceived req_once_upgrade _socket _sender _receiver extensions].
    intros (H1 & H2 & H3 & H4 & H5) H6.
    destruct e; simpl in He; try discriminate; clear He;
      destruct rs; by_cases; repeat split; intros; use_facts.
Qed.

Lemma released_run (es : list Event) (s : WebSocket) :
  consistent s ->
  (readyState s = CONNECTING \/ readyState s = CLOSED -> released s) ->
  readyState (fst (run es s)) = CONNECTING \/
  readyState (fst (run es s)) = CLOSED ->
  released (fst (run es s)).
Proof.
  revert s. induction es as [| e es IH]; intros s Hc Hr.
  - exact Hr.
  - rewrite run_cons. cbn [fst]. apply IH.
    + apply consistent_step, Hc.
    + apply released_step; assumption.
Qed.

(** X13: the endpoint holds its socket, its Sender and its Receiver exactly
    while it is OPEN or CLOSING. In every run of a server endpoint or of a
    client, an OPEN or CLOSING endpoint has the three of them, and its
    [extensions], so that no method reads a member of [null]; a CONNECTING or
    CLOSED endpoint has none of the three; and an OPEN endpoint has received
    no close frame and has no upgrade listener left. *)
Theorem endpoint_holds_its_parts (s0 : WebSocket) (es : list Event) :
  fresh s0 ->
  let s := fst (run es s0) in
  (readyState s = OPEN \/ readyState s = CLOSING ->
   _socket s = true /\ _sender s = true /\ _receiver s = true /\
   extensions s <> None) /\
  (readyState s = CONNECTING \/ readyState s = CLOSED -> released s) /\
  (readyState s = OPEN ->
   _closeReceived s = false /\ req_once_upgrade s = false).
Proof.
  intros H0. cbv zeta.
  pose proof (fresh_consistent s0 H0) as Hc0.
  pose proof (consistent_run es s0 Hc0) as (H1 & H2 & _ & H4 & H5).
  split; [| split].
  - intros Hs. destruct (H4 Hs) as (Ha & Hb & Hd).
    repeat split; try assumption.
    intros Hx. apply H5 in Hx. destruct Hs as [Hs | Hs]; congruence.
  - apply released_run; [exact Hc0 |].
    destruct H0 as [[d H0] | H0]; subst s0.
    + intros [Hs | Hs]; discriminate Hs.
    + intros _. repeat split.
  - intros Hs. split.
    + destruct (_closeReceived (fst (run es s0))); [| reflexivity].
      destruct (H1 eq_refl) as [H | H]; congruence.
    + destruct (req_once_upgrade (fst (run es s0))); [| reflexivity].
      destruct (H2 eq_refl) as [H | H]; congruence.
Qed.

Lemma endpoint_holds_its_parts_witness :
  fresh initAsClient /\
  released
    (fst (run [Request_upgrade None false; Call_send DUndefined OAbsent None;
               Call_terminate false; Socket_on_close false]
              initAsClient)).
Proof.
  split; [right; reflexivity |].
  apply (proj1 (proj2 (endpoint_holds_its_parts initAsClient
                         [Request_upgrade None false;
                          Call_send DUndefined OAbsent None;
                          Call_terminate false; Socket_on_close false]
                         (or_intror eq_refl)))).
  right. reflexivity.
Defined.

(** *** A message that is being streamed *)

Lemma no_frame_no_message (t : list Effect) :
  frames t = [] -> filter is_message t = [].
Proof.
  apply filter_none_weaken. intros x Hx. destruct x; try discriminate.
  reflexivity.
Qed.

(** While the queue is installed, an event that does not end the streamed
    message hands no message of its own to the Sender and leaves the queue
    installed. *)
Lemma streaming_step (e : Event) (s : WebSocket) :
  consistent s ->
  readyState s <> CONNECTING ->
  (readyState s = OPEN -> _queue s <> None) ->
  ends_stream e = false ->
  filter is_message (effects_of (handle e s)) = [] /\
  readyState (state_of (handle e s)) <> CONNECTING /\
  (readyState (state_of (handle e s)) = OPEN ->
   _queue (state_of (handle e s)) <> None).
Proof.
  intros Hc Hn Hq He.
  destruct (step_facts_hold e s Hc) as (_ & Hf & _ & Hi & _).
  assert (Hn' : readyState (state_of (handle e s)) <> CONNECTING).
  { intros E. rewrite E in Hi. destruct (readyState s); cbn in Hi;
      try lia; congruence. }
  destruct (rs_eqb (readyState s) OPEN) eqn:Ho.
  - apply rs_eqb_eq in Ho. specialize (Hq Ho).
    split; [| split; [exact Hn' |]]; revert Hq Ho; clear -He;
      case_state s; cbn [readyState _queue]; intros Hq Ho; subst rs;
      (destruct qu as [q |]; [clear Hq | congruence]).
    + destruct e; try discriminate He;
        try (destruct final as [| [|] |]; try discriminate He);
        repeat first [ progress (cbv - [app code_or message_or Z.add])
                     | break_var ];
        reflexivity.
    + destruct e; try discriminate He;
        try (destruct final as [| [|] |]; try discriminate He);
        repeat first [ progress (cbv - [app code_or message_or Z.add])
                     | break_var ];
        intros; discriminate.
  - apply rs_eqb_neq in Ho. specialize (Hf Ho).
    split; [apply no_frame_no_message, Hf |].
    split; [exact Hn' |]. intros Ho'. exfalso.
    rewrite Ho' in Hi. destruct (readyState s); cbn in Hi; try lia;
      congruence.
Qed.

Lemma streaming_run (es : list Event) (s : WebSocket) :
  consistent s ->
  readyState s <> CONNECTING ->
  (readyState s = OPEN -> _queue s <> None) ->
  forallb (fun e => negb (ends_stream e)) es = true ->
  filter is_message (snd (run es s)) = [] /\
  (readyState (fst (run es s)) = OPEN -> _queue (fst (run es s)) <> None).
Proof.
  revert s. induction es as [| e es IH]; intros s Hc Hn Hq Hes.
  - split; [reflexivity | exact Hq].
  - cbn [forallb] in Hes. apply andb_prop in Hes. destruct Hes as [He Hes].
    apply negb_true_iff in He.
    destruct (streaming_step e s Hc Hn Hq He) as (H1 & H2 & H3).
    destruct (IH _ (consistent_step e s Hc) H2 H3 Hes) as [IH1 IH2].
    rewrite run_cons. cbn [fst snd]. rewrite filter_app, H1, IH1.
    split; [reflexivity | exact IH2].
Qed.

(** X14: a streamed message is not interleaved. In every run of a server
    endpoint or of a client, once the queue is installed on an OPEN endpoint
    (by [stream], or by [send] of a readable), and as long as no event ends
    the streamed message, every data frame handed to the Sender is a fragment
    with more to come ([fin] false): no [send] or [stream] call, whenever it
    is made, puts a message of its own between the fragments; and the queue
    stays installed while the endpoint is OPEN. *)
Theorem stream_is_not_interleaved (s0 : WebSocket) (es0 es : list Event) :
  fresh s0 ->
  let s := fst (run es0 s0) in
  readyState s = OPEN ->
  _queue s <> None ->
  forallb (fun e => negb (ends_stream e)) es = true ->
  filter is_message (snd (run es s)) = [] /\
  (readyState (fst (run es s)) = OPEN -> _queue (fst (run es s)) <> None).
Proof.
  intros H0. cbv zeta. intros Ho Hq Hes.
  apply streaming_run.
  - apply consistent_run, fresh_consistent, H0.
  - rewrite Ho. discriminate.
  - intros _. exact Hq.
  - exact Hes.
Qed.

Lemma stream_is_not_interleaved_witness :
  fresh (state_of (initAsServerClient false)) /\
  filter is_message
    (snd (run [Call_stream_send no_options 1%nat (DString "frag")
                 FUndefined;
               Call_send (DString "other") OAbsent None;
               Call_ping DUndefined None FUndefined;
               Call_stream_send no_options 1%nat (DString "ment")
                 (FBool false)]
              (fst (run [Call_stream OAbsent (Some 1%nat)]
                        (state_of (initAsServerClient false)))))) = [].
Proof.
  split; [left; exists false; reflexivity |].
  apply (stream_is_not_interleaved (state_of (initAsServerClient false))
           [Call_stream OAbsent (Some 1%nat)]).
  - left. exists false. reflexivity.
  - reflexivity.
  - discriminate.
  - reflexivity.
Defined.

End RunProofs.

Module SubprotocolProofs.

Import Endpoint Client EndpointProofs.

(** ** The subprotocol of a client *)

Lemma append_assoc (a b c : string) :
  ((a ++ b) ++ c = a ++ (b ++ c))%string.
Proof.
  induction a as [| x a IH]; [reflexivity |]. cbn. rewrite IH. reflexivity.
Qed.

Lemma append_empty (a : string) : (a ++ "")%string = a.
Proof.
  induction a as [| x a IH]; [reflexivity |]. cbn. rewrite IH. reflexivity.
Qed.

(** A piece without a comma is read up to its end. *)
Lemma split_piece_end (p cur : string) :
  has_comma p = false -> split_from false cur p = [(cur ++ p)%string].
Proof.
  revert cur. induction p as [| c p IH]; intros cur Hp.
  - cbn. rewrite append_empty. reflexivity.
  - cbn in Hp. apply orb_false_elim in Hp. destruct Hp as [Hc Hp].
    cbn [split_from andb]. rewrite Hc, (IH _ Hp), append_assoc. reflexivity.
Qed.

(** A piece without a comma is read up to the comma behind it. *)
Lemma split_piece (p cur rest : string) :
  has_comma p = false ->
  split_from false cur (p ++ String "," rest)
  = (cur ++ p)%string :: split_from true "" rest.
Proof.
  revert cur. induction p as [| c p IH]; intros cur Hp.
  - cbn. rewrite append_empty. reflexivity.
  - cbn in Hp. apply orb_false_elim in Hp. destruct Hp as [Hc Hp].
    cbn [append split_from andb]. rewrite Hc, (IH _ Hp), append_assoc.
    reflexivity.
Qed.

Lemma split_from_skip (p rest : string) :
  starts_with_space p = false -> p <> "" ->
  split_from true "" (p ++ rest) = split_from false "" (p ++ rest).
Proof.
  intros Hs Hp. destruct p as [| c p]; [congruence |].
  cbn in Hs. cbn [append split_from]. rewrite Hs. reflexivity.
Qed.

Lemma join_cons (p q : string) (l : list string) :
  join (p :: q :: l) = (p ++ String "," (join (q :: l)))%string.
Proof. reflexivity. Qed.

(** [split] undoes [join]. *)
Lemma split_join (ps : list string) (skip : bool) :
  Forall offerable ps -> ps <> [] ->
  split_from skip "" (join ps) = ps.
Proof.
  intros Hps. revert skip. induction Hps as [| p ps Hp Hps IH];
    intros skip Hne; [congruence |].
  destruct Hp as (Hn & Hc & Hs).
  assert (Hp : p <> "") by (destruct p; [discriminate | congruence]).
  assert (Hskip : forall rest,
             split_from skip "" (p ++ rest) = split_from false "" (p ++ rest))
    by (intros rest; destruct skip;
        [apply split_from_skip; assumption | reflexivity]).
  destruct ps as [| q ps].
  - cbn [join String.concat].
    rewrite <- (append_empty p) at 1. rewrite Hskip, append_empty.
    apply (split_piece_end p "" Hc).
  - rewrite join_cons, Hskip, (split_piece p "" _ Hc).
    cbn [append]. rewrite IH by discriminate. reflexivity.
Qed.

Lemma existsb_eqb_In (x : string) (l : list string) :
  existsb (String.eqb x) l = true <-> In x l.
Proof.
  rewrite existsb_exists. split.
  - intros (y & Hy & E). apply String.eqb_eq in E. subst y. exact Hy.
  - intros H. exists x. split; [exact H | apply String.eqb_refl].
Qed.

Lemma join_nonempty (ps : list string) :
  Forall offerable ps -> ps <> [] -> nonempty (join ps) = true.
Proof.
  intros Hps Hne. destruct Hps as [| p ps (Hn & _) _]; [congruence |].
  destruct p as [| c p]; [discriminate |].
  destruct ps; reflexivity.
Qed.

(** The check of the subprotocol, for a client that offered the
    subprotocols [ps]. *)
Lemma protError_offered (ps : list string) (sp : option string) :
  Forall offerable ps -> ps <> [] ->
  protError (join ps) sp = None <-> exists x, sp = Some x /\ In x ps.
Proof.
  intros Hps Hne. unfold protError, split.
  rewrite (split_join ps false Hps Hne), (join_nonempty ps Hps Hne).
  cbn [negb andb]. destruct sp as [x |]; cbn [truthy].
  - destruct (nonempty x) eqn:Hx; cbn [negb andb].
    + destruct (existsb (String.eqb x) ps) eqn:Hin; cbn [negb].
      * split; [intros _ | reflexivity].
        exists x. split; [reflexivity | apply existsb_eqb_In, Hin].
      * split; [discriminate |]. intros (y & E & Hy). injection E as <-.
        apply existsb_eqb_In in Hy. congruence.
    + split; [discriminate |]. intros (y & E & Hy). injection E as <-.
      rewrite Forall_forall in Hps. destruct (Hps x Hy) as (Hn & _).
      congruence.
  - split; [discriminate |]. intros (y & E & _). discriminate.
Qed.

(** X15: a client that offers subprotocols opens on one of them only. Let a
    client be CONNECTING with its upgrade listener in place, and let it have
    offered the subprotocols [ps], a list that is not empty of names that are
    not empty, have no comma and do not start with a space, so that
    [options.protocol] is [ps.join(',')]. Let [key] be the answer it expects
    to its key. Whatever the server answers, the upgrade listener opens the
    endpoint exactly when the [sec-websocket-accept] header is [key], the
    [sec-websocket-protocol] header is one of [ps], and it is not the case
    that the client offered permessage-deflate, the server took it and
    [accept] throws on the parameters of the server. In every other case the
    listener emits ['error'], removes the listeners and ends the socket, and
    nothing else: the endpoint stays CONNECTING and no ['close'] is emitted.
    The error is 'invalid server key' when the key is not answered as
    expected, and 'invalid extension parameter' when the key and the
    subprotocol are right and [accept] throws. *)
Theorem client_opens_on_an_offered_subprotocol (s : WebSocket)
  (ps : list string) (key : string) (serverKey serverProt : option string)
  (perMessageDeflate serverDeflate accept_throws : bool) :
  readyState s = CONNECTING ->
  req_once_upgrade s = true ->
  Forall offerable ps -> ps <> [] ->
  let r := req_onupgrade
             (upgrade_refusal serverKey key
                (options_protocol (ProtocolsArray ps)) serverProt
                perMessageDeflate serverDeflate accept_throws)
             (perMessageDeflate && serverDeflate) s in
  (readyState (state_of r) = OPEN <->
   serverKey = Some key /\
   (exists x, serverProt = Some x /\ In x ps) /\
   perMessageDeflate && serverDeflate && accept_throws = false) /\
  (readyState (state_of r) <> OPEN ->
   readyState (state_of r) = CONNECTING /\
   exists e,
     effects_of r = [Emit_error e; RemoveAllListeners; Socket_end] /\
     (serverKey <> Some key -> e = "invalid server key") /\
     (serverKey = Some key ->
      (exists x, serverProt = Some x /\ In x ps) ->
      e = "invalid extension parameter")).
Proof.
  intros Hs Hu Hps Hne. cbv zeta.
  pose proof (protError_offered ps serverProt Hps Hne) as Hp.
  unfold upgrade_refusal, options_protocol, protocols_array.
  case_state s. cbn in Hs, Hu. subst rs ru.
  destruct serverKey as [k |].
  - destruct (String.eqb k key) eqn:Hk; cbn [negb].
    + apply String.eqb_eq in Hk. subst k.
      destruct (protError (join ps) serverProt) as [e |].
      * assert (Hno : ~ exists x, serverProt = Some x /\ In x ps)
          by (intros H; apply Hp in H; discriminate).
        cbn. split.
        -- split; [discriminate | intros (_ & H & _); contradiction].
        -- intros _. split; [reflexivity |]. exists e.
           split; [reflexivity |]. split; [congruence | contradiction].
      * assert (Hyes : exists x, serverProt = Some x /\ In x ps)
          by (apply Hp; reflexivity).
        destruct (perMessageDeflate && serverDeflate) eqn:Hd;
          destruct accept_throws; cbn.
        -- split.
           ++ split; [discriminate | intros (_ & _ & H); discriminate].
           ++ intros _. split; [reflexivity |].
              exists "invalid extension parameter".
              split; [reflexivity |]. split; [congruence | reflexivity].
        -- split; [split; auto | congruence].
        -- split; [split; auto | congruence].
        -- split; [split; auto | congruence].
    + assert (Hne' : Some k <> Some key)
        by (intros E; injection E as ->; rewrite String.eqb_refl in Hk;
            discriminate).
      cbn. split.
      * split; [discriminate | intros (H & _); contradiction].
      * intros _. split; [reflexivity |]. exists "invalid server key".
        split; [reflexivity |]. split; [reflexivity | contradiction].
  - cbn. split.
    + split; [discriminate | intros (H & _); discriminate].
    + intros _. split; [reflexivity |]. exists "invalid server key".
      split; [reflexivity |]. split; [reflexivity | discriminate].
Qed.

Lemma client_opens_on_an_offered_subprotocol_witness :
  readyState initAsClient = CONNECTING /\
  req_once_upgrade initAsClient = true /\
  Forall offerable ["chat"; "superchat"] /\
  ["chat"; "superchat"] <> [] /\
  (readyState
     (state_of
        (req_onupgrade
           (upgrade_refusal (Some "k") "k"
              (options_protocol (ProtocolsArray ["chat"; "superchat"]))
              (Some "superchat") true true true)
           (true && true) initAsClient)) = OPEN <->
   Some "k" = Some "k" /\
   (exists x, Some "superchat" = Some x /\ In x ["chat"; "superchat"]) /\
   true && true && true = false).
Proof.
  assert (H : Forall offerable ["chat"; "superchat"])
    by (repeat constructor).
  split; [reflexivity |]. split; [reflexivity |]. split; [exact H |].
  split; [discriminate |].
  exact (proj1 (client_opens_on_an_offered_subprotocol initAsClient
                  ["chat"; "superchat"] "k" (Some "k") (Some "superchat")
                  true true true
                  eq_refl eq_refl H ltac:(discriminate))).
Defined.

End SubprotocolProofs.

(** * Properties of the server *)

Module ServerProofs.

Import Client Server.

(** ** An upgrade ends one way *)

Lemma abortConnection_refused (writable : bool) (code : Z)
  (message : option string) :
  refused writable (abortConnection writable code message).
Proof.
  unfold refused, abortConnection. destruct writable; cbn;
    repeat split; auto; discriminate.
Qed.

Lemma completeHybiUpgrade2_one_way (o : ServerOptions) (req : Request)
  (w : World) (version : Z) (protocol : option string) (writable : bool) :
  sec_websocket_version req = Some version ->
  version = 8 \/ version = 13 ->
  completed o req writable
    (completeHybiUpgrade2 o req w version protocol writable)
  \/ refused writable
       (completeHybiUpgrade2 o req w version protocol writable).
Proof.
  intros Hv H813. unfold completeHybiUpgrade2.
  destruct (perMessageDeflate o && offers_deflate req) eqn:Hd;
    destruct (accept_throws w); cbn [andb];
    try (right; apply abortConnection_refused);
    destruct (write_throws w);
    try (right; unfold refused; cbn; repeat split; auto; discriminate);
    left; unfold completed; cbn [fst snd]; rewrite ?Hd;
    (split; [exists version, protocol; repeat split; auto |]);
    destruct (clientTracking o); cbn; repeat split; auto.
Qed.

Lemma completeHybiUpgrade1_one_way (o : ServerOptions) (req : Request)
  (w : World) (version : Z) (writable : bool) :
  well_behaved o ->
  sec_websocket_version req = Some version ->
  version = 8 \/ version = 13 ->
  completed o req writable (completeHybiUpgrade1 o req w version writable)
  \/ refused writable (completeHybiUpgrade1 o req w version writable).
Proof.
  intros [_ Hh] Hv H813. unfold completeHybiUpgrade1.
  destruct (handleProtocols o) as [handler |] eqn:Ho.
  - specialize (Hh handler
                  (split match sec_websocket_protocol req with
                         | Some p => p
                         | None => ""
                         end) eq_refl).
    destruct (handler _) as [calls late]. cbn [fst snd] in Hh.
    destruct Hh as [Hh Hlate]. subst late.
    destruct calls as [| [result protocol] [| c calls]].
    + (* the handler never called the callback *)
      cbn [protocol_calls app]. right.
      pose proof (abortConnection_refused writable 501
                    (Some "Could not process protocols")) as H2.
      destruct (abortConnection writable 501
                  (Some "Could not process protocols")) as [t1 w1].
      rewrite app_nil_r. exact H2.
    + cbn [protocol_calls].
      destruct result; cbn [negb].
      * pose proof (completeHybiUpgrade2_one_way o req w version protocol
                      writable Hv H813) as H2.
        destruct (completeHybiUpgrade2 o req w version protocol writable)
          as [t1 w1].
        cbn [app]. rewrite !app_nil_r. exact H2.
      * right. pose proof (abortConnection_refused writable 401 None) as H2.
        destruct (abortConnection writable 401 None) as [t1 w1].
        cbn [app]. rewrite !app_nil_r. exact H2.
    + cbn [List.length] in Hh. lia.
  - apply completeHybiUpgrade2_one_way; assumption.
Qed.

(** A [handleProtocols] that calls the callback after it has returned, and
    not before: the server has answered 501 and destroyed the socket by
    then, and the late call goes on with the upgrade all the same. *)
Lemma late_callback_follows_501 (o : ServerOptions) (req : Request)
  (w : World) (version : Z) (writable : bool) (handler : HandleProtocols)
  (result : bool) (protocol : option string) :
  handleProtocols o = Some handler ->
  (forall protList, handler protList = ([], [(result, protocol)])) ->
  completeHybiUpgrade1 o req w version writable =
    ((if writable
      then [Write_status 501 (Some "Could not process protocols")]
      else [])
     ++ [Destroy]
     ++ fst (if result
             then completeHybiUpgrade2 o req w version protocol false
             else abortConnection false 401 None),
     snd (if result
          then completeHybiUpgrade2 o req w version protocol false
          else abortConnection false 401 None)).
Proof.
  intros Ho Hh. unfold completeHybiUpgrade1. rewrite Ho, Hh.
  cbn [protocol_calls app abortConnection negb].
  destruct result; cbn [negb].
  - destruct (completeHybiUpgrade2 o req w version protocol false)
      as [t1 w1].
    cbn [fst snd]. rewrite app_nil_r, <- app_assoc. reflexivity.
  - cbn [abortConnection fst snd app]. rewrite <- app_assoc. reflexivity.
Qed.

(** On [late_chat_server], the handshake of [chat_request] is answered with
    501 and the socket is destroyed; the late call of the callback then
    writes the handshake, makes the client and hands it to [cb]: neither a
    completed upgrade nor a refused one. *)
Lemma late_callback_on_chat_request :
  handleUpgrade late_chat_server chat_request quiet_world true =
    ([On_error_destroy;
      Write_status 501 (Some "Could not process protocols");
      Destroy;
      Emit_headers
        [Switching_Protocols; Upgrade_websocket; Connection_Upgrade;
         Sec_WebSocket_Accept
           (sha1_base64 quiet_world
              ("dGhlIHNhbXBsZSBub25jZQ==" ++ GUID)%string);
         Sec_WebSocket_Protocol "chat"];
      SetTimeout_0; SetNoDelay;
      Write_handshake
        [Switching_Protocols; Upgrade_websocket; Connection_Upgrade;
         Sec_WebSocket_Accept
           (sha1_base64 quiet_world
              ("dGhlIHNhbXBsZSBub25jZQ==" ++ GUID)%string);
         Sec_WebSocket_Protocol "chat"];
      New_WebSocket 13 (Some "chat") false 1024;
      Clients_add; Remove_error_listener; Cb_client],
     false).
Proof. vm_compute. reflexivity. Qed.

Lemma on_error_completed (o : ServerOptions) (req : Request)
  (writable : bool) (t : list Effect) (wr : bool) :
  completed o req writable (t, wr) ->
  completed o req writable (On_error_destroy :: t, wr).
Proof.
  unfold completed. cbn [fst snd filter is_client is_cb is_destroy is_status
    is_add]. intros (H1 & H2 & H3 & H4).
  split; [exact H1 |]. split; [exact H2 |]. split; [| exact H4].
  destruct t as [| e t]; [discriminate H2 | exact H3].
Qed.

Lemma on_error_refused (writable : bool) (t : list Effect) (wr : bool) :
  refused writable (t, wr) ->
  refused writable (On_error_destroy :: t, wr).
Proof.
  unfold refused. cbn [fst snd filter is_client is_cb is_destroy is_status].
  intros (H1 & H2 & H3 & H4 & H5).
  split; [exact H1 |]. split; [exact H2 |]. split; [exact H3 |].
  split; [| exact H5].
  destruct t as [| e t]; [discriminate H3 | exact H4].
Qed.

Lemma handleHybiUpgrade_one_way (o : ServerOptions) (req : Request)
  (w : World) (writable : bool) :
  well_behaved o ->
  completed o req writable (handleHybiUpgrade o req w writable)
  \/ refused writable (handleHybiUpgrade o req w writable).
Proof.
  intros Hwb. unfold handleHybiUpgrade.
  assert (Hin :
    forall r : list Effect * bool,
      completed o req writable r \/ refused writable r ->
      completed o req writable
        (let '(t, w1) := r in (On_error_destroy :: t, w1))
      \/ refused writable
           (let '(t, w1) := r in (On_error_destroy :: t, w1))).
  { intros [t w1] [H | H];
      [left; apply on_error_completed | right; apply on_error_refused];
      exact H. }
  apply Hin.
  destruct (truthy (sec_websocket_key req)); cbn [negb];
    [| right; apply abortConnection_refused].
  destruct (sec_websocket_version req) as [version |] eqn:Hv;
    [| right; apply abortConnection_refused].
  destruct (version =? 8) eqn:H8; cbn [negb andb].
  - apply Z.eqb_eq in H8.
    destruct (verifyClient o) as [[answer | calls] |] eqn:Hvc.
    + destruct (answer _); cbn [negb];
        [apply completeHybiUpgrade1_one_way; auto
        | right; apply abortConnection_refused].
    + pose proof Hwb as [Hwb1 _].
      specialize (Hwb1 calls
        {| info_secure := secure req;
           info_origin := if negb (version =? 13)
                          then sec_websocket_origin req else origin req;
           info_req := req |} Hvc).
      destruct (calls _) as [| [[result code] message] [| c cs]];
        cbn [List.length] in Hwb1; try lia.
      cbn [verify_calls]. destruct result; cbn [negb].
      * pose proof (completeHybiUpgrade1_one_way o req w version writable
                      Hwb Hv (or_introl H8)) as H1.
        destruct (completeHybiUpgrade1 o req w version writable) as [t1 w1].
        rewrite app_nil_r. exact H1.
      * right.
        pose proof (abortConnection_refused writable (code_or_401 code)
                      message) as H1.
        destruct (abortConnection writable (code_or_401 code) message)
          as [t1 w1].
        rewrite app_nil_r. exact H1.
    + apply completeHybiUpgrade1_one_way; auto.
  - destruct (version =? 13) eqn:H13; cbn [negb];
      [| right; apply abortConnection_refused].
    apply Z.eqb_eq in H13.
    destruct (verifyClient o) as [[answer | calls] |] eqn:Hvc.
    + destruct (answer _); cbn [negb];
        [apply completeHybiUpgrade1_one_way; auto
        | right; apply abortConnection_refused].
    + pose proof Hwb as [Hwb1 _].
      specialize (Hwb1 calls
        {| info_secure := secure req;
           info_origin := origin req;
           info_req := req |} Hvc).
      destruct (calls _) as [| [[result code] message] [| c cs]];
        cbn [List.length] in Hwb1; try lia.
      cbn [verify_calls]. destruct result; cbn [negb].
      * pose proof (completeHybiUpgrade1_one_way o req w version writable
                      Hwb Hv (or_intror H13)) as H1.
        destruct (completeHybiUpgrade1 o req w version writable) as [t1 w1].
        rewrite app_nil_r. exact H1.
      * right.
        pose proof (abortConnection_refused writable (code_or_401 code)
                      message) as H1.
        destruct (abortConnection writable (code_or_401 code) message)
          as [t1 w1].
        rewrite app_nil_r. exact H1.
    + apply completeHybiUpgrade1_one_way; auto.
Qed.

(** X16: an upgrade ends one way. Let a [verifyClient] of two parameters
    call its callback once, and let [handleProtocols] call its callback
    before it returns, once or not at all, and never after it has returned.
    Whatever the request, the options and the socket, [handleUpgrade] then
    either completes the upgrade, for a request to the path of the server
    that asks for websocket, has a key and is of version 8 or 13: one client
    is made and handed to [cb], last of all, and added to [clients] if they
    are tracked, the socket is not destroyed and no status line is written;
    or it refuses: no client is made, [cb] is not called, and the socket is
    destroyed, once and last of all, after one status line at most, and
    after none if the socket is not writable. *)
Theorem upgrade_ends_one_way (o : ServerOptions) (req : Request) (w : World)
  (writable : bool) :
  well_behaved o ->
  (completed o req writable (handleUpgrade o req w writable) /\
   shouldHandle o req = true /\
   upgrade req = Some "websocket" /\
   truthy (sec_websocket_key req) = true)
  \/ refused writable (handleUpgrade o req w writable).
Proof.
  intros Hwb. unfold handleUpgrade.
  destruct (shouldHandle o req); cbn [negb orb];
    [| right; apply abortConnection_refused].
  destruct (upgrade req) as [u |]; cbn [truthy];
    [| right; apply abortConnection_refused].
  destruct (nonempty u); cbn [negb orb];
    [| right; apply abortConnection_refused].
  destruct (String.eqb u "websocket") eqn:Hu; cbn [negb];
    [| right; apply abortConnection_refused].
  apply String.eqb_eq in Hu. subst u.
  destruct (truthy (sec_websocket_key req)) eqn:Hk.
  - destruct (handleHybiUpgrade_one_way o req w writable Hwb) as [H | H];
      [left; auto | right; exact H].
  - right. unfold handleHybiUpgrade. rewrite Hk. cbn [negb].
    apply on_error_refused, abortConnection_refused.
Qed.

Lemma upgrade_ends_one_way_witness :
  well_behaved chat_server /\
  completed chat_server chat_request true
    (handleUpgrade chat_server chat_request quiet_world true).
Proof.
  assert (H : well_behaved chat_server).
  { split.
    - intros calls info E. cbn in E. injection E as <-. reflexivity.
    - intros handler protList E. cbn in E. injection E as <-.
      destruct protList; cbn; split; (lia || reflexivity). }
  split; [exact H |].
  destruct (upgrade_ends_one_way chat_server chat_request quiet_world true H)
    as [[Hc _] | (_ & Hr & _)]; [exact Hc | discriminate Hr].
Defined.

(** X17: a request that is not a websocket handshake is answered with 400,
    whatever the hooks are. When the path is not that of the server, the
    [Upgrade] header is not websocket, the key is missing or the version is
    neither 8 nor 13, the socket is sent the status 400, if it is writable,
    and destroyed, and nothing else is done to it but the ['error'] listener
    that [handleHybiUpgrade] puts on it; no client is made. *)
Theorem malformed_request_gets_400 (o : ServerOptions) (req : Request)
  (w : World) (writable : bool) :
  shouldHandle o req = false
  \/ upgrade req <> Some "websocket"
  \/ truthy (sec_websocket_key req) = false
  \/ (sec_websocket_version req <> Some 8 /\
      sec_websocket_version req <> Some 13) ->
  exists listener,
    handleUpgrade o req w writable =
      (listener
       ++ (if writable then [Write_status 400 None] else []) ++ [Destroy],
       false) /\
    (listener = [] \/ listener = [On_error_destroy]).
Proof.
  intros H. unfold handleUpgrade.
  destruct (shouldHandle o req); cbn [negb orb];
    [| exists []; split; [reflexivity | left; reflexivity]].
  destruct (upgrade req) as [u |] eqn:Hu; cbn [truthy];
    [| exists []; split; [reflexivity | left; reflexivity]].
  destruct (nonempty u); cbn [negb orb];
    [| exists []; split; [reflexivity | left; reflexivity]].
  destruct (String.eqb u "websocket") eqn:Hw; cbn [negb];
    [| exists []; split; [reflexivity | left; reflexivity]].
  apply String.eqb_eq in Hw. subst u.
  exists [On_error_destroy]. split; [| right; reflexivity].
  unfold handleHybiUpgrade.
  destruct (truthy (sec_websocket_key req)) eqn:Hk; cbn [negb];
    [| reflexivity].
  destruct (sec_websocket_version req) as [v |] eqn:Hv; [| reflexivity].
  destruct (v =? 8) eqn:H8; cbn [negb andb].
  - apply Z.eqb_eq in H8. subst v.
    destruct H as [H | [H | [H | [H _]]]]; congruence.
  - destruct (v =? 13) eqn:H13; cbn [negb]; [| reflexivity].
    apply Z.eqb_eq in H13. subst v.
    destruct H as [H | [H | [H | [_ H]]]]; congruence.
Qed.

Lemma malformed_request_gets_400_witness :
  (sec_websocket_version draft_7_request <> Some 8 /\
   sec_websocket_version draft_7_request <> Some 13) /\
  exists listener,
    handleUpgrade chat_server draft_7_request quiet_world true =
      (listener ++ [Write_status 400 None] ++ [Destroy], false) /\
    (listener = [] \/ listener = [On_error_destroy]).
Proof.
  assert (H : sec_websocket_version draft_7_request <> Some 8 /\
              sec_websocket_version draft_7_request <> Some 13)
    by (split; discriminate).
  split; [exact H |].
  apply (malformed_request_gets_400 chat_server draft_7_request quiet_world
           true).
  right. right. right. exact H.
Defined.

End ServerProofs.

Module ServerCloseProofs.

Import Endpoint Client EndpointProofs RunProofs.

(** ** close *)

Lemma tracked_is_live (c : WebSocket) :
  Server.tracked c ->
  (readyState c = OPEN \/ readyState c = CLOSING) /\
  _socket c = true /\ extensions c <> None.
Proof.
  intros (Hc & d & es & E).
  assert (H0 : fresh (state_of (initAsServerClient d)))
    by (left; exists d; reflexivity).
  pose proof (fresh_consistent _ H0) as Hc0.
  pose proof (consistent_run es _ Hc0) as (_ & _ & _ & H4 & H5).
  pose proof (index_run es _ Hc0) as Hi.
  rewrite <- E in *. cbn in Hi.
  assert (Hs : readyState c = OPEN \/ readyState c = CLOSING)
    by (destruct (readyState c); cbn in Hi; auto; try lia; congruence).
  split; [exact Hs |]. destruct (H4 Hs) as (Hk & _).
  split; [exact Hk |]. intros Hx. apply H5 in Hx. congruence.
Qed.

Lemma terminate_tracked (c : WebSocket) (end_throws : bool) :
  Server.tracked c ->
  Server.terminated (c, end_throws) (terminate end_throws c).
Proof.
  intros Ht. destruct (tracked_is_live c Ht) as (Hs & Hk & Hx).
  unfold Server.terminated. cbn [fst snd].
  case_state c. cbn in Hs, Hk, Hx. subst sk.
  destruct ex as [x |]; [| congruence].
  destruct Hs as [Hs | Hs]; subst rs; destruct end_throws;
    try (split; [reflexivity | split; reflexivity]);
    destruct cr, sd, rc, x; cbn;
    (split; [reflexivity | split; [reflexivity | eexists; reflexivity]]).
Qed.

Lemma last_error_none
  (rs : list (Outcome unit * WebSocket * list Effect)) :
  Forall (fun r => outcome_of r = Normal tt) rs ->
  Server.last_error rs = None.
Proof.
  unfold Server.last_error. induction 1 as [| r rs Hr _ IH];
    [reflexivity |].
  cbn [fold_left]. rewrite Hr. exact IH.
Qed.

Lemma terminate_all (cs : list WebSocket) :
  forall ends : list bool,
    Forall Server.tracked cs ->
    List.length ends = List.length cs ->
    Forall2 Server.terminated (combine cs ends)
      (map (fun ce => terminate (snd ce) (fst ce)) (combine cs ends)).
Proof.
  induction cs as [| c cs IH]; intros ends Hcs Hl.
  - constructor.
  - destruct ends as [| e ends]; [discriminate Hl |].
    inversion Hcs as [| c' cs' Hc Hcs']; subst.
    cbn [combine map]. constructor.
    + apply terminate_tracked, Hc.
    + apply IH; [exact Hcs' |]. cbn in Hl. congruence.
Qed.

Lemma remaining_clients (ces : list (WebSocket * bool)) :
  Forall (fun ce => Server.tracked (fst ce)) ces ->
  map state_of
    (filter (fun r => Nat.eqb (count_close (effects_of r)) 0)
            (map (fun ce => terminate (snd ce) (fst ce)) ces))
  = map (fun ce => set_closeTimer (Some closeTimeout)
                     (set_readyState CLOSING (fst ce)))
        (filter (fun ce => negb (snd ce)) ces).
Proof.
  induction 1 as [| [c e] ces Hc _ IH]; [reflexivity |].
  cbn [map filter fst snd].
  pose proof (terminate_tracked c e Hc) as [_ Ht].
  cbn [fst snd] in Ht. destruct e; cbn [negb].
  - destruct Ht as (_ & m & Hm). unfold count_close.
    fold (close_events (effects_of (terminate true c))). rewrite Hm.
    cbn [List.length Nat.eqb]. exact IH.
  - destruct Ht as (Ht & Hst). rewrite Ht. cbn [count_close filter is_close
      List.length Nat.eqb map]. rewrite Hst, IH. reflexivity.
Qed.

Lemma combine_tracked (cs : list WebSocket) (ends : list bool) :
  Forall Server.tracked cs ->
  Forall (fun ce => Server.tracked (fst ce)) (combine cs ends).
Proof.
  intros Hcs. revert ends. induction Hcs as [| c cs Hc _ IH]; intros ends.
  - constructor.
  - destruct ends as [| e ends]; [constructor |].
    cbn [combine]. constructor; [exact Hc | apply IH].
Qed.

(** X18: [close] of the server terminates every client. Let the server track
    its clients, each an endpoint that the server has made and that has not
    emitted ['close'] yet. [close (cb)] calls [terminate ()] of each; none
    throws, so that [cb], when given, is called with [null] and [close]
    returns. A client whose socket ends without an exception has had
    [socket.end ()] called, is CLOSING with its 30 seconds timer armed, and
    stays in [clients]; one whose socket throws is CLOSED, has emitted
    ['close'] with 1006, and is gone from [clients]. The server has no HTTP
    server any more, and has closed it if it had made it. *)
Theorem server_close_terminates_its_clients (srv : Server.WebSocketServer)
  (cs : list WebSocket) (ends : list bool) (cb : bool) :
  Server.clients srv = Some cs ->
  Forall Server.tracked cs ->
  List.length ends = List.length cs ->
  let r := Server.close cb ends srv in
  Server.outcome r = Normal tt /\
  Server.cb_called r = (if cb then Some None else None) /\
  Forall2 Server.terminated (combine cs ends) (Server.of_clients r) /\
  Server.clients (Server.after r) =
    Some (map (fun ce => set_closeTimer (Some closeTimeout)
                           (set_readyState CLOSING (fst ce)))
              (filter (fun ce => negb (snd ce)) (combine cs ends))) /\
  Server._server (Server.after r) = false /\
  Server.http_closed r =
    (Server._server srv
     && match Server.port (Server.options srv) with
        | Some _ => true
        | None => false
        end).
Proof.
  intros Hcl Hcs Hl. cbv zeta. unfold Server.close. rewrite Hcl.
  cbn [Server.outcome Server.cb_called Server.of_clients Server.after
       Server.clients Server._server Server.http_closed].
  pose proof (terminate_all cs ends Hcs Hl) as Hall.
  assert (Hnone : Server.last_error
                    (map (fun ce => terminate (snd ce) (fst ce))
                         (combine cs ends)) = None).
  { apply last_error_none.
    revert Hall. generalize (combine cs ends). intros l Hall.
    induction l as [| ce l IH]; [constructor |].
    inversion Hall as [| ? ? ? ? H1 H2]; subst.
    cbn [map]. constructor; [apply H1 | apply IH, H2]. }
  rewrite Hnone.
  split; [destruct cb; reflexivity |].
  split; [reflexivity |].
  split; [exact Hall |].
  split; [| split; reflexivity].
  rewrite (remaining_clients _ (combine_tracked cs ends Hcs)). reflexivity.
Qed.

Lemma server_close_terminates_its_clients_witness :
  Server.clients Server.chat_server_running = Some Server.chat_clients /\
  Forall Server.tracked Server.chat_clients /\
  List.length [false; true] = List.length Server.chat_clients /\
  Server.cb_called (Server.close true [false; true]
                      Server.chat_server_running) = Some None /\
  Server.clients
    (Server.after (Server.close true [false; true]
                     Server.chat_server_running))
  = Some [set_closeTimer (Some closeTimeout)
            (set_readyState CLOSING (state_of (initAsServerClient false)))].
Proof.
  assert (H : Forall Server.tracked Server.chat_clients).
  { repeat constructor; try discriminate.
    - exists false, []. reflexivity.
    - exists true,
        [Call_send (DString "hello") OAbsent None;
         Call_close (Some 1000) None None false].
      reflexivity. }
  split; [reflexivity |]. split; [exact H |]. split; [reflexivity |].
  destruct (server_close_terminates_its_clients Server.chat_server_running
              Server.chat_clients [false; true] true eq_refl H eq_refl)
    as (_ & H2 & _ & H4 & _).
  split; [exact H2 | exact H4].
Defined.

End ServerCloseProofs.

Module HandshakeProofs.

Import Endpoint Client Server EndpointProofs SubprotocolProofs.

(** ** The handshake of a client of [lib/WebSocket.js] with the server *)

Lemma first_offered (ps : list string) :
  Forall offerable ps ->
  first_protocol (if nonempty (join ps) then Some (join ps) else None)
  = match ps with
    | [] => None
    | p :: _ => Some p
    end.
Proof.
  intros Hps. destruct ps as [| p ps]; [reflexivity |].
  rewrite (join_nonempty (p :: ps) Hps) by discriminate.
  unfold first_protocol. rewrite (join_nonempty (p :: ps) Hps) by discriminate.
  unfold split. rewrite (split_join (p :: ps) false Hps) by discriminate.
  reflexivity.
Qed.

(** What a server without hooks does with a handshake. *)
Lemma handleUpgrade_no_hooks (o : ServerOptions) (req : Request) (w : World)
  (key : string) (version : Z) (writable : bool) :
  verifyClient o = None ->
  handleProtocols o = None ->
  shouldHandle o req = true ->
  upgrade req = Some "websocket" ->
  sec_websocket_key req = Some key ->
  nonempty key = true ->
  sec_websocket_version req = Some version ->
  version = 8 \/ version = 13 ->
  accept_throws w = false ->
  write_throws w = false ->
  let protocol := first_protocol (sec_websocket_protocol req) in
  let deflate := Server.perMessageDeflate o && offers_deflate req in
  let headers :=
    ([Switching_Protocols; Upgrade_websocket; Connection_Upgrade;
      Sec_WebSocket_Accept (sha1_base64 w (key ++ GUID)%string)]
     ++ match protocol with
        | Some p => if nonempty p then [Sec_WebSocket_Protocol p] else []
        | None => []
        end)
    ++ (if deflate then [Sec_WebSocket_Extensions (formatted w)] else []) in
  handleUpgrade o req w writable =
    (On_error_destroy
     :: [Emit_headers headers; SetTimeout_0; SetNoDelay;
         Write_handshake headers;
         New_WebSocket version protocol deflate (maxPayload o)]
        ++ (if clientTracking o then [Clients_add] else [])
        ++ [Remove_error_listener; Cb_client],
     writable).
Proof.
  intros Hv Hh Hsh Hup Hkey Hk Hver H813 Ha Hw. cbv zeta.
  unfold handleUpgrade. rewrite Hsh, Hup. cbn [truthy nonempty negb orb].
  change (String.eqb "websocket" "websocket") with true. cbn [negb].
  unfold handleHybiUpgrade. rewrite Hkey. cbn [truthy]. rewrite Hk.
  cbn [negb]. rewrite Hver.
  assert (H813b : negb (version =? 8) && negb (version =? 13) = false)
    by (destruct H813; subst version; reflexivity).
  rewrite H813b, Hv. unfold completeHybiUpgrade1. rewrite Hh.
  unfold completeHybiUpgrade2. rewrite Hkey, Ha, Hw, andb_false_r.
  reflexivity.
Qed.

(** X19: the two ends agree. Let a server that has neither a [verifyClient]
    nor a [handleProtocols] hook, whose [accept] of the offer of
    permessage-deflate does not throw and whose write of the handshake does
    not throw, be asked by a client of [lib/WebSocket.js]: on the path of the
    server, with a key that is not empty, the version 8 or 13 and the
    subprotocols [ps], each of them not empty, without a comma and not
    starting with a space; and let the client be CONNECTING with its upgrade
    listener in place, and compute the digest that the server computes.
    The server completes the upgrade, for the first of [ps] if there is one,
    and writes as [Sec-WebSocket-Accept] the digest of the key of the request
    and the GUID. The client, reading the headers that the server has
    written, finds the digest it expects and a subprotocol it has offered;
    it becomes OPEN, unless permessage-deflate was offered and taken and its
    own [accept] throws on the answer, in which case it emits the error
    'invalid extension parameter' and stays CONNECTING. *)
Theorem handshake_completes (o : ServerOptions) (w : World)
  (pathname : option string) (key : string) (version : Z)
  (ps : list string)
  (perMessageDeflate secure writable client_accept_throws : bool)
  (s : WebSocket) :
  verifyClient o = None ->
  handleProtocols o = None ->
  shouldHandle o
    (client_request pathname key version ps perMessageDeflate secure)
  = true ->
  nonempty key = true ->
  version = 8 \/ version = 13 ->
  Forall offerable ps ->
  accept_throws w = false ->
  write_throws w = false ->
  readyState s = CONNECTING ->
  req_once_upgrade s = true ->
  let req := client_request pathname key version ps perMessageDeflate secure in
  let first := match ps with [] => None | p :: _ => Some p end in
  exists headers,
    handshake (fst (handleUpgrade o req w writable)) = Some headers /\
    filter is_client (fst (handleUpgrade o req w writable))
    = [New_WebSocket version first
         (Server.perMessageDeflate o && perMessageDeflate) (maxPayload o)] /\
    response_accept headers = Some (sha1_base64 w (key ++ GUID)%string) /\
    response_protocol headers = first /\
    response_deflate headers
    = Server.perMessageDeflate o && perMessageDeflate /\
    let refusal :=
      upgrade_refusal (response_accept headers)
        (expectedServerKey (sha1_base64 w) key)
        (options_protocol (ProtocolsArray ps))
        (response_protocol headers)
        perMessageDeflate (response_deflate headers) client_accept_throws in
    let r := req_onupgrade refusal
               (perMessageDeflate && response_deflate headers) s in
    if perMessageDeflate && response_deflate headers && client_accept_throws
    then
      readyState (state_of r) = CONNECTING /\
      effects_of r =
        [Emit_error "invalid extension parameter"; RemoveAllListeners;
         Socket_end]
    else readyState (state_of r) = OPEN.
Proof.
  intros Hv Hh Hsh Hk H813 Hps Ha Hw Hs Hu. cbv zeta.
  rewrite (handleUpgrade_no_hooks o _ w key version writable Hv Hh Hsh
             eq_refl eq_refl Hk eq_refl H813 Ha Hw).
  cbn [client_request sec_websocket_protocol offers_deflate].
  rewrite (first_offered ps Hps).
  set (first := match ps with [] => None | p :: _ => Some p end).
  assert (Hfirst : match first with
                   | Some p => if nonempty p then [Sec_WebSocket_Protocol p]
                               else []
                   | None => []
                   end
                   = match first with
                     | Some p => [Sec_WebSocket_Protocol p]
                     | None => []
                     end).
  { unfold first. destruct ps as [| p ps]; [reflexivity |].
    inversion Hps as [| ? ? (Hn & _) _]; subst. rewrite Hn. reflexivity. }
  rewrite Hfirst.
  set (headers := (_ ++ _) ++ _ : list Header).
  exists headers.
  assert (Hprot : response_protocol headers = first)
    by (unfold headers, response_protocol;
        destruct first; destruct (_ && _); reflexivity).
  assert (Hacc : response_accept headers
                 = Some (sha1_base64 w (key ++ GUID)%string))
    by (unfold headers; reflexivity).
  assert (Hdef : response_deflate headers
                 = Server.perMessageDeflate o && perMessageDeflate)
    by (unfold headers, response_deflate;
        destruct first; destruct (_ && _); reflexivity).
  split; [reflexivity |].
  split; [destruct (clientTracking o); reflexivity |].
  split; [exact Hacc |].
  split; [exact Hprot |].
  split; [exact Hdef |].
  rewrite Hacc, Hprot.
  unfold upgrade_refusal, expectedServerKey. rewrite String.eqb_refl.
  cbn [negb].
  assert (Hpe : protError (options_protocol (ProtocolsArray ps)) first = None).
  { unfold options_protocol, protocols_array, first.
    destruct ps as [| p ps]; [reflexivity |].
    apply (protError_offered (p :: ps) (Some p) Hps); [discriminate |].
    exists p. split; [reflexivity | left; reflexivity]. }
  rewrite Hpe.
  case_state s. cbn in Hs, Hu. subst rs ru.
  destruct (perMessageDeflate && response_deflate headers);
    destruct client_accept_throws; cbn [andb]; try reflexivity.
  split; reflexivity.
Qed.

Lemma handshake_completes_witness :
  Forall offerable ["chat"; "superchat"] /\
  exists headers,
    handshake
      (fst (handleUpgrade plain_server
              (client_request (Some "/") "a2V5" 13 ["chat"; "superchat"]
                 true false)
              quiet_world true)) = Some headers /\
    response_accept headers
    = Some (sha1_base64 quiet_world ("a2V5" ++ GUID)%string) /\
    response_protocol headers = Some "chat" /\
    readyState
      (state_of
         (req_onupgrade
            (upgrade_refusal (response_accept headers)
               (expectedServerKey (sha1_base64 quiet_world) "a2V5")
               (options_protocol (ProtocolsArray ["chat"; "superchat"]))
               (response_protocol headers)
               true (response_deflate headers) false)
            (true && response_deflate headers) initAsClient)) = OPEN.
Proof.
  assert (H : Forall offerable ["chat"; "superchat"])
    by (repeat constructor).
  split; [exact H |].
  destruct (handshake_completes plain_server quiet_world
              (Some "/") "a2V5" 13 ["chat"; "superchat"] true false true
              false initAsClient eq_refl eq_refl eq_refl eq_refl
              (or_intror eq_refl) H eq_refl eq_refl eq_refl eq_refl)
    as (headers & H1 & _ & H3 & H4 & H5 & H6).
  exists headers.
  split; [exact H1 |]. split; [exact H3 |]. split; [exact H4 |].
  cbv zeta in H6. rewrite H5 in H6. cbn [andb plain_server
    Server.perMessageDeflate] in H6. rewrite H5. exact H6.
Defined.

End HandshakeProofs.

(** * The life cycle of the endpoint of the first releases *)

Module LegacyLifeProofs.

Import Legacy LegacyLife.

Lemma legacy_run_cons (e : Event) (es : list Event) (c : Connection) :
  run (e :: es) c =
    (fst (run es (state_of (handle e c))),
     effects_of (handle e c) ++ snd (run es (state_of (handle e c)))).
Proof.
  cbn [run]. destruct (run es (state_of (handle e c))). reflexivity.
Qed.

(** After [close], one event: nothing is handed to the Sender, the socket
    is ended if it has not been, and by [terminate] only, and ['close'] is
    emitted by the step that makes the state ['disconnected'], with the code
    and the message of the call. *)
Lemma closed_with_step (code : option Z) (data : option string) (e : Event)
  (c : Connection) :
  closed_with code data c ->
  is_upgrade e = false ->
  closed_with code data (state_of (handle e c)) /\
  (state c = disconnected -> state (state_of (handle e c)) = disconnected) /\
  filter is_frame (effects_of (handle e c)) = [] /\
  (List.length (filter is_end (effects_of (handle e c)))
   + ends_left (state_of (handle e c)) = ends_left c)%nat /\
  Endpoint.close_events (effects_of (handle e c)) =
    if State_eqb (state c) closing
       && State_eqb (state (state_of (handle e c))) disconnected
    then [Endpoint.Emit_close (Some (Endpoint.code_or code 1000))
            (Some (Endpoint.message_or data ""))]
    else [].
Proof.
  unfold closed_with, ends_left. destruct c as [[st sv] sk cc cm].
  cbn [_socket state ws _state
    _closeCode _closeMessage].
  intros [(Hs & Hc & Hm) | Hs] He; subst;
    destruct e; try discriminate He;
    try (destruct errorCode);
    try (destruct end_throws);
    destruct sk;
    cbv - [Endpoint.code_or Endpoint.message_or];
    repeat split; auto.
Qed.

Lemma disconnected_stays (code : option Z) (data : option string)
  (es : list Event) (c : Connection) :
  closed_with code data c ->
  state c = disconnected ->
  forallb (fun e => negb (is_upgrade e)) es = true ->
  state (fst (run es c)) = disconnected.
Proof.
  revert c. induction es as [| e es IH]; intros c Hc Hs Hes; [exact Hs |].
  cbn [forallb] in Hes. apply andb_prop in Hes. destruct Hes as [He Hes].
  apply negb_true_iff in He.
  destruct (closed_with_step code data e c Hc He) as (H1 & Hd & _).
  rewrite legacy_run_cons. cbn [fst]. apply IH; auto.
Qed.

Lemma closed_with_run (code : option Z) (data : option string)
  (es : list Event) (c : Connection) :
  closed_with code data c ->
  forallb (fun e => negb (is_upgrade e)) es = true ->
  filter is_frame (snd (run es c)) = [] /\
  (List.length (filter is_end (snd (run es c))) <= ends_left c)%nat /\
  Endpoint.close_events (snd (run es c)) =
    if State_eqb (state c) closing
       && State_eqb (state (fst (run es c))) disconnected
    then [Endpoint.Emit_close (Some (Endpoint.code_or code 1000))
            (Some (Endpoint.message_or data ""))]
    else [].
Proof.
  revert c. induction es as [| e es IH]; intros c Hc Hes.
  - cbn [run fst snd filter Endpoint.close_events List.length].
    split; [reflexivity |]. split; [lia |].
    destruct Hc as [(Hs & _) | Hs]; rewrite Hs; auto.
  - cbn [forallb] in Hes. apply andb_prop in Hes. destruct Hes as [He Hes].
    apply negb_true_iff in He.
    destruct (closed_with_step code data e c Hc He)
      as (H1 & Hd & H2 & H3 & H4).
    destruct (IH _ H1 Hes) as (I2 & I3 & I4).
    rewrite legacy_run_cons. cbn [fst snd].
    unfold Endpoint.close_events in *.
    rewrite !filter_app, H2, H4, I2, I4, length_app.
    split; [reflexivity |]. split; [lia |].
    destruct Hc as [(Hs & _) | Hs].
    + rewrite Hs. cbn [State_eqb andb].
      pose proof H1 as [(Hs1 & _) | Hs1].
      * rewrite Hs1. cbn [State_eqb andb app]. reflexivity.
      * rewrite (disconnected_stays code data es _ H1 Hs1 Hes), Hs1.
        reflexivity.
    + rewrite Hs, (Hd Hs). reflexivity.
Qed.

(** X20: the endpoint of the first releases closes without waiting for the
    peer. On a connected endpoint with its socket, [close (code, data)] makes
    the state ['closing'] and records the code and the message. When neither
    the Sender nor [socket.end ()] throws, it hands the close frame to the
    Sender, masked by a client only, and ends the socket at once. When the
    Sender throws, ['error'] is emitted, no frame is handed over and the
    socket is not ended; when [socket.end ()] throws, the frame has been
    handed over, ['error'] is emitted, and the socket is kept. Whatever
    happens then, the upgrade apart: nothing more is handed to the Sender;
    the socket is ended once more at most, and not at all when [close] has
    ended it; and when the socket reports ['close'] the state becomes
    ['disconnected'] and one ['close'] event is emitted, with [code], or 1000
    when there is none, and [data], or the empty string; no other ['close']
    is emitted. *)
Theorem legacy_close_does_not_wait (c : Connection) (code : option Z)
  (data : option string) (sender_throws end_throws : option string)
  (es : list Event) :
  state c = connected ->
  _socket c = true ->
  forallb (fun e => negb (is_upgrade e)) es = true ->
  let r := close code data sender_throws end_throws c in
  effects_of r =
    match sender_throws, end_throws with
    | Some e, _ => [Endpoint.Emit_error e]
    | None, Some e =>
        [Endpoint.Sender_close code data (negb (_isServer (ws c)));
         Endpoint.Emit_error e]
    | None, None =>
        [Endpoint.Sender_close code data (negb (_isServer (ws c)));
         Endpoint.Socket_end]
    end /\
  state (state_of r) = closing /\
  _closeCode (state_of r) = code /\
  _closeMessage (state_of r) = data /\
  _socket (state_of r) =
    match sender_throws, end_throws with
    | None, None => false
    | _, _ => true
    end /\
  filter is_frame (snd (run es (state_of r))) = [] /\
  (List.length (filter is_end (snd (run es (state_of r))))
   <= if _socket (state_of r) then 1 else 0)%nat /\
  Endpoint.close_events (snd (run es (state_of r))) =
    if State_eqb (state (fst (run es (state_of r)))) disconnected
    then [Endpoint.Emit_close (Some (Endpoint.code_or code 1000))
            (Some (Endpoint.message_or data ""))]
    else [].
Proof.
  intros Hs Hk Hes. cbv zeta.
  assert (Hr : close code data sender_throws end_throws c =
               (Endpoint.Normal tt,
                set_socket
                  match sender_throws, end_throws with
                  | None, None => false
                  | _, _ => true
                  end
                  (set_close code data (set_state closing c)),
                match sender_throws, end_throws with
                | Some e, _ => [Endpoint.Emit_error e]
                | None, Some e =>
                    [Endpoint.Sender_close code data
                       (negb (_isServer (ws c)));
                     Endpoint.Emit_error e]
                | None, None =>
                    [Endpoint.Sender_close code data
                       (negb (_isServer (ws c)));
                     Endpoint.Socket_end]
                end)).
  { destruct c as [[st sv] sk cc cm]. cbn in Hs, Hk. subst st sk.
    destruct sender_throws, end_throws; reflexivity. }
  rewrite Hr. cbn [effects_of state_of fst snd].
  split; [reflexivity |]. split; [reflexivity |].
  split; [reflexivity |]. split; [reflexivity |]. split; [reflexivity |].
  set (c1 := set_socket _ _).
  assert (Hc : closed_with code data c1) by (left; repeat split).
  destruct (closed_with_run code data es c1 Hc Hes) as (H1 & H2 & H3).
  split; [exact H1 |]. split; [exact H2 |]. exact H3.
Qed.

Lemma legacy_close_does_not_wait_witness :
  state (fst (run [Tick_upgrade None] (new_WebSocket true))) = connected /\
  _socket (fst (run [Tick_upgrade None] (new_WebSocket true))) = true /\
  effects_of
    (close (Some 4000) (Some "bye") None (Some "EPIPE")
       (fst (run [Tick_upgrade None] (new_WebSocket true))))
  = [Endpoint.Sender_close (Some 4000) (Some "bye") (negb true);
     Endpoint.Emit_error "EPIPE"] /\
  Endpoint.close_events
    (snd (run [Call_ping Endpoint.DUndefined None;
               Receiver_close (Some 1001) None None None;
               Call_terminate None;
               Socket_on_close; Socket_on_close]
              (state_of
                 (close (Some 4000) (Some "bye") None (Some "EPIPE")
                    (fst (run [Tick_upgrade None] (new_WebSocket true)))))))
  = [Endpoint.Emit_close (Some (Endpoint.code_or (Some 4000) 1000))
       (Some (Endpoint.message_or (Some "bye") ""))].
Proof.
  split; [reflexivity |]. split; [reflexivity |].
  pose proof (legacy_close_does_not_wait
                (fst (run [Tick_upgrade None] (new_WebSocket true)))
                (Some 4000) (Some "bye") None (Some "EPIPE")
                [Call_ping Endpoint.DUndefined None;
                 Receiver_close (Some 1001) None None None;
                 Call_terminate None;
                 Socket_on_close; Socket_on_close]
                eq_refl eq_refl eq_refl) as H.
  split; [exact (proj1 H) |].
  exact (proj2 (proj2 (proj2 (proj2 (proj2 (proj2 (proj2 H))))))).
Defined.

(** Without a call of [close], one event. *)
Lemma never_closed_step (e : Event) (c : Connection) :
  never_closed c ->
  is_upgrade e = false ->
  calls_close e = false ->
  never_closed (state_of (handle e c)) /\
  (state c = disconnected -> state (state_of (handle e c)) = disconnected) /\
  Endpoint.close_events (effects_of (handle e c)) =
    if State_eqb (state c) connected
       && State_eqb (state (state_of (handle e c))) disconnected
    then [Endpoint.Emit_close (Some 1000) (Some "")]
    else [].
Proof.
  unfold never_closed. destruct c as [[st sv] sk cc cm].
  cbn [_socket state ws _state
    _closeCode _closeMessage].
  intros (Hc & Hm & [Hs | Hs]) He Hcc; subst;
    destruct e; try discriminate He; try discriminate Hcc;
    try (destruct errorCode; try discriminate Hcc);
    try (destruct end_throws);
    try (destruct sk);
    try (destruct options as [[[m |] b cp f] |]);
    cbv; repeat split; auto.
Qed.

(** X21: in the first releases a connection that drops is reported as closed
    normally. On a connected endpoint on which [close] is never called, by the
    user or for a close frame or an error code of the receiver, the ['close']
    event that is emitted when the socket reports ['close'] carries the code
    1000 and an empty message, whatever has gone before; it is emitted once,
    by the step that makes the state ['disconnected']. *)
Theorem legacy_drop_is_reported_as_1000 (c : Connection) (es : list Event) :
  state c = connected ->
  _closeCode c = None ->
  _closeMessage c = None ->
  forallb (fun e => negb (is_upgrade e) && negb (calls_close e)) es = true ->
  Endpoint.close_events (snd (run es c)) =
    if State_eqb (state (fst (run es c))) disconnected
    then [Endpoint.Emit_close (Some 1000) (Some "")]
    else [].
Proof.
  intros Hs Hc Hm Hes.
  assert (Hn : never_closed c) by (repeat split; auto).
  assert (Hstay :
    forall es c,
      never_closed c -> state c = disconnected ->
      forallb (fun e => negb (is_upgrade e) && negb (calls_close e)) es
      = true ->
      state (fst (run es c)) = disconnected).
  { clear. induction es as [| e es IH]; intros c Hn Hs Hes; [exact Hs |].
    cbn [forallb] in Hes. apply andb_prop in Hes.
    destruct Hes as [He Hes]. apply andb_prop in He.
    destruct He as [He1 He2]. apply negb_true_iff in He1, He2.
    destruct (never_closed_step e c Hn He1 He2) as (H1 & Hd & _).
    rewrite legacy_run_cons. cbn [fst]. apply IH; auto. }
  assert (Hgen :
    forall es c,
      never_closed c ->
      forallb (fun e => negb (is_upgrade e) && negb (calls_close e)) es
      = true ->
      Endpoint.close_events (snd (run es c)) =
        if State_eqb (state c) connected
           && State_eqb (state (fst (run es c))) disconnected
        then [Endpoint.Emit_close (Some 1000) (Some "")]
        else []).
  { clear -Hstay. induction es as [| e es IH]; intros c Hn Hes.
    - cbn [run fst snd]. destruct Hn as (_ & _ & [Hs | Hs]); rewrite Hs;
        reflexivity.
    - pose proof Hes as Hes0.
      cbn [forallb] in Hes. apply andb_prop in Hes.
      destruct Hes as [He Hes]. apply andb_prop in He.
      destruct He as [He1 He2]. apply negb_true_iff in He1, He2.
      destruct (never_closed_step e c Hn He1 He2) as (H1 & Hd & H2).
      rewrite legacy_run_cons. cbn [fst snd].
      unfold Endpoint.close_events in *.
      rewrite filter_app, H2, (IH _ H1 Hes).
      destruct Hn as (_ & _ & [Hs | Hs]).
      + rewrite Hs. cbn [State_eqb andb].
        pose proof H1 as (_ & _ & [Hs1 | Hs1]).
        * rewrite Hs1. cbn [State_eqb andb app]. reflexivity.
        * rewrite (Hstay es _ H1 Hs1 Hes), Hs1. reflexivity.
      + rewrite Hs, (Hd Hs). reflexivity. }
  rewrite (Hgen es c Hn Hes), Hs. reflexivity.
Qed.

Lemma legacy_drop_is_reported_as_1000_witness :
  state (fst (run [Request_upgrade true (Some 4)] (new_WebSocket false)))
  = connected /\
  Endpoint.close_events
    (snd (run [Socket_on_data 10;
               Receiver_ping (Endpoint.DString "p") Endpoint.FUndefined;
               Receiver_error "invalid utf8" None None None;
               Socket_on_close]
              (fst (run [Request_upgrade true (Some 4)]
                        (new_WebSocket false)))))
  = [Endpoint.Emit_close (Some 1000) (Some "")].
Proof.
  split; [reflexivity |].
  exact (legacy_drop_is_reported_as_1000
           (fst (run [Request_upgrade true (Some 4)] (new_WebSocket false)))
           [Socket_on_data 10;
            Receiver_ping (Endpoint.DString "p") Endpoint.FUndefined;
            Receiver_error "invalid utf8" None None None;
            Socket_on_close]
           eq_refl eq_refl eq_refl eq_refl).
Defined.

End LegacyLifeProofs.
